(** * ORCA / VMARD vibrational analysis: a shallow embedding of
    [orca_vib_analysis.py] and the verification of its specification.

    Conventions of the embedding.
    - A Python [str] is a [string]; the character classes of [re] and of
      [str.strip], [str.upper] are those of Python on 7-bit ASCII text.
    - A Python [float] is an IEEE 754 binary64 value, a [spec_float] of
      the Standard Library at precision 53 and maximal exponent 1024.
    - A Python [int] is a [Z]; [int] converts a numeral of 4300 digits
      at most, the default limit of CPython.  The integers that the
      program holds are read by [int] or are counts, so that [str]
      writes each of them.
    - A raised exception is a value of type [error] in a sum type.
    - The spectrum mapping is an insertion-ordered dictionary: a list of
      key/value pairs with pairwise distinct keys, scanned front to back.
    - The per-type counters of the aggregator are a [gmap string Z].
    - The result table is the list of its rows, under the eight columns
      of a result row; the answers that [input()] returns are a list of
      strings, read from its head. *)

From Stdlib Require Import ZArith NArith List Bool Ascii String Lia.
From Stdlib Require Import Decimal DecimalString DecimalN DecimalZ DecimalFacts.
From Stdlib Require Import SpecFloat.
From Stdlib Require Import Sorted Permutation.
From stdpp Require Import base option strings gmap.

Import ListNotations.
Open Scope string_scope.
Open Scope Z_scope.

#[local] Arguments String.append !s1 s2 / : simpl nomatch.
#[local] Arguments String.length !s / : simpl nomatch.

(* ================================================================= *)
(** ** Text primitives *)

(** [str.isspace] on ASCII: TAB, LF, VT, FF, CR, the four separators
    FS, GS, RS, US and the blank.  This is also the class [\s]. *)
Definition is_space (c : ascii) : bool :=
  let n := nat_of_ascii c in
  ((9 <=? n) && (n <=? 13))%nat || ((28 <=? n) && (n <=? 32))%nat.

(** The class [\d]. *)
Definition is_digit (c : ascii) : bool :=
  let n := nat_of_ascii c in ((48 <=? n) && (n <=? 57))%nat.

(** The class [[\d.]]. *)
Definition is_digit_or_dot (c : ascii) : bool :=
  is_digit c || Ascii.eqb c ".".

(** The class [\S]. *)
Definition is_nonspace (c : ascii) : bool := negb (is_space c).

(** The class [\w]. *)
Definition is_word (c : ascii) : bool :=
  let n := nat_of_ascii c in
  is_digit c || ((65 <=? n) && (n <=? 90))%nat
  || ((97 <=? n) && (n <=? 122))%nat || Ascii.eqb c "_".

(** The class [[+-]]. *)
Definition is_sign (c : ascii) : bool := Ascii.eqb c "+" || Ascii.eqb c "-".

(** The class [.] (no DOTALL flag): anything but a line feed. *)
Definition is_not_newline (c : ascii) : bool := negb (Ascii.eqb c "010").

Fixpoint str_drop (n : nat) (s : string) : string :=
  match n, s with
  | O, _ => s
  | S n', String _ s' => str_drop n' s'
  | S _, EmptyString => EmptyString
  end.

Fixpoint str_take (n : nat) (s : string) : string :=
  match n, s with
  | O, _ => EmptyString
  | S n', String c s' => String c (str_take n' s')
  | S _, EmptyString => EmptyString
  end.

(** Length of the longest prefix of [s] whose characters are all in [cls]. *)
Fixpoint span_len (cls : ascii -> bool) (s : string) : nat :=
  match s with
  | String c s' => if cls c then S (span_len cls s') else O
  | EmptyString => O
  end.

Fixpoint all_in (cls : ascii -> bool) (s : string) : bool :=
  match s with
  | String c s' => cls c && all_in cls s'
  | EmptyString => true
  end.

(** Whether [s] starts with a character of [cls]. *)
Definition head_in (cls : ascii -> bool) (s : string) : bool :=
  match s with
  | String c _ => cls c
  | EmptyString => false
  end.

Fixpoint lstrip (s : string) : string :=
  match s with
  | String c s' => if is_space c then lstrip s' else s
  | EmptyString => EmptyString
  end.

(** [rstrip] keeps a character when it is not a space or when something
    that is kept follows it. *)
Fixpoint rstrip (s : string) : string :=
  match s with
  | String c s' =>
      match rstrip s' with
      | EmptyString => if is_space c then EmptyString else String c EmptyString
      | r => String c r
      end
  | EmptyString => EmptyString
  end.

(** [str.strip()] *)
Definition strip (s : string) : string := rstrip (lstrip s).

(** [s.startswith(p)] *)
Fixpoint startswith (p s : string) : bool :=
  match p, s with
  | EmptyString, _ => true
  | String a p', String b s' => Ascii.eqb a b && startswith p' s'
  | String _ _, EmptyString => false
  end.

(** [p in s] *)
Fixpoint contains (p s : string) : bool :=
  startswith p s ||
  match s with
  | String _ s' => contains p s'
  | EmptyString => false
  end.

(** [sep.join(l)] *)
Fixpoint join (sep : string) (l : list string) : string :=
  match l with
  | [] => EmptyString
  | [x] => x
  | x :: l' => x ++ sep ++ join sep l'
  end.

(** [s.split(c)] for a one-character separator: never empty, one more
    field than there are separators. *)
Fixpoint split_on (c : ascii) (s : string) : list string :=
  match s with
  | EmptyString => [EmptyString]
  | String a s' =>
      if Ascii.eqb a c then EmptyString :: split_on c s'
      else match split_on c s' with
           | f :: fs => String a f :: fs
           | [] => [String a EmptyString]
           end
  end.

(** [s.split()]: the maximal runs of non-space characters. *)
Fixpoint split_ws_aux (cur : option string) (s : string) : list string :=
  match s with
  | EmptyString => match cur with Some w => [w] | None => [] end
  | String a s' =>
      if is_space a
      then match cur with
           | Some w => w :: split_ws_aux None s'
           | None => split_ws_aux None s'
           end
      else split_ws_aux (Some (match cur with
                               | Some w => w ++ String a EmptyString
                               | None => String a EmptyString
                               end)) s'
  end.

Definition split_ws (s : string) : list string := split_ws_aux None s.

Definition upper_char (c : ascii) : ascii :=
  let n := nat_of_ascii c in
  if ((97 <=? n) && (n <=? 122))%nat then ascii_of_nat (n - 32) else c.

Definition lower_char (c : ascii) : ascii :=
  let n := nat_of_ascii c in
  if ((65 <=? n) && (n <=? 90))%nat then ascii_of_nat (n + 32) else c.

Fixpoint map_chars (f : ascii -> ascii) (s : string) : string :=
  match s with
  | String c s' => String (f c) (map_chars f s')
  | EmptyString => EmptyString
  end.

(** [str.upper()] and [str.lower()] *)
Definition upper (s : string) : string := map_chars upper_char s.
Definition lower (s : string) : string := map_chars lower_char s.

(** [sys.get_int_max_str_digits()]: the limit of CPython on the number
    of digits of a numeral that [int] converts, 4300 by default. *)
Definition max_str_digits : nat := 4300.

(** [int(s)] on a string of [\d+], and [str(n)].  [int] raises its
    [ValueError] on a numeral of more digits than the limit, leading
    zeros counted. *)
Definition py_int (s : string) : option Z :=
  match s with
  | EmptyString => None
  | _ =>
      if (String.length s <=? max_str_digits)%nat
      then option_map (fun d => Z.of_N (N.of_uint d))
             (NilEmpty.uint_of_string s)
      else None
  end.

Definition py_str (z : Z) : string := NilZero.string_of_int (Z.to_int z).

(* ================================================================= *)
(** ** Regular expressions, as [re.match] runs them

    The patterns of the program are sequences of literal characters and
    of greedy repetitions of one character class, some of them capture
    groups.  [re.match] anchors the match at the start of the line, tries
    the longest repetition first and backtracks to shorter ones. *)

Inductive quant := Star | Plus | Opt.

Inductive item :=
| Chr (c : ascii)
| Rep (cls : ascii -> bool) (q : quant) (cap : bool).

Definition quant_min (q : quant) : nat :=
  match q with Plus => 1%nat | _ => 0%nat end.

Definition quant_max (q : quant) (n : nat) : nat :=
  match q with Opt => Nat.min 1 n | _ => n end.

(** Try the repetition counts [n], [n-1], ..., [lo] in this order. *)
Fixpoint try_down (k : string -> option (list string)) (cap : bool)
    (s : string) (lo n : nat) : option (list string) :=
  if (n <? lo)%nat then None
  else match k (str_drop n s) with
       | Some r => Some (if cap then str_take n s :: r else r)
       | None => match n with
                 | O => None
                 | S n' => try_down k cap s lo n'
                 end
       end.

Fixpoint lit (s : string) : list item :=
  match s with
  | String c s' => Chr c :: lit s'
  | EmptyString => []
  end.

(** The groups of the first match in backtracking order, or [None]. *)
Fixpoint re_match (p : list item) (s : string) : option (list string) :=
  match p with
  | [] => Some []
  | Chr c :: p' =>
      match s with
      | String a s' => if Ascii.eqb a c then re_match p' s' else None
      | EmptyString => None
      end
  | Rep cls q cap :: p' =>
      try_down (re_match p') cap s (quant_min q) (quant_max q (span_len cls s))
  end.

(** [m.group(i)], for [i >= 1]. *)
Definition group (m : list string) (i : nat) : string :=
  nth (i - 1) m EmptyString.

(* ================================================================= *)
(** ** Floating-point numbers: IEEE 754 binary64 *)

Definition float := spec_float.

Definition fsub : float -> float -> float := SFsub 53 1024.
Definition fdiv : float -> float -> float := SFdiv 53 1024.
Definition fabs : float -> float := SFabs.
Definition fltb : float -> float -> bool := SFltb.
Definition fleb : float -> float -> bool := SFleb.
Definition feqb : float -> float -> bool := SFeqb.

Definition is_nan (x : float) : bool :=
  match x with S754_nan => true | _ => false end.

(** The double nearest to [m * 10^p] (ties to even), signed by [neg]:
    what [float()] gives for a decimal numeral with digits [m] and
    decimal exponent [p]. *)
Definition round_decimal (neg : bool) (m : Z) (p : Z) : float :=
  match m with
  | Zpos m' =>
      SFdiv 53 1024
        (S754_finite neg (m' * Z.to_pos (10 ^ Z.max p 0))%positive 0)
        (S754_finite false (Z.to_pos (10 ^ Z.max (- p) 0)) 0)
  | _ => S754_zero neg
  end.

(** Value of a string of decimal digits, most significant digit first. *)
Fixpoint digits_from (acc : Z) (s : string) : Z :=
  match s with
  | String c s' =>
      digits_from (10 * acc + (Z.of_nat (nat_of_ascii c) - 48)) s'
  | EmptyString => acc
  end.

Definition digits_val (s : string) : Z := digits_from 0 s.

(** [digitpart ::= digit (["_"] digit)*].  [digitpart_tail] reads what
    follows the first digit; both return the digits read, underscores
    removed, and the rest of the string. *)
Fixpoint digitpart_tail (s : string) : string * string :=
  match s with
  | String c s' =>
      if is_digit c
      then let (d, r) := digitpart_tail s' in (String c d, r)
      else if Ascii.eqb c "_"
      then match s' with
           | String c' s'' =>
               if is_digit c'
               then let (d, r) := digitpart_tail s'' in (String c' d, r)
               else (EmptyString, s)
           | EmptyString => (EmptyString, s)
           end
      else (EmptyString, s)
  | EmptyString => (EmptyString, EmptyString)
  end.

Definition digitpart (s : string) : option (string * string) :=
  match s with
  | String c s' =>
      if is_digit c
      then let (d, r) := digitpart_tail s' in Some (String c d, r)
      else None
  | EmptyString => None
  end.

(** [number ::= [digitpart] "." digitpart | digitpart ["."]]: the integer
    digits, the fraction digits and the rest. *)
Definition scan_number (s : string) : option (string * string * string) :=
  match digitpart s with
  | Some (ip, r) =>
      match r with
      | String c r' =>
          if Ascii.eqb c "."
          then match digitpart r' with
               | Some (fp, r'') => Some (ip, fp, r'')
               | None => Some (ip, EmptyString, r')
               end
          else Some (ip, EmptyString, r)
      | EmptyString => Some (ip, EmptyString, r)
      end
  | None =>
      match s with
      | String c r' =>
          if Ascii.eqb c "."
          then match digitpart r' with
               | Some (fp, r'') => Some (EmptyString, fp, r'')
               | None => None
               end
          else None
      | EmptyString => None
      end
  end.

(** [[sign]]: whether a minus sign was read, and the rest. *)
Definition split_sign (s : string) : bool * string :=
  match s with
  | String c r =>
      if Ascii.eqb c "+" then (false, r)
      else if Ascii.eqb c "-" then (true, r)
      else (false, s)
  | EmptyString => (false, s)
  end.

(** [[exponent] ::= [("e" | "E") [sign] digitpart]], up to the end of
    the string. *)
Definition scan_exponent (s : string) : option Z :=
  match s with
  | EmptyString => Some 0
  | String c r =>
      if Ascii.eqb c "e" || Ascii.eqb c "E"
      then let '(neg, r1) := split_sign r in
           match digitpart r1 with
           | Some (ds, EmptyString) =>
               Some (if neg then - digits_val ds else digits_val ds)
           | _ => None
           end
      else None
  end.

(** [absfloatvalue ::= floatnumber | infinity | nan], signed by [neg]. *)
Definition py_float_abs (neg : bool) (s1 : string) : option float :=
  let l := lower s1 in
  if String.eqb l "inf" || String.eqb l "infinity" then Some (S754_infinity neg)
  else if String.eqb l "nan" then Some S754_nan
  else match scan_number s1 with
       | Some (ip, fp, r) =>
           match scan_exponent r with
           | Some e =>
               Some (round_decimal neg (digits_val (ip ++ fp))
                       (e - Z.of_nat (String.length fp)))
           | None => None
           end
       | None => None
       end.

(** [float(s)] for a string: [None] stands for the [ValueError]. *)
Definition py_float (s : string) : option float :=
  let '(neg, s1) := split_sign (strip s) in py_float_abs neg s1.

(** Nearest integer to [num / den], ties to even, for [den > 0]. *)
Definition round_half_even (num den : Z) : Z :=
  let q := num / den in
  match 2 * (num mod den) ?= den with
  | Lt => q
  | Gt => q + 1
  | Eq => if Z.even q then q else q + 1
  end.

Definition pad2 (n : Z) : string :=
  if n <? 10 then String "0" (py_str n) else py_str n.

(** The number of hundredths nearest to a finite [m * 2^e]. *)
Definition hundredths (m : positive) (e : Z) : Z :=
  match e with
  | Zneg p => round_half_even (Zpos m * 100) (2 ^ Zpos p)
  | _ => Zpos m * 100 * 2 ^ e
  end.

(** The format [{x:.2f}]. *)
Definition fmt2 (x : float) : string :=
  match x with
  | S754_nan => "nan"
  | S754_infinity s => if s then "-inf" else "inf"
  | S754_zero s => if s then "-0.00" else "0.00"
  | S754_finite s m e =>
      let n := hundredths m e in
      (if s then "-" else "") ++ py_str (n / 100) ++ "." ++ pad2 (n mod 100)
  end.

(** The literals [0.05] and [100.0] of the source. *)
Definition tolerance : float := round_decimal false 5 (-2).
Definition hundred : float := round_decimal false 100 0.

(** [abs(a - b) < 0.05] *)
Definition within_tolerance (a b : float) : bool :=
  fltb (fabs (fsub a b)) tolerance.

(* ================================================================= *)
(** ** Exceptions *)

Inductive error :=
| SectionNotFound                 (* ValueError: IR SPECTRUM section not found *)
| NoModesFound                    (* ValueError: No IR modes found ... *)
| NoModesInReport                 (* ValueError: No vibrational modes found ... *)
| InvalidFloat (s : string)       (* ValueError raised by float(s) *)
| InvalidInt (s : string)         (* ValueError raised by int(s) *)
| KeyError (k : Z).

Inductive result (A : Type) :=
| Ok (a : A)
| Raise (e : error).

Arguments Ok {A} a.
Arguments Raise {A} e.

Definition bind {A B : Type} (r : result A) (f : A -> result B) : result B :=
  match r with
  | Ok a => f a
  | Raise e => Raise e
  end.

Notation "'let*' x ':=' r 'in' k" := (bind r (fun x => k))
  (at level 10, x name, r at level 100, k at level 200).

Definition to_float (s : string) : result float :=
  match py_float s with
  | Some f => Ok f
  | None => Raise (InvalidFloat s)
  end.

Definition to_int (s : string) : result Z :=
  match py_int s with
  | Some z => Ok z
  | None => Raise (InvalidInt s)
  end.

(** A [for] loop over a list whose body may raise. *)
Fixpoint for_each {S A : Type} (body : S -> A -> result S) (l : list A)
    (st : S) : result S :=
  match l with
  | [] => Ok st
  | a :: l' => let* st' := body st a in for_each body l' st'
  end.

(* ================================================================= *)
(** ** Data model *)

(** The value [{"freq": ..., "ir": ...}] stored for a mode index. *)
Record spectrum := { freq : float; ir : float }.

(** An insertion-ordered dictionary from mode indices to spectrum records. *)
Definition orca_dict := list (Z * spectrum).

(** [d[k] = v]: a new key goes last, an old key keeps its place. *)
Fixpoint dict_set (k : Z) (v : spectrum) (d : orca_dict) : orca_dict :=
  match d with
  | [] => [(k, v)]
  | (k', v') :: d' =>
      if Z.eqb k' k then (k, v) :: d' else (k', v') :: dict_set k v d'
  end.

(** [d[k]] *)
Fixpoint dict_get (k : Z) (d : orca_dict) : option spectrum :=
  match d with
  | [] => None
  | (k', v') :: d' => if Z.eqb k' k then Some v' else dict_get k d'
  end.

(** [del d[k]] *)
Fixpoint dict_del (k : Z) (d : orca_dict) : orca_dict :=
  match d with
  | [] => []
  | (k', v') :: d' => if Z.eqb k' k then d' else (k', v') :: dict_del k d'
  end.

Definition dict_keys (d : orca_dict) : list Z := map fst d.

(** A contribution [{'type': ..., 'atoms': ..., 'weight': ...}]. *)
Record contribution := {
  ctype : string;
  atoms : list string;
  weight : float
}.

(** A mode [{'Mode': ..., 'Freq': ..., 'IR': ..., 'Contrib': [...]}]. *)
Record mode_record := {
  Mode : Z;
  Freq : float;
  IR : float;
  Contrib : list contribution
}.

(** A row of the result table. *)
Record result_row := {
  row_Mode : Z;
  row_Freq : string;               (* 'Freq_cm-1' *)
  row_IR : string;                 (* 'IR_Intensity_km/mol' *)
  row_BOND : Z;                    (* 'BOND_Contribs' *)
  row_ANGLE : Z;                   (* 'ANGLE_Contribs' *)
  row_OUT : Z;                     (* 'OUT_Contribs' *)
  row_TORSION : Z;                 (* 'TORSION_Contribs' *)
  row_Top : string                 (* 'Top_Contributions' *)
}.

(* ================================================================= *)
(** ** Spectrum extractor: [parse_orca_ir] *)

(** First index [k] among [i], [i+1], ..., [i+n-1] with [P k]. *)
Fixpoint first_from (P : nat -> bool) (n i : nat) : option nat :=
  match n with
  | O => None
  | S n' => if P i then Some i else first_from P n' (S i)
  end.

Definition line_at (lines : list string) (i : nat) : string :=
  nth i lines EmptyString.

Definition section_label : string := "IR SPECTRUM".

Definition footer_phrase : string :=
  "Maximum memory used throughout the entire PROP-calculation".

Definition is_label_line (ln : string) : bool :=
  startswith section_label (strip ln).

(** The condition of the fallback scan at index [k]. *)
Definition is_fallback_end (lines : list string) (k : nat) : bool :=
  (if (k + 1 <? length lines)%nat
   then (String.length (strip (line_at lines k)) =? 0)%nat
        && (0 <? String.length (strip (line_at lines (k + 1))))%nat
   else false)
  || startswith "---" (strip (line_at lines k))
  || startswith "**********" (strip (line_at lines k)).

Definition section_start (lines : list string) : option nat :=
  first_from (fun i => is_label_line (line_at lines i)) (length lines) 0.

Definition section_end (lines : list string) (start : nat) : nat :=
  match first_from (fun j => contains footer_phrase (line_at lines j))
          (length lines - start) start with
  | Some j => j
  | None =>
      match first_from (is_fallback_end lines)
              (length lines - (start + 1)) (start + 1) with
      | Some k => k
      | None => length lines
      end
  end.

(** [lines[a:b]] *)
Definition slice {A : Type} (a b : nat) (l : list A) : list A :=
  firstn (b - a) (skipn a l).

(** [\s*(\d+):\s*([\d.]+)\s+\S+\s+([\d.]+)] *)
Definition pat : list item :=
  [Rep is_space Star false; Rep is_digit Plus true; Chr ":";
   Rep is_space Star false; Rep is_digit_or_dot Plus true;
   Rep is_space Plus false; Rep is_nonspace Plus false;
   Rep is_space Plus false; Rep is_digit_or_dot Plus true].

(** The body of the loop over the lines of the section. *)
Definition orca_step (orca : orca_dict) (ln : string) : result orca_dict :=
  match re_match pat ln with
  | Some m =>
      let* idx := to_int (group m 1) in
      let* f := to_float (group m 2) in
      let* i := to_float (group m 3) in
      Ok (dict_set idx {| freq := f; ir := i |} orca)
  | None => Ok orca
  end.

Definition parse_orca_ir (lines : list string) : result orca_dict :=
  match section_start lines with
  | None => Raise SectionNotFound
  | Some start =>
      let end_ := section_end lines start in
      let* orca := for_each orca_step (slice start end_ lines) [] in
      match orca with
      | [] => Raise NoModesFound
      | _ => Ok orca
      end
  end.

(* ================================================================= *)
(** ** Report merger: [replace_vmard_ir] *)

(** [\s*Mode\s+(\d+):\s*([\d.]+)\s*cm-1\s*\(IR:\s*([\d.]+)\)] *)
Definition pat_mode : list item :=
  ([Rep is_space Star false] ++ lit "Mode" ++
   [Rep is_space Plus false; Rep is_digit Plus true; Chr ":";
    Rep is_space Star false; Rep is_digit_or_dot Plus true;
    Rep is_space Star false] ++ lit "cm-1" ++
   [Rep is_space Star false] ++ lit "(IR:" ++
   [Rep is_space Star false; Rep is_digit_or_dot Plus true; Chr ")"])%list.

(** The scan of the remaining records: the key of the first one whose
    frequency is within tolerance of [f]. *)
Fixpoint find_match (remaining : orca_dict) (f : float) : option Z :=
  match remaining with
  | [] => None
  | (o_idx, v_data) :: rest =>
      if within_tolerance (freq v_data) f then Some o_idx
      else find_match rest f
  end.

(** The line written for a match. *)
Definition new_line (vm_mode : Z) (f irv : float) : string :=
  "Mode " ++ py_str vm_mode ++ ":  " ++ fmt2 f ++ " cm-1 (IR: "
  ++ fmt2 irv ++ ")".

(** The state of the loop: the lines emitted so far (first emitted
    first), the number of replacements, the records that remain. *)
Record merge_state := {
  out : list string;
  replacements_made : nat;
  remaining_orca_modes : orca_dict
}.

Definition emit (st : merge_state) (ln : string) : merge_state :=
  {| out := (out st ++ [ln])%list;
     replacements_made := replacements_made st;
     remaining_orca_modes := remaining_orca_modes st |}.

Definition merge_step (st : merge_state) (ln : string) : result merge_state :=
  match re_match pat_mode ln with
  | Some m =>
      let* vm_mode := to_int (group m 1) in
      let* f := to_float (group m 2) in
      match find_match (remaining_orca_modes st) f with
      | Some match_key =>
          match dict_get match_key (remaining_orca_modes st) with
          | Some v =>
              Ok {| out := (out st ++ [new_line vm_mode f (ir v)])%list;
                    replacements_made := S (replacements_made st);
                    remaining_orca_modes :=
                      dict_del match_key (remaining_orca_modes st) |}
          | None => Raise (KeyError match_key)
          end
      | None => Ok (emit st ln)
      end
  | None => Ok (emit st ln)
  end.

Inductive warning :=
| NothingUpdated
| Unmatched (n : nat) (freqs : list float).

Definition merge_warnings (st : merge_state) : list warning :=
  if (replacements_made st =? 0)%nat then [NothingUpdated]
  else match remaining_orca_modes st with
       | [] => []
       | rem => [Unmatched (length rem) (map (fun kv => freq (snd kv)) rem)]
       end.

(** The merger on the lines read from the report: the final state of the
    loop.  The text written back is [written]. *)
Definition replace_vmard_ir (lines : list string) (orca_modes : orca_dict)
    : result merge_state :=
  for_each merge_step lines
    {| out := []; replacements_made := 0;
       remaining_orca_modes := orca_modes |}.

Definition written (st : merge_state) : string :=
  join (String "010" EmptyString) (out st).

(* ================================================================= *)
(** ** Report parser: [parse_aligned_nma] *)

(** [\s*[+-]?([\d.]+)\s+\(\s*([\d.]+)%\)\s+(\w+)\s+(.+)] *)
Definition pat_contrib : list item :=
  [Rep is_space Star false; Rep is_sign Opt false;
   Rep is_digit_or_dot Plus true; Rep is_space Plus false; Chr "(";
   Rep is_space Star false; Rep is_digit_or_dot Plus true; Chr "%"; Chr ")";
   Rep is_space Plus false; Rep is_word Plus true;
   Rep is_space Plus false; Rep is_not_newline Plus true].

(** [modes[-1]['Contrib'].append(c)] *)
Fixpoint append_contrib (modes : list mode_record) (c : contribution)
    : list mode_record :=
  match modes with
  | [] => []
  | [m] => [{| Mode := Mode m; Freq := Freq m; IR := IR m;
               Contrib := (Contrib m ++ [c])%list |}]
  | m :: ms => m :: append_contrib ms c
  end.

Definition is_nil {A : Type} (l : list A) : bool :=
  match l with [] => true | _ => false end.

(** The body of the loop over the lines of the report. *)
Definition parse_step (modes : list mode_record) (ln : string)
    : result (list mode_record) :=
  match re_match pat_mode ln with
  | Some m =>
      let* idx := to_int (group m 1) in
      let* f := to_float (group m 2) in
      let* i := to_float (group m 3) in
      Ok (modes ++ [{| Mode := idx; Freq := f; IR := i; Contrib := [] |}])%list
  | None =>
      if (startswith "+" (strip ln) || startswith "-" (strip ln))
         && negb (is_nil modes)
      then match re_match pat_contrib ln with
           | Some m2 =>
               let* pct := to_float (group m2 2) in
               Ok (append_contrib modes
                     {| ctype := group m2 3;
                        atoms := split_ws (group m2 4);
                        weight := fdiv pct hundred |})
           | None => Ok modes
           end
      else Ok modes
  end.

Definition parse_aligned_nma (lines : list string)
    : result (list mode_record) :=
  let* modes := for_each parse_step lines [] in
  match modes with
  | [] => Raise NoModesInReport
  | _ => Ok modes
  end.

(* ================================================================= *)
(** ** Aggregator: [calc_counts_and_top] *)

(** [{'BOND': 0, 'ANGLE': 0, 'OUT': 0, 'TORSION': 0}] *)
Definition cnt_init : gmap string Z :=
  <["BOND" := 0]> (<["ANGLE" := 0]> (<["OUT" := 0]> (<["TORSION" := 0]> ∅))).

(** ['TORSION' if c['type'].upper() == 'TORSION' else c['type'].upper()] *)
Definition count_key (c : contribution) : string :=
  if String.eqb (upper (ctype c)) "TORSION" then "TORSION"
  else upper (ctype c).

(** [cnt[key] = cnt.get(key, 0) + 1] *)
Definition count_step (cnt : gmap string Z) (c : contribution)
    : gmap string Z :=
  <[count_key c := default 0 (cnt !! count_key c) + 1]> cnt.

Definition count_types (contribs : list contribution) : gmap string Z :=
  fold_left count_step contribs cnt_init.

(** [cnt.get(key, 0)] *)
Definition cnt_get (cnt : gmap string Z) (key : string) : Z :=
  default 0 (cnt !! key).

(** A stable ascending sort that compares with [lt] only: an element is
    placed before the first one that is not smaller than it. *)
Fixpoint insert_by {A : Type} (lt : A -> A -> bool) (x : A) (l : list A)
    : list A :=
  match l with
  | [] => [x]
  | y :: l' => if lt y x then y :: insert_by lt x l' else x :: y :: l'
  end.

Fixpoint sort_by {A : Type} (lt : A -> A -> bool) (l : list A) : list A :=
  match l with
  | [] => []
  | x :: l' => insert_by lt x (sort_by lt l')
  end.

Definition weight_lt (a b : contribution) : bool :=
  fltb (weight a) (weight b).

(** [sorted(l, key=lambda x: x['weight'], reverse=True)]: the list is
    reversed, sorted in ascending order by a stable sort, and reversed. *)
Definition sorted_by_weight_desc (l : list contribution) : list contribution :=
  rev (sort_by weight_lt (rev l)).

(** [f"{c['type']}({' '.join(c['atoms'])}):{c['weight']:.2f}"] *)
Definition render_contribution (c : contribution) : string :=
  ctype c ++ "(" ++ join " " (atoms c) ++ "):" ++ fmt2 (weight c).

Definition top_contributions (topn : nat) (m : mode_record)
    : list contribution :=
  firstn topn (sorted_by_weight_desc (Contrib m)).

Definition topstr (topn : nat) (m : mode_record) : string :=
  join "; " (map render_contribution (top_contributions topn m)).

Definition make_row (topn : nat) (m : mode_record) : result_row :=
  let cnt := count_types (Contrib m) in
  {| row_Mode := Mode m;
     row_Freq := fmt2 (Freq m);
     row_IR := fmt2 (IR m);
     row_BOND := cnt_get cnt "BOND";
     row_ANGLE := cnt_get cnt "ANGLE";
     row_OUT := cnt_get cnt "OUT";
     row_TORSION := cnt_get cnt "TORSION";
     row_Top := topstr topn m |}.

Definition calc_counts_and_top (modes : list mode_record) (topn : nat)
    : list result_row :=
  map (make_row topn) modes.

(* ================================================================= *)
(** ** Frequency filter: the branch ['f'] of [prompt_filter] *)

(** [df['Freq_cm-1'].astype(float)]: [None] for the [ValueError]. *)
Fixpoint astype_float (col : list string) : option (list float) :=
  match col with
  | [] => Some []
  | s :: col' =>
      match py_float s, astype_float col' with
      | Some f, Some fs => Some (f :: fs)
      | _, _ => None
      end
  end.

(** [df[mask]] *)
Fixpoint select {A : Type} (df : list A) (mask : list bool) : list A :=
  match df, mask with
  | r :: df', b :: mask' => if b then r :: select df' mask' else select df' mask'
  | _, _ => []
  end.

(** [Series.isin(values)] on floats: equal, or both not-a-number. *)
Definition isin (values : list float) (x : float) : bool :=
  existsb (fun v => feqb x v || (is_nan x && is_nan v)) values.

(** [freq_input] is the answer read by [input()]. *)
Definition frequency_filter (answer : string) (df : list result_row)
    : list result_row :=
  let freq_input := strip answer in
  if (String.length freq_input =? 0)%nat then df
  else if contains "-" freq_input then
    match split_on "-" freq_input with
    | [f_start_str; f_end_str] =>
        match py_float (strip f_start_str), py_float (strip f_end_str),
              astype_float (map row_Freq df) with
        | Some f_start, Some f_end, Some col =>
            select df (map (fun x => fleb f_start x && fleb x f_end) col)
        | _, _, _ => df
        end
    | _ => df
    end
  else
    match astype_float
            (List.filter (fun x => negb (String.length (strip x) =? 0)%nat)
               (split_on "," freq_input)),
          astype_float (map row_Freq df) with
    | Some freqs, Some col => select df (map (isin freqs) col)
    | _, _ => df
    end.

(* ================================================================= *)
(** ** Export: [export_results] *)

(** [df.columns] *)
Definition columns : list string :=
  ["Mode"; "Freq_cm-1"; "IR_Intensity_km/mol"; "BOND_Contribs";
   "ANGLE_Contribs"; "OUT_Contribs"; "TORSION_Contribs";
   "Top_Contributions"].

(** [str(row[c]) for c in df.columns] *)
Definition row_cells (r : result_row) : list string :=
  [py_str (row_Mode r); row_Freq r; row_IR r; py_str (row_BOND r);
   py_str (row_ANGLE r); py_str (row_OUT r); py_str (row_TORSION r);
   row_Top r].

(** [s.rfind(c)], counting from [i]. *)
Fixpoint rfind_from (c : ascii) (s : string) (i : Z) : Z :=
  match s with
  | EmptyString => -1
  | String a s' =>
      let r := rfind_from c s' (i + 1) in
      if 0 <=? r then r else if Ascii.eqb a c then i else -1
  end.

Definition rfind (c : ascii) (s : string) : Z := rfind_from c s 0.

Definition is_dot (c : ascii) : bool := Ascii.eqb c ".".

(** [os.path.splitext(p)[1]]: what follows the last dot of the last path
    component, unless only dots precede it there. *)
Definition splitext_ext (p : string) : string :=
  let sepIndex := rfind "/" p in
  let dotIndex := rfind "." p in
  if sepIndex <? dotIndex
  then if all_in is_dot
            (str_take (Z.to_nat (dotIndex - (sepIndex + 1)))
               (str_drop (Z.to_nat (sepIndex + 1)) p))
       then EmptyString
       else str_drop (Z.to_nat dotIndex) p
  else EmptyString.

Definition nl : string := String "010" EmptyString.
Definition tab : string := String "009" EmptyString.
Definition dquote : ascii := "034"%char.

Fixpoint repeat_str (s : string) (n : nat) : string :=
  match n with
  | O => EmptyString
  | S n' => s ++ repeat_str s n'
  end.

Fixpoint concat_str (l : list string) : string :=
  match l with
  | [] => EmptyString
  | s :: l' => s ++ concat_str l'
  end.

(** The pipe-delimited table of the branch ['.mc']. *)
Definition mc_line (cells : list string) : string :=
  "| " ++ join " | " cells ++ " |" ++ nl.

Definition mc_text (df : list result_row) : string :=
  mc_line columns
  ++ ("|" ++ repeat_str " --- |" (length columns) ++ nl)
  ++ concat_str (map (fun r => mc_line (row_cells r)) df).

(** A field as [csv.writer] writes it with minimal quoting and a tab as
    delimiter: quoted when it holds a tab, a quote or a line break. *)
Definition needs_quote (c : ascii) : bool :=
  Ascii.eqb c "009" || Ascii.eqb c dquote || Ascii.eqb c "010"
  || Ascii.eqb c "013".

Fixpoint double_quotes (s : string) : string :=
  match s with
  | EmptyString => EmptyString
  | String c s' =>
      if Ascii.eqb c dquote then String c (String c (double_quotes s'))
      else String c (double_quotes s')
  end.

Definition csv_field (s : string) : string :=
  if all_in (fun c => negb (needs_quote c)) s then s
  else String dquote (double_quotes s) ++ String dquote EmptyString.

Definition csv_line (cells : list string) : string :=
  join tab (map csv_field cells) ++ nl.

(** The text that [df.to_csv(outpath, sep='\t', index=False)] writes. *)
Definition to_csv (df : list result_row) : string :=
  csv_line columns ++ concat_str (map (fun r => csv_line (row_cells r)) df).

(** The worksheet that [df.to_excel(outpath, index=False)] writes, each
    cell given by the text of its value. *)
Definition to_excel (df : list result_row) : list (list string) :=
  columns :: map row_cells df.

(** What one pass of the loop of [export_results] does with the file
    name given.  It writes a worksheet, given by its rows of cells; or
    a text; or a text in compressed form, when pandas infers a
    compression from the file name; or nothing, when the writer raises:
    the exception is caught, "Error saving file" is printed and the file
    name is asked for again. *)
Inductive exported :=
| Workbook (sheet : list (list string))
| Text (content : string)
| Compressed (method : string) (content : string)
| NotWritten.

(** What the program finds where it runs.  The optional modules of
    pandas that the export can need: a writer of workbooks ([xlsxwriter]
    or [openpyxl]) and [zstandard]; without the module pandas raises an
    [ImportError].  The file names that can be opened for writing: for
    any other, as the name of a directory, [open] raises an [OSError],
    or a [ValueError] when the name holds a null character. *)
Record environment := {
  excel_writer : bool;
  zstandard : bool;
  can_open : string -> bool
}.

(** [s.endswith(suffix)] *)
Definition endswith (suffix s : string) : bool :=
  (String.length suffix <=? String.length s)%nat
  && String.eqb (str_drop (String.length s - String.length suffix) s) suffix.

(** [pandas.io.common.extension_to_compression] of pandas 2, in its
    order. *)
Definition extension_to_compression : list (string * string) :=
  [(".tar", "tar"); (".tar.gz", "tar"); (".tar.bz2", "tar");
   (".tar.xz", "tar"); (".gz", "gzip"); (".bz2", "bz2"); (".zip", "zip");
   (".xz", "xz"); (".zst", "zstd")].

(** [pandas.io.common.infer_compression(path, "infer")]: the method of
    the first ending, in the order of the table, that ends the file
    name put in lower case. *)
Definition infer_compression (filepath : string) : option string :=
  option_map snd
    (List.find (fun ec => endswith (fst ec) (lower filepath))
       extension_to_compression).

(** [df.to_excel(outpath, index=False)]: pandas takes the writer from
    the extension as it is typed, [os.path.splitext(path)[-1][1:]]; it
    has one for [xlsx] and raises a [ValueError] ("No engine for
    filetype") for [XLSX] or [Xlsx]. *)
Definition write_excel (env : environment) (outpath : string)
    (df : list result_row) : exported :=
  if String.eqb (splitext_ext outpath) ".xlsx" && excel_writer env
     && can_open env outpath
  then Workbook (to_excel df)
  else NotWritten.

(** [df.to_csv(outpath, sep='\t', index=False)]: the default
    [compression='infer'] compresses the text when the file name ends in
    an ending of the table. *)
Definition write_csv (env : environment) (outpath : string)
    (df : list result_row) : exported :=
  match infer_compression outpath with
  | Some method =>
      if String.eqb method "zstd" && negb (zstandard env) then NotWritten
      else if can_open env outpath then Compressed method (to_csv df)
      else NotWritten
  | None => if can_open env outpath then Text (to_csv df) else NotWritten
  end.

(** The branch ['.mc']: [with open(outpath, 'w', encoding="utf-8")]. *)
Definition write_mc (env : environment) (outpath : string)
    (df : list result_row) : exported :=
  if can_open env outpath then Text (mc_text df) else NotWritten.

(** [outpath] is the non-empty answer read by [input()], stripped. *)
Definition export_results (env : environment) (outpath : string)
    (df : list result_row) : exported :=
  let ext := lower (splitext_ext outpath) in
  if String.eqb ext ".xlsx" then write_excel env outpath df
  else if String.eqb ext ".mc" then write_mc env outpath df
  else write_csv env outpath df.


(* ================================================================= *)
(** ** Atoms filter: the branch ['a'] of [prompt_filter]

    The table is one that carries its columns and the default index
    [0..n-1], as [calc_counts_and_top] returns it for a list of modes
    that is not empty, so that the mask and the column are combined row
    by row.  Texts are ASCII. *)

(** [Series.str.contains(r'\(' + re.escape(grp) + r'\)', case=False,
    regex=True)] on one cell: the escaped pattern stands for the text
    [(grp)] itself, searched for anywhere in the cell without regard to
    the case of letters. *)
Definition mentions_group (grp cell : string) : bool :=
  contains (lower ("(" ++ grp ++ ")")) (lower cell).

(** [mask | column] *)
Fixpoint mask_or (mask column : list bool) : list bool :=
  match mask, column with
  | a :: mask', b :: column' => (a || b) :: mask_or mask' column'
  | _, _ => []
  end.

(** [[grp.strip() for grp in atoms_input.split(',') if grp.strip()]] *)
Definition atoms_groups (atoms_input : string) : list string :=
  map strip
    (List.filter (fun grp => negb (String.length (strip grp) =? 0)%nat)
       (split_on "," atoms_input)).

(** The mask after the loop over the groups, from
    [pd.Series([False] * len(df))]. *)
Definition atoms_mask (groups : list string) (df : list result_row)
    : list bool :=
  fold_left
    (fun mask grp =>
       mask_or mask (map (fun r => mentions_group grp (row_Top r)) df))
    groups (repeat false (length df)).

(** [atoms_input] is the answer read by [input()]. *)
Definition atoms_filter (answer : string) (df : list result_row)
    : list result_row :=
  let atoms_input := strip answer in
  if (String.length atoms_input =? 0)%nat then df
  else
    let mask := atoms_mask (atoms_groups atoms_input) df in
    if existsb (fun b => b) mask then select df mask else df.

(* ================================================================= *)
(** ** The dialogue: [prompt_filter]

    The answers that [input()] returns are a list, read from its head;
    [None] stands for the [EOFError] of [input()] on an exhausted
    input. *)

(** What [prompt_filter] returns: a table, or [None] as the signal to
    export. *)
Inductive filter_outcome :=
| Table (df : list result_row)
| ExportSignal.

Fixpoint prompt_filter (answers : list string) (df : list result_row)
    : option (filter_outcome * list string) :=
  match answers with
  | [] => None
  | answer :: rest =>
      let choice := lower (strip answer) in
      if String.eqb choice "a" then
        match rest with
        | [] => None
        | atoms_input :: rest' => Some (Table (atoms_filter atoms_input df), rest')
        end
      else if String.eqb choice "f" then
        match rest with
        | [] => None
        | freq_input :: rest' =>
            Some (Table (frequency_filter freq_input df), rest')
        end
      else if String.eqb choice "n" then Some (Table df, rest)
      else if String.eqb choice "e" then Some (ExportSignal, rest)
      else prompt_filter rest df
  end.

(* ================================================================= *)
(** ** The path of the report: [main] *)

(** [s.replace(old, new)] for a non-empty [old]: the occurrences of
    [old] are replaced from the left and the scan resumes behind each
    one.  [skip] counts the characters of a replaced occurrence that are
    still to be passed over. *)
Fixpoint replace_from (old new : string) (skip : nat) (s : string) : string :=
  match s with
  | EmptyString => EmptyString
  | String c s' =>
      match skip with
      | S k => replace_from old new k s'
      | O =>
          if startswith old s
          then new ++ replace_from old new (String.length old - 1) s'
          else String c (replace_from old new 0 s')
      end
  end.

Definition py_replace (old new s : string) : string :=
  replace_from old new 0 s.

(** [nma_path = full_hfile_path.replace(".hess", ".nma")] *)
Definition nma_path (full_hfile_path : string) : string :=
  py_replace ".hess" ".nma" full_hfile_path.

(* ================================================================= *)
(** ** Vocabulary of the specification *)

(** The record that a line of the section carries: [Ok None] when the
    record pattern does not match it, a raised [ValueError] when it
    matches and one of its numerals is not a number. *)
Definition record_of (ln : string) : result (option (Z * spectrum)) :=
  match re_match pat ln with
  | Some m =>
      let* idx := to_int (group m 1) in
      let* f := to_float (group m 2) in
      let* i := to_float (group m 3) in
      Ok (Some (idx, {| freq := f; ir := i |}))
  | None => Ok None
  end.

(** A well-formed spectrum line: the pattern matches and the numerals
    are numbers. *)
Definition is_spectrum_line (ln : string) : bool :=
  match record_of ln with
  | Ok (Some _) => true
  | _ => false
  end.

(** A line on which the body of the extractor's loop raises nothing. *)
Definition readable (ln : string) : bool :=
  match record_of ln with
  | Ok _ => true
  | Raise _ => false
  end.

(** The records of the well-formed lines of a window, in order. *)
Fixpoint records_of (window : list string) : list (Z * spectrum) :=
  match window with
  | [] => []
  | ln :: w =>
      match record_of ln with
      | Ok (Some r) => r :: records_of w
      | _ => records_of w
      end
  end.

(** The window that the extractor bounds, when the label is found. *)
Definition section_window (lines : list string) : option (list string) :=
  match section_start lines with
  | Some start => Some (slice start (section_end lines start) lines)
  | None => None
  end.

(** [d[k] = v] for each record [(k, v)] of [rs], in order. *)
Definition dict_update (d : orca_dict) (rs : list (Z * spectrum)) : orca_dict :=
  fold_left (fun d r => dict_set (fst r) (snd r) d) rs d.

(** The value of the last record of [rs] that carries the index [k]. *)
Definition last_record (k : Z) (rs : list (Z * spectrum)) : option spectrum :=
  fold_left (fun acc r => if Z.eqb (fst r) k then Some (snd r) else acc)
    rs None.

(** What the merger reads on a line: [Ok None] when the mode-header
    pattern does not match it, the mode number and the displayed
    frequency when it does, a raised [ValueError] when the frequency is
    not a number. *)
Definition parse_header (ln : string) : result (option (Z * float)) :=
  match re_match pat_mode ln with
  | Some m =>
      let* vm_mode := to_int (group m 1) in
      let* f := to_float (group m 2) in
      Ok (Some (vm_mode, f))
  | None => Ok None
  end.

(** A line on which the body of the merger's loop raises no
    [ValueError]. *)
Definition mergeable (ln : string) : bool :=
  match parse_header ln with
  | Ok _ => true
  | Raise _ => false
  end.

(** A header line whose displayed frequency is within tolerance of the
    record [v]. *)
Definition header_near (v : spectrum) (ln : string) : bool :=
  match parse_header ln with
  | Ok (Some (_, f)) => within_tolerance (freq v) f
  | _ => false
  end.

(** The record [v] is within tolerance of the frequency [f]. *)
Definition near (f : float) (kv : Z * spectrum) : bool :=
  within_tolerance (freq (snd kv)) f.

(** How an emitted line relates to the line read: it is that line, or
    the line is a header whose frequency is within tolerance of a record
    of the mapping and the emitted line carries that record's
    intensity. *)
Definition emitted_as (orca : orca_dict) (ln ln' : string) : Prop :=
  ln' = ln
  \/ exists vm f k v,
       parse_header ln = Ok (Some (vm, f))
       /\ List.In (k, v) orca
       /\ within_tolerance (freq v) f = true
       /\ ln' = new_line vm f (ir v).

(** The number of contributions whose type token, in upper case, is
    [key]. *)
Definition count_of (key : string) (contribs : list contribution) : Z :=
  Z.of_nat (length (List.filter (fun c => String.eqb (upper (ctype c)) key)
                      contribs)).

(** The four canonical buckets. *)
Definition canonical (key : string) : Prop :=
  key = "BOND" \/ key = "ANGLE" \/ key = "OUT" \/ key = "TORSION".

(** The contribution [c] has the weight [w], as [==] compares floats. *)
Definition same_weight (w : float) (c : contribution) : bool :=
  feqb (weight c) w.

(** [a] is not smaller than [b]: the order of a list sorted in
    descending weight. *)
Definition not_lighter (a b : contribution) : Prop :=
  fltb (weight a) (weight b) = false.


(** The endings, after the last dot and in lower case, of the file
    names that pandas compresses. *)
Definition compression_endings : list string :=
  ["tar"; "gz"; "bz2"; "zip"; "xz"; "zst"].

(** The extension that [export_results] looks at. *)
Definition extension (outpath : string) : string :=
  lower (splitext_ext outpath).

(** A float that [{:.2f}] writes with digits only: a finite one that
    carries no minus sign. *)
Definition printable (x : float) : bool :=
  match x with
  | S754_zero false | S754_finite false _ _ => true
  | _ => false
  end.

(** A float that carries no minus sign. *)
Definition unsigned (x : float) : bool :=
  match x with
  | S754_zero s | S754_infinity s | S754_finite s _ _ => negb s
  | S754_nan => true
  end.

(** Zero or a finite number. *)
Definition is_finite (x : float) : bool :=
  match x with
  | S754_zero _ | S754_finite _ _ _ => true
  | _ => false
  end.

(** The number of hundredths that [{:.2f}] writes for [x]. *)
Definition hundredths_of (x : float) : Z :=
  match x with
  | S754_finite _ m e => hundredths m e
  | _ => 0
  end.

(** The float that is read back from the two decimals written for [x]:
    the double nearest to [hundredths_of x / 100]. *)
Definition two_decimals (x : float) : float :=
  round_decimal false (hundredths_of x) (-2).

(** The frequency cell of a row is a float written with [{:.2f}], as
    the aggregator writes it. *)
Definition displayed (r : result_row) : Prop :=
  exists x, row_Freq r = fmt2 x.




(** A float read from a numeral without a sign: a number, not NaN, that
    carries no minus sign. *)
Definition plain_number (x : float) : bool :=
  unsigned x && negb (is_nan x).


(** A record whose index is not negative and whose two values are
    numbers without a minus sign. *)
Definition plain_record (kv : Z * spectrum) : Prop :=
  0 <= fst kv
  /\ plain_number (freq (snd kv)) = true
  /\ plain_number (ir (snd kv)) = true.

(** A line that holds the footer phrase. *)
Definition is_footer_line (ln : string) : bool := contains footer_phrase ln.

(** A line that the fallback scan takes for a section separator. *)
Definition is_rule_line (ln : string) : bool :=
  startswith "---" (strip ln) || startswith "**********" (strip ln).


(** A line that the mode-header pattern matches. *)
Definition is_header_line (ln : string) : bool :=
  match re_match pat_mode ln with
  | Some _ => true
  | None => false
  end.


(** The mode number, frequency and intensity that a header line
    carries, when its numerals are numbers. *)
Definition header_fields (ln : string) : option (Z * float * float) :=
  match re_match pat_mode ln with
  | Some m =>
      match py_int (group m 1), py_float (group m 2), py_float (group m 3) with
      | Some idx, Some f, Some i => Some (idx, f, i)
      | _, _, _ => None
      end
  | None => None
  end.

(** The header fields of the lines of a report, in order. *)
Fixpoint headers_of (lines : list string) : list (Z * float * float) :=
  match lines with
  | [] => []
  | ln :: l =>
      match header_fields ln with
      | Some h => h :: headers_of l
      | None => headers_of l
      end
  end.

Definition mode_key (m : mode_record) : Z * float * float :=
  (Mode m, Freq m, IR m).

(** A line that starts, after blanks, with a sign. *)
Definition is_signed_line (ln : string) : bool :=
  startswith "+" (strip ln) || startswith "-" (strip ln).

(** The contribution that a line carries under a header: the line starts
    with a sign, the contribution pattern matches it and its percentage
    is a number. *)
Definition contribution_of (ln : string) : option contribution :=
  if is_signed_line ln
  then match re_match pat_contrib ln with
       | Some m2 =>
           match py_float (group m2 2) with
           | Some pct => Some {| ctype := group m2 3;
                                 atoms := split_ws (group m2 4);
                                 weight := fdiv pct hundred |}
           | None => None
           end
       | None => None
       end
  else None.

Fixpoint contributions_of (lines : list string) : list contribution :=
  match lines with
  | [] => []
  | ln :: l =>
      match contribution_of ln with
      | Some c => c :: contributions_of l
      | None => contributions_of l
      end
  end.

(** A contribution line whose percentage [float] rejects. *)
Definition bad_percent (ln : string) : bool :=
  is_signed_line ln
  && match re_match pat_contrib ln with
     | Some m2 => match py_float (group m2 2) with
                  | Some _ => false
                  | None => true
                  end
     | None => false
     end.

(** The mode [m] with the contributions [cs] added after its own. *)
Definition with_more (m : mode_record) (cs : list contribution)
    : mode_record :=
  {| Mode := Mode m; Freq := Freq m; IR := IR m;
     Contrib := (Contrib m ++ cs)%list |}.

(** A mode whose number is not negative, whose frequency and intensity
    are numbers without a minus sign, and whose contributions have
    weights of the same kind. *)
Definition plain_mode (m : mode_record) : Prop :=
  0 <= Mode m
  /\ plain_number (Freq m) = true
  /\ plain_number (IR m) = true
  /\ forall c, List.In c (Contrib m) -> plain_number (weight c) = true.


(** The test that a frequency filter applies to the frequency of a
    row. *)
Definition keeps (g : float -> bool) (r : result_row) : bool :=
  match py_float (row_Freq r) with
  | Some x => g x
  | None => false
  end.

(** The row mentions one of the groups in its top contributions. *)
Definition mentions_any (groups : list string) (r : result_row) : bool :=
  existsb (fun grp => mentions_group grp (row_Top r)) groups.





(* ================================================================= *)
(** * Properties *)

(** ** Strings *)

Lemma str_app_assoc (a b c : string) : (a ++ b) ++ c = a ++ (b ++ c).
Proof. induction a as [|x a IH]; simpl; [reflexivity | now rewrite IH]. Qed.

Lemma str_app_nil_r (a : string) : a ++ "" = a.
Proof. induction a as [|x a IH]; simpl; [reflexivity | now rewrite IH]. Qed.

Lemma str_drop_app (a b : string) : str_drop (String.length a) (a ++ b) = b.
Proof. induction a as [|x a IH]; simpl; auto. Qed.

Lemma str_take_app (a b : string) : str_take (String.length a) (a ++ b) = a.
Proof. induction a as [|x a IH]; simpl; [reflexivity | now rewrite IH]. Qed.

Lemma str_take_drop (n : nat) (s : string) : str_take n s ++ str_drop n s = s.
Proof.
  revert s; induction n as [|n IH]; intros [|c s]; simpl; try reflexivity.
  now rewrite IH.
Qed.

Lemma all_in_app cls (a b : string) :
  all_in cls (a ++ b) = all_in cls a && all_in cls b.
Proof.
  induction a as [|x a IH]; simpl; [reflexivity |].
  rewrite IH. now rewrite andb_assoc.
Qed.

Lemma all_in_take cls (n : nat) (s : string) :
  (n <= span_len cls s)%nat -> all_in cls (str_take n s) = true.
Proof.
  revert s; induction n as [|n IH]; intros [|c s]; simpl; try reflexivity.
  destruct (cls c) eqn:E; simpl; [| lia].
  intros H. apply IH. lia.
Qed.

Lemma all_in_weaken (cls cls' : ascii -> bool) (s : string) :
  (forall c, cls c = true -> cls' c = true) ->
  all_in cls s = true -> all_in cls' s = true.
Proof.
  intros Hc. induction s as [|c s IH]; simpl; [reflexivity |].
  intros [H1 H2]%andb_true_iff. rewrite (Hc _ H1). simpl. auto.
Qed.

(** The longest prefix in a class, when the string is known to be such a
    prefix followed by something that does not start in the class. *)
Lemma span_len_app cls (a b : string) :
  all_in cls a = true -> head_in cls b = false ->
  span_len cls (a ++ b) = String.length a.
Proof.
  induction a as [|x a IH]; simpl.
  - intros _ H. destruct b as [|c b]; simpl in *; [reflexivity | now rewrite H].
  - intros [H1 H2]%andb_true_iff Hb. rewrite H1. f_equal. auto.
Qed.

(** Two ways of cutting a string after a run of a class: the shorter run
    is a prefix of the longest one. *)
Lemma app_split_cls cls (x y a b : string) :
  x ++ y = a ++ b -> all_in cls x = true -> head_in cls y = false ->
  all_in cls a = true ->
  exists x2, x = a ++ x2 /\ b = x2 ++ y.
Proof.
  revert a. induction x as [|c x IH]; intros a; simpl.
  - intros E _ Hy Ha. destruct a as [|d a].
    + exists "". simpl in *. auto.
    + simpl in *. subst y. simpl in Hy.
      apply andb_true_iff in Ha as [Ha _]. congruence.
  - intros E [Hc Hx]%andb_true_iff Hy Ha. destruct a as [|d a].
    + exists (String c x). simpl in *. auto.
    + simpl in *. injection E as -> E.
      apply andb_true_iff in Ha as [_ Ha].
      destruct (IH a E Hx Hy Ha) as (x2 & -> & ->). now exists x2.
Qed.

(* ----------------------------------------------------------------- *)
(** ** The matcher *)

Lemma try_down_eq k cap s lo n :
  try_down k cap s lo n =
  if (n <? lo)%nat then None
  else match k (str_drop n s) with
       | Some r => Some (if cap then str_take n s :: r else r)
       | None => match n with
                 | O => None
                 | S n' => try_down k cap s lo n'
                 end
       end.
Proof. destruct n; reflexivity. Qed.

Lemma try_down_some k cap s lo n r :
  try_down k cap s lo n = Some r ->
  exists i r', (lo <= i <= n)%nat /\ k (str_drop i s) = Some r'
               /\ r = (if cap then str_take i s :: r' else r').
Proof.
  induction n as [|n IH]; rewrite try_down_eq.
  - destruct (0 <? lo)%nat eqn:E; [discriminate |].
    apply Nat.ltb_ge in E.
    destruct (k (str_drop 0 s)) as [r'|] eqn:Ek; [| discriminate].
    intros [= <-]. exists 0%nat, r'. repeat split; auto; lia.
  - destruct (S n <? lo)%nat eqn:E; [discriminate |].
    apply Nat.ltb_ge in E.
    destruct (k (str_drop (S n) s)) as [r'|] eqn:Ek.
    + intros [= <-]. exists (S n), r'. repeat split; auto; lia.
    + intros H. destruct (IH H) as (i & r' & Hi & Hk & Hr).
      exists i, r'. repeat split; auto; lia.
Qed.

Lemma try_down_first k cap s lo n r :
  (lo <= n)%nat -> k (str_drop n s) = Some r ->
  try_down k cap s lo n = Some (if cap then str_take n s :: r else r).
Proof.
  intros Hn Hk. rewrite try_down_eq.
  destruct (n <? lo)%nat eqn:E; [apply Nat.ltb_lt in E; lia |].
  now rewrite Hk.
Qed.

(** A greedy repetition that takes the whole run [a] and succeeds at once. *)
Lemma re_match_rep cls q cap p (a b : string) r :
  all_in cls a = true -> head_in cls b = false ->
  (quant_min q <= String.length a)%nat ->
  (q = Opt -> (String.length a <= 1)%nat) ->
  re_match p b = Some r ->
  re_match (Rep cls q cap :: p) (a ++ b) = Some (if cap then a :: r else r).
Proof.
  intros Ha Hb Hmin Hopt Hr. simpl.
  rewrite (span_len_app cls a b Ha Hb).
  assert (quant_max q (String.length a) = String.length a) as ->.
  { destruct q; unfold quant_max; auto. apply Nat.min_r; auto. }
  rewrite (try_down_first _ cap (a ++ b) (quant_min q) (String.length a) r);
    rewrite ?str_drop_app, ?str_take_app; auto.
Qed.

Lemma length_take_span cls (n : nat) (s : string) :
  (n <= span_len cls s)%nat -> String.length (str_take n s) = n.
Proof.
  revert s; induction n as [|n IH]; intros [|c s]; simpl; try lia.
  destruct (cls c); [| lia]. intros H. f_equal. apply IH. lia.
Qed.

Lemma quant_max_le q n : (quant_max q n <= n)%nat.
Proof. destruct q; unfold quant_max; lia. Qed.

(** What a successful repetition has consumed. *)
Lemma re_match_rep_inv cls q cap p (s : string) r :
  re_match (Rep cls q cap :: p) s = Some r ->
  exists a b r', s = a ++ b /\ all_in cls a = true
                 /\ (quant_min q <= String.length a)%nat
                 /\ re_match p b = Some r'
                 /\ r = (if cap then a :: r' else r').
Proof.
  simpl. intros H. apply try_down_some in H as (i & r' & Hi & Hk & Hr).
  pose proof (quant_max_le q (span_len cls s)) as Hq.
  assert (i <= span_len cls s)%nat as Hs by lia.
  exists (str_take i s), (str_drop i s), r'.
  rewrite str_take_drop, (length_take_span cls i s Hs).
  repeat split; auto; [now apply all_in_take | lia].
Qed.

Lemma re_match_rep_plus_nohead cls cap p (s : string) :
  head_in cls s = false -> re_match (Rep cls Plus cap :: p) s = None.
Proof.
  intros H. simpl.
  assert (span_len cls s = 0%nat) as ->.
  { destruct s; simpl in *; [reflexivity | now rewrite H]. }
  reflexivity.
Qed.

Lemma re_match_lit (w : string) p (s : string) :
  re_match (lit w ++ p)%list (w ++ s) = re_match p s.
Proof.
  induction w as [|c w IH]; simpl; [reflexivity |].
  now rewrite Ascii.eqb_refl.
Qed.

Lemma re_match_chr c p (s : string) :
  re_match (Chr c :: p) (String c s) = re_match p s.
Proof. simpl. now rewrite Ascii.eqb_refl. Qed.

Lemma re_match_chr_inv c p (s : string) r :
  re_match (Chr c :: p) s = Some r ->
  exists s', s = String c s' /\ re_match p s' = Some r.
Proof.
  simpl. destruct s as [|a s]; [discriminate |].
  destruct (Ascii.eqb_spec a c) as [-> |]; [| discriminate].
  intros H. now exists s.
Qed.

(* ----------------------------------------------------------------- *)
(** ** Character classes *)

Ltac by_cases_on_char c :=
  destruct c as [[] [] [] [] [] [] [] []]; vm_compute; congruence.

Lemma space_not_digit c : is_space c = true -> is_digit c = false.
Proof. by_cases_on_char c. Qed.

Lemma space_not_digit_or_dot c : is_space c = true -> is_digit_or_dot c = false.
Proof. by_cases_on_char c. Qed.

Lemma digit_not_space c : is_digit c = true -> is_space c = false.
Proof. by_cases_on_char c. Qed.

Lemma digit_or_dot_not_space c : is_digit_or_dot c = true -> is_space c = false.
Proof. by_cases_on_char c. Qed.

Lemma digit_is_digit_or_dot c : is_digit c = true -> is_digit_or_dot c = true.
Proof. by_cases_on_char c. Qed.

(** A run of one class followed by a string that does not start in
    another class does not start in that other class, when the two
    classes are disjoint. *)
Lemma head_in_run (cls cls' : ascii -> bool) (x y : string) :
  (forall c, cls c = true -> cls' c = false) ->
  all_in cls x = true -> head_in cls' y = false ->
  head_in cls' (x ++ y) = false.
Proof.
  intros D Hx Hy. destruct x as [|c x]; simpl in *; [assumption |].
  apply andb_true_iff in Hx as [Hc _]. auto.
Qed.

Lemma all_in_app_r cls (a b : string) :
  all_in cls (a ++ b) = true -> all_in cls b = true.
Proof. rewrite all_in_app. now intros [_ H]%andb_true_iff. Qed.

(* ----------------------------------------------------------------- *)
(** ** Lines whose frequency carries a minus sign *)

(** Closes a goal in which [Hm] says that a match succeeds where the
    lemma [lem] says that it fails. *)
Ltac refute_match Hm lem :=
  match type of Hm with
  | ?t = Some _ =>
      let X := fresh in
      assert (t = None) as X by (apply lem; auto); congruence
  end.

(** After the colon, optional blanks and a minus sign: the rest of either
    pattern, which asks for a digit or a dot there, does not match. *)
Lemma minus_after_colon p cap (ws' rest : string) :
  all_in is_space ws' = true ->
  re_match (Rep is_space Star false :: Rep is_digit_or_dot Plus cap :: p)
    (ws' ++ "-" ++ rest) = None.
Proof.
  intros Hws'.
  destruct (re_match _ _) as [r|] eqn:E; [exfalso | reflexivity].
  apply re_match_rep_inv in E as (a & b & r' & E & Ha & _ & Hm & _).
  apply (app_split_cls is_space) in E as (w2 & -> & ->); auto.
  rewrite re_match_rep_plus_nohead in Hm; [discriminate |].
  apply (head_in_run is_space); auto using space_not_digit_or_dot.
  now apply all_in_app_r in Hws'.
Qed.

(** The index and its colon, then the minus sign: no match of
    [(\d+):\s*([\d.]+)...]. *)
Lemma minus_after_index p (digits ws' rest : string) :
  all_in is_digit digits = true -> all_in is_space ws' = true ->
  re_match (Rep is_digit Plus true :: Chr ":" :: Rep is_space Star false
            :: Rep is_digit_or_dot Plus true :: p)
    (digits ++ ":" ++ ws' ++ "-" ++ rest) = None.
Proof.
  intros Hd Hws'.
  destruct (re_match _ _) as [r|] eqn:E; [exfalso | reflexivity].
  apply re_match_rep_inv in E as (a & b & r' & E & Ha & _ & Hm & _).
  apply (app_split_cls is_digit) in E as (d2 & -> & ->); auto.
  apply re_match_chr_inv in Hm as (s' & E & Hm).
  destruct d2 as [|c d2]; simpl in E.
  - injection E as <-. refute_match Hm minus_after_colon.
  - injection E as -> _. apply all_in_app_r in Hd. discriminate.
Qed.

Lemma pat_rejects_minus (ws digits ws' rest : string) :
  all_in is_space ws = true -> all_in is_digit digits = true ->
  all_in is_space ws' = true ->
  re_match pat (ws ++ digits ++ ":" ++ ws' ++ "-" ++ rest) = None.
Proof.
  intros Hws Hd Hws'. unfold pat.
  destruct (re_match _ _) as [r|] eqn:E; [exfalso | reflexivity].
  apply re_match_rep_inv in E as (a & b & r' & E & Ha & _ & Hm & _).
  apply (app_split_cls is_space) in E as (w2 & -> & ->); auto.
  2:{ apply (head_in_run is_digit); auto using digit_not_space. }
  apply all_in_app_r in Hws.
  destruct w2 as [|c w2].
  - refute_match Hm minus_after_index.
  - rewrite re_match_rep_plus_nohead in Hm; [discriminate |].
    simpl in *. apply andb_true_iff in Hws as [Hc _].
    now apply space_not_digit.
Qed.

Lemma pat_mode_rejects_minus (ws ws1 digits ws' rest : string) :
  all_in is_space ws = true -> all_in is_space ws1 = true ->
  all_in is_digit digits = true -> all_in is_space ws' = true ->
  re_match pat_mode
    (ws ++ "Mode" ++ ws1 ++ digits ++ ":" ++ ws' ++ "-" ++ rest) = None.
Proof.
  intros Hws Hws1 Hd Hws'. unfold pat_mode.
  destruct (re_match _ _) as [r|] eqn:E; [exfalso | reflexivity].
  apply re_match_rep_inv in E as (a & b & r' & E & Ha & _ & Hm & _).
  apply (app_split_cls is_space) in E as (w2 & -> & ->); auto.
  apply all_in_app_r in Hws.
  destruct w2 as [|c w2].
  - change ("" ++ "Mode" ++ ?t) with ("Mode" ++ t) in Hm.
    rewrite re_match_lit in Hm.
    apply re_match_rep_inv in Hm as (a1 & b1 & r1 & E & Ha1 & _ & Hm & _).
      apply (app_split_cls is_space) in E as (w3 & -> & ->); auto.
    2:{ apply (head_in_run is_digit); auto using digit_not_space. }
    apply all_in_app_r in Hws1.
    destruct w3 as [|c w3].
    + refute_match Hm minus_after_index.
    + rewrite re_match_rep_plus_nohead in Hm; [discriminate |].
      simpl in *. apply andb_true_iff in Hws1 as [Hc _].
      now apply space_not_digit.
  - simpl in Hm, Hws. apply andb_true_iff in Hws as [Hc _].
    destruct (Ascii.eqb_spec c "M") as [-> |]; discriminate.
Qed.

(** C10.  A line whose frequency field, the field after the mode index
    and its colon, carries a leading minus sign is matched neither by the
    record pattern of the extractor nor by the mode-header pattern of
    the merger.  The body of the extractor's loop leaves the mapping as
    it is and raises nothing; the body of the merger's loop emits the
    line as it is, replaces nothing, consumes no record and raises
    nothing. *)
Theorem minus_frequency_is_skipped (ws ws1 digits ws' rest : string) :
  all_in is_space ws = true -> all_in is_space ws1 = true ->
  all_in is_digit digits = true -> all_in is_space ws' = true ->
  let record_line := ws ++ digits ++ ":" ++ ws' ++ "-" ++ rest in
  let header_line :=
    ws ++ "Mode" ++ ws1 ++ digits ++ ":" ++ ws' ++ "-" ++ rest in
  re_match pat record_line = None
  /\ (forall orca, orca_step orca record_line = Ok orca)
  /\ re_match pat_mode header_line = None
  /\ (forall st, merge_step st header_line = Ok (emit st header_line)).
Proof.
  intros Hws Hws1 Hd Hws' record_line header_line.
  pose proof (pat_rejects_minus ws digits ws' rest Hws Hd Hws') as H1.
  pose proof (pat_mode_rejects_minus ws ws1 digits ws' rest
                Hws Hws1 Hd Hws') as H2.
  fold record_line in H1. fold header_line in H2.
  repeat split; auto.
  - intros orca. unfold orca_step. now rewrite H1.
  - intros st. unfold merge_step. now rewrite H2.
Qed.

Lemma minus_frequency_is_skipped_witness :
  re_match pat "   6:   -50.23   0.001234    6.24  0.000320" = None
  /\ (forall orca,
        orca_step orca "   6:   -50.23   0.001234    6.24  0.000320" = Ok orca)
  /\ re_match pat_mode "Mode 6:  -50.23 cm-1 (IR: 0.00)" = None
  /\ (forall st, merge_step st "Mode 6:  -50.23 cm-1 (IR: 0.00)"
                 = Ok (emit st "Mode 6:  -50.23 cm-1 (IR: 0.00)")).
Proof.
  pose proof (minus_frequency_is_skipped "   " " " "6" "   "
                "50.23   0.001234    6.24  0.000320"
                eq_refl eq_refl eq_refl eq_refl) as [H1 [H2 _]].
  pose proof (minus_frequency_is_skipped "" " " "6" "  "
                "50.23 cm-1 (IR: 0.00)"
                eq_refl eq_refl eq_refl eq_refl) as [_ [_ [H3 H4]]].
  exact (conj H1 (conj H2 (conj H3 H4))).
Defined.

(* ----------------------------------------------------------------- *)
(** ** Loops and searches *)

Lemma first_from_none P n i :
  first_from P n i = None <->
  (forall k, (i <= k < i + n)%nat -> P k = false).
Proof.
  revert i. induction n as [|n IH]; intros i; simpl.
  - split; [intros _ k Hk; lia | reflexivity].
  - destruct (P i) eqn:E.
    + split; [discriminate |]. intros H. rewrite H in E; [discriminate | lia].
    + rewrite IH. split; intros H k Hk.
      * destruct (Nat.eq_dec k i) as [-> |]; [assumption | apply H; lia].
      * apply H. lia.
Qed.

Lemma section_start_none lines :
  section_start lines = None <->
  (forall ln, List.In ln lines -> is_label_line ln = false).
Proof.
  unfold section_start. rewrite first_from_none. split.
  - intros H ln Hin. apply (In_nth _ _ EmptyString) in Hin as (k & Hk & <-).
    apply H. lia.
  - intros H k Hk. apply H. apply nth_In. lia.
Qed.

Lemma for_each_app {S A} (body : S -> A -> result S) l1 l2 st :
  for_each body (l1 ++ l2)%list st =
  let* st' := for_each body l1 st in for_each body l2 st'.
Proof.
  revert st. induction l1 as [|a l1 IH]; intros st; simpl; [reflexivity |].
  destruct (body st a); simpl; auto.
Qed.

(* ----------------------------------------------------------------- *)
(** ** The extractor *)

Lemma orca_step_record orca ln :
  orca_step orca ln =
  let* r := record_of ln in
  Ok match r with
     | Some (idx, v) => dict_set idx v orca
     | None => orca
     end.
Proof.
  unfold orca_step, record_of. destruct (re_match pat ln); [| reflexivity].
  destruct (to_int _); simpl; [| reflexivity].
  destruct (to_float _); simpl; [| reflexivity].
  destruct (to_float _); reflexivity.
Qed.

Lemma record_of_raises ln e :
  record_of ln = Raise e ->
  (exists s, e = InvalidFloat s) \/ (exists s, e = InvalidInt s).
Proof.
  unfold record_of, to_int, to_float.
  destruct (re_match pat ln); [| discriminate].
  destruct (py_int _); simpl; [| intros [= <-]; eauto].
  destruct (py_float _); simpl; [| intros [= <-]; eauto].
  destruct (py_float _); simpl; [discriminate | intros [= <-]; eauto].
Qed.

Lemma extract_raises window orca e :
  for_each orca_step window orca = Raise e ->
  (exists s, e = InvalidFloat s) \/ (exists s, e = InvalidInt s).
Proof.
  revert orca. induction window as [|ln w IH]; intros orca; simpl.
  - discriminate.
  - rewrite orca_step_record.
    destruct (record_of ln) as [r|e'] eqn:E; simpl.
    + apply IH.
    + intros [= <-]. eapply record_of_raises; eauto.
Qed.

Lemma extract_no_match window orca :
  (forall ln, List.In ln window -> re_match pat ln = None) ->
  for_each orca_step window orca = Ok orca.
Proof.
  induction window as [|ln w IH]; intros H; simpl; [reflexivity |].
  unfold orca_step at 1. rewrite (H ln) by (now left). simpl.
  apply IH. intros l Hl. apply H. now right.
Qed.

Lemma dict_set_not_nil k v d : dict_set k v d <> [].
Proof. destruct d as [|[k' v'] d]; simpl; [| destruct (k' =? k)]; discriminate. Qed.

(** C3.  The extractor raises [SectionNotFound] exactly when no line,
    once trimmed, starts with the section label.  When the label is
    present and no line of the bounded window matches the record
    pattern, it raises [NoModesFound].  A mapping that it returns is
    never empty. *)
Theorem extractor_failures (lines : list string) :
  (parse_orca_ir lines = Raise SectionNotFound <->
   forall ln, List.In ln lines -> is_label_line ln = false)
  /\ (forall window,
        section_window lines = Some window ->
        (forall ln, List.In ln window -> re_match pat ln = None) ->
        parse_orca_ir lines = Raise NoModesFound)
  /\ (forall orca, parse_orca_ir lines = Ok orca -> orca <> []).
Proof.
  unfold parse_orca_ir, section_window.
  rewrite <- section_start_none.
  destruct (section_start lines) as [start|].
  - split; [split | split].
    + intros H. exfalso.
      destruct (for_each _ _ _) as [orca|e] eqn:E; simpl in H.
      * destruct orca; discriminate.
      * injection H as ->.
        apply extract_raises in E as [[s E]|[s E]]; discriminate.
    + discriminate.
    + intros window [= <-] H.
      rewrite extract_no_match by assumption. reflexivity.
    + intros orca. destruct (for_each _ _ _) as [[|r o]|e]; simpl;
        [discriminate | intros [= <-]; discriminate | discriminate].
  - split; [split | split]; try reflexivity; discriminate.
Qed.

Lemma extractor_failures_witness :
  parse_orca_ir ["no label here"; "1: 100.0 cm**-1 5.0"] = Raise SectionNotFound
  /\ parse_orca_ir ["IR SPECTRUM"; "Mode freq"; ""; "next block"]
     = Raise NoModesFound
  /\ (exists orca,
        parse_orca_ir ["IR SPECTRUM"; " 6: 1234.56 0.001 6.24"] = Ok orca
        /\ orca <> []).
Proof.
  split; [| split].
  - apply (proj1 (extractor_failures _)).
    intros ln [<- | [<- | []]]; reflexivity.
  - apply (proj1 (proj2 (extractor_failures _))
             ["IR SPECTRUM"; "Mode freq"]); [reflexivity |].
    intros ln [<- | [<- | []]]; reflexivity.
  - eexists. split; [vm_compute; reflexivity |].
    apply (proj2 (proj2 (extractor_failures
                           ["IR SPECTRUM"; " 6: 1234.56 0.001 6.24"]))).
    vm_compute. reflexivity.
Defined.

(* ----------------------------------------------------------------- *)
(** ** The mapping that the extractor builds *)

Lemma dict_keys_set k v d k' :
  List.In k' (dict_keys (dict_set k v d)) <-> k' = k \/ List.In k' (dict_keys d).
Proof.
  unfold dict_keys. induction d as [|[k0 v0] d IH]; simpl.
  - intuition.
  - destruct (Z.eqb_spec k0 k) as [-> |]; simpl; intuition.
Qed.

Lemma dict_set_NoDup k v d :
  List.NoDup (dict_keys d) -> List.NoDup (dict_keys (dict_set k v d)).
Proof.
  unfold dict_keys. induction d as [|[k0 v0] d IH]; simpl; intros H.
  - constructor; [intros [] | constructor].
  - inversion H as [|? ? Hn Hd]; subst.
    destruct (Z.eqb_spec k0 k) as [-> |]; simpl.
    + now constructor.
    + constructor; [| now apply IH].
      intros Hin. apply (dict_keys_set k v d k0) in Hin as [-> | Hin]; auto.
Qed.

Lemma dict_set_fresh k v d :
  ~ List.In k (dict_keys d) -> dict_set k v d = (d ++ [(k, v)])%list.
Proof.
  unfold dict_keys. induction d as [|[k0 v0] d IH]; simpl; intros H.
  - reflexivity.
  - destruct (Z.eqb_spec k0 k) as [-> |]; [tauto |].
    rewrite IH; [reflexivity | tauto].
Qed.

Lemma dict_get_set k v d k' :
  dict_get k' (dict_set k v d) =
  if Z.eqb k k' then Some v else dict_get k' d.
Proof.
  induction d as [|[k0 v0] d IH]; simpl.
  - reflexivity.
  - destruct (Z.eqb_spec k0 k) as [-> |]; simpl.
    + destruct (Z.eqb_spec k k'); reflexivity.
    + destruct (Z.eqb_spec k0 k') as [-> |].
      * destruct (Z.eqb_spec k k'); [congruence | reflexivity].
      * apply IH.
Qed.

Lemma dict_update_keys rs d k :
  List.In k (dict_keys (dict_update d rs)) <->
  List.In k (dict_keys d) \/ List.In k (map fst rs).
Proof.
  unfold dict_update. revert d. induction rs as [|[k0 v0] rs IH]; intros d; simpl.
  - intuition.
  - rewrite IH, dict_keys_set. intuition.
Qed.

Lemma dict_update_NoDup rs d :
  List.NoDup (dict_keys d) -> List.NoDup (dict_keys (dict_update d rs)).
Proof.
  unfold dict_update. revert d. induction rs as [|r rs IH]; intros d H; simpl.
  - assumption.
  - apply IH. now apply dict_set_NoDup.
Qed.

Lemma dict_update_fresh rs d :
  List.NoDup (dict_keys d ++ map fst rs)%list ->
  dict_update d rs = (d ++ rs)%list.
Proof.
  unfold dict_update. revert d.
  induction rs as [|[k v] rs IH]; intros d H; simpl.
  - now rewrite app_nil_r.
  - assert (~ List.In k (dict_keys d)) as Hk.
    { intros Hin. apply NoDup_remove_2 in H. apply H.
      apply in_or_app. now left. }
    rewrite (dict_set_fresh k v d Hk), IH.
    + now rewrite <- app_assoc.
    + unfold dict_keys in *. rewrite map_app. simpl.
      rewrite <- app_assoc. exact H.
Qed.

Lemma last_record_from k rs (o : option spectrum) :
  fold_left (fun acc r => if Z.eqb (fst r) k then Some (snd r) else acc) rs o
  = match last_record k rs with
    | Some v => Some v
    | None => o
    end.
Proof.
  unfold last_record. revert o.
  induction rs as [|[k0 v0] rs IH]; intros o; simpl; [reflexivity |].
  destruct (Z.eqb_spec k0 k).
  - rewrite (IH (Some v0)).
    destruct (fold_left _ rs None); reflexivity.
  - rewrite (IH o), (IH None). reflexivity.
Qed.

Lemma dict_update_get rs d k :
  dict_get k (dict_update d rs) =
  match last_record k rs with
  | Some v => Some v
  | None => dict_get k d
  end.
Proof.
  rewrite <- last_record_from. unfold dict_update. revert d.
  induction rs as [|[k0 v0] rs IH]; intros d; simpl; [reflexivity |].
  now rewrite IH, dict_get_set.
Qed.

Lemma extract_records window orca :
  (forall ln, List.In ln window -> readable ln = true) ->
  for_each orca_step window orca = Ok (dict_update orca (records_of window)).
Proof.
  unfold dict_update. revert orca.
  induction window as [|ln w IH]; intros orca H; simpl; [reflexivity |].
  rewrite orca_step_record.
  pose proof (H ln (or_introl eq_refl)) as Hr. unfold readable in Hr.
  destruct (record_of ln) as [[[idx v]|]|e]; simpl; try discriminate;
    apply IH; intros l Hl; apply H; now right.
Qed.

Lemma records_of_count window :
  length (records_of window) = length (List.filter is_spectrum_line window).
Proof.
  induction window as [|ln w IH]; simpl; [reflexivity |].
  unfold is_spectrum_line.
  destruct (record_of ln) as [[r|]|e]; simpl; auto.
Qed.

(** C5, as the code has it.  Take an input in which the label is found,
    no line of the bounded window matches the record pattern with a
    numeral that [int] or [float] rejects (a mode index of more digits
    than [int] converts, a frequency or an intensity that is not a
    number; see [unreadable_iff]), and the window holds [K >= 1]
    well-formed spectrum lines.  The extractor returns a mapping whose
    keys are pairwise distinct and are exactly the mode indices parsed
    from those lines; each index is mapped to the values of the last line
    that carries it.  When the [K] parsed indices are pairwise distinct
    the mapping is the sequence of the [K] parsed records, in the order
    of their lines, hence has exactly [K] entries. *)
Theorem extractor_keyed_by_index (lines window : list string) :
  section_window lines = Some window ->
  (forall ln, List.In ln window -> readable ln = true) ->
  records_of window <> [] ->
  exists orca,
    parse_orca_ir lines = Ok orca
    /\ List.NoDup (dict_keys orca)
    /\ (forall k, List.In k (dict_keys orca)
                  <-> List.In k (map fst (records_of window)))
    /\ (forall k, dict_get k orca = last_record k (records_of window))
    /\ (List.NoDup (map fst (records_of window)) ->
        orca = records_of window
        /\ length orca = length (List.filter is_spectrum_line window)).
Proof.
  unfold section_window, parse_orca_ir.
  destruct (section_start lines) as [start|]; [| discriminate].
  intros [= <-] Hr Hne.
  set (window := slice start (section_end lines start) lines) in *.
  rewrite (extract_records window [] Hr). simpl.
  exists (dict_update [] (records_of window)).
  split; [| split; [| split; [| split]]].
  - destruct (dict_update [] (records_of window)) eqn:E; [| reflexivity].
    exfalso. destruct (records_of window) as [|[k v] rs]; [congruence |].
    assert (List.In k (dict_keys (dict_update [] ((k, v) :: rs)))) as Hin.
    { apply dict_update_keys. right. now left. }
    rewrite E in Hin. exact Hin.
  - apply dict_update_NoDup. constructor.
  - intros k. rewrite dict_update_keys. simpl. tauto.
  - intros k. rewrite dict_update_get. simpl.
    destruct (last_record k (records_of window)); reflexivity.
  - intros Hnd. rewrite dict_update_fresh by exact Hnd.
    split; [reflexivity | apply records_of_count].
Qed.

Lemma extractor_keyed_by_index_witness :
  exists orca,
    parse_orca_ir ["IR SPECTRUM"; " 6: 100.0 x 5.0"; "text"; " 7: 200.0 x 6.0"]
    = Ok orca
    /\ dict_keys orca = [6; 7] /\ length orca = 2%nat.
Proof.
  destruct (extractor_keyed_by_index
              ["IR SPECTRUM"; " 6: 100.0 x 5.0"; "text"; " 7: 200.0 x 6.0"]
              ["IR SPECTRUM"; " 6: 100.0 x 5.0"; "text"; " 7: 200.0 x 6.0"])
    as (orca & E & _ & _ & _ & H).
  - reflexivity.
  - intros ln [<- | [<- | [<- | [<- | []]]]]; reflexivity.
  - discriminate.
  - exists orca. split; [exact E |].
    destruct H as [-> H].
    + vm_compute. repeat constructor; intros H;
        repeat (destruct H as [H | H]; [discriminate |]); exact H.
    + split; reflexivity.
Defined.

(** C5, as the specification states it, fails: two well-formed spectrum
    lines that carry the same mode index leave one entry in the mapping,
    the second line's. *)
Lemma extractor_count_counterexample :
  let lines := ["IR SPECTRUM"; "1: 100.0 cm 5.0"; "1: 200.0 cm 6.0"] in
  section_window lines = Some lines
  /\ length (List.filter is_spectrum_line lines) = 2%nat
  /\ exists orca, parse_orca_ir lines = Ok orca /\ length orca = 1%nat
                  /\ option_map fmt2 (option_map freq (dict_get 1 orca))
                     = Some "200.00".
Proof.
  repeat split; try reflexivity.
  eexists. repeat split; vm_compute; reflexivity.
Qed.

(* ----------------------------------------------------------------- *)
(** ** The merger *)

Lemma merge_step_header st ln :
  merge_step st ln =
  let* h := parse_header ln in
  match h with
  | Some (vm_mode, f) =>
      match find_match (remaining_orca_modes st) f with
      | Some match_key =>
          match dict_get match_key (remaining_orca_modes st) with
          | Some v =>
              Ok {| out := (out st ++ [new_line vm_mode f (ir v)])%list;
                    replacements_made := S (replacements_made st);
                    remaining_orca_modes :=
                      dict_del match_key (remaining_orca_modes st) |}
          | None => Raise (KeyError match_key)
          end
      | None => Ok (emit st ln)
      end
  | None => Ok (emit st ln)
  end.
Proof.
  unfold merge_step, parse_header. destruct (re_match pat_mode ln); [| reflexivity].
  destruct (to_int _); simpl; [| reflexivity].
  destruct (to_float _); reflexivity.
Qed.

(** The scan stops at the first record within tolerance. *)
Lemma find_match_first r1 k v r2 f :
  (forall kv, List.In kv r1 -> near f kv = false) ->
  within_tolerance (freq v) f = true ->
  find_match (r1 ++ (k, v) :: r2)%list f = Some k.
Proof.
  unfold near. induction r1 as [|[k0 v0] r1 IH]; simpl; intros H Hv.
  - now rewrite Hv.
  - pose proof (H (k0, v0) (or_introl eq_refl)) as E. simpl in E.
    rewrite E. apply IH; auto.
Qed.

Lemma find_match_some d f k :
  find_match d f = Some k ->
  exists r1 v r2, d = (r1 ++ (k, v) :: r2)%list
                  /\ (forall kv, List.In kv r1 -> near f kv = false)
                  /\ within_tolerance (freq v) f = true.
Proof.
  unfold near. induction d as [|[k0 v0] d IH]; simpl; [discriminate |].
  destruct (within_tolerance (freq v0) f) eqn:E.
  - intros [= <-]. exists [], v0, d. repeat split; auto. intros kv [].
  - intros H. destruct (IH H) as (r1 & v & r2 & -> & H1 & H2).
    exists ((k0, v0) :: r1), v, r2. repeat split; auto.
    intros kv [<- | Hin]; auto.
Qed.

Lemma dict_get_middle r1 k v r2 :
  ~ List.In k (dict_keys r1) ->
  dict_get k (r1 ++ (k, v) :: r2)%list = Some v.
Proof.
  unfold dict_keys. induction r1 as [|[k0 v0] r1 IH]; simpl; intros H.
  - now rewrite Z.eqb_refl.
  - destruct (Z.eqb_spec k0 k) as [-> |]; [tauto |]. apply IH. tauto.
Qed.

Lemma dict_del_middle r1 k v r2 :
  ~ List.In k (dict_keys r1) ->
  dict_del k (r1 ++ (k, v) :: r2)%list = (r1 ++ r2)%list.
Proof.
  unfold dict_keys. induction r1 as [|[k0 v0] r1 IH]; simpl; intros H.
  - now rewrite Z.eqb_refl.
  - destruct (Z.eqb_spec k0 k) as [-> |]; [tauto |]. rewrite IH; tauto.
Qed.

Lemma NoDup_keys_middle r1 k (v : spectrum) r2 :
  List.NoDup (dict_keys (r1 ++ (k, v) :: r2)%list) ->
  ~ List.In k (dict_keys r1) /\ List.NoDup (dict_keys (r1 ++ r2)%list).
Proof.
  unfold dict_keys. rewrite !map_app. simpl. intros H. split.
  - intros Hin. apply NoDup_remove_2 in H. apply H. apply in_or_app. now left.
  - now apply NoDup_remove_1 in H.
Qed.

(** A header within tolerance of a remaining record: the first such
    record in the scan order of the remaining set is the one matched, its
    intensity is written and it is removed. *)
Lemma merge_step_match st ln vm f r1 k v r2 :
  parse_header ln = Ok (Some (vm, f)) ->
  remaining_orca_modes st = (r1 ++ (k, v) :: r2)%list ->
  List.NoDup (dict_keys (remaining_orca_modes st)) ->
  (forall kv, List.In kv r1 -> near f kv = false) ->
  within_tolerance (freq v) f = true ->
  merge_step st ln =
  Ok {| out := (out st ++ [new_line vm f (ir v)])%list;
        replacements_made := S (replacements_made st);
        remaining_orca_modes := (r1 ++ r2)%list |}.
Proof.
  intros Hh Hr Hnd H1 Hv. rewrite merge_step_header, Hh. simpl.
  rewrite Hr in *. apply NoDup_keys_middle in Hnd as [Hk _].
  rewrite (find_match_first r1 k v r2 f H1 Hv).
  now rewrite dict_get_middle, dict_del_middle.
Qed.

(** A line that raises nothing and is no header within tolerance of a
    remaining record is emitted as it is. *)
Lemma merge_step_pass st ln :
  mergeable ln = true ->
  (forall vm f, parse_header ln = Ok (Some (vm, f)) ->
                find_match (remaining_orca_modes st) f = None) ->
  merge_step st ln = Ok (emit st ln).
Proof.
  unfold mergeable. intros Hm H. rewrite merge_step_header.
  destruct (parse_header ln) as [[[vm f]|]|e]; simpl;
    [| reflexivity | discriminate].
  now rewrite (H vm f eq_refl).
Qed.

Lemma merge_loop_pass l st :
  (forall ln, List.In ln l -> mergeable ln = true) ->
  (forall ln vm f, List.In ln l -> parse_header ln = Ok (Some (vm, f)) ->
                   find_match (remaining_orca_modes st) f = None) ->
  for_each merge_step l st =
  Ok {| out := (out st ++ l)%list;
        replacements_made := replacements_made st;
        remaining_orca_modes := remaining_orca_modes st |}.
Proof.
  revert st. induction l as [|ln l IH]; intros st Hm H; simpl.
  - rewrite app_nil_r. now destruct st.
  - rewrite merge_step_pass; simpl.
    + rewrite IH; simpl.
      * now rewrite <- app_assoc.
      * intros l' Hl. apply Hm. now right.
      * intros l' vm f Hl. apply H. now right.
    + apply Hm. now left.
    + intros vm f. apply H. now left.
Qed.


Lemma emitted_as_incl d d' ln ln' :
  incl d d' -> emitted_as d ln ln' -> emitted_as d' ln ln'.
Proof.
  intros Hi [-> | (vm & f & k & v & H1 & H2 & H3 & H4)]; [now left | right].
  exists vm, f, k, v. auto.
Qed.

(** One turn of the loop on a line that raises no [ValueError]: one line
    is emitted, related to the line read by [emitted_as]; a replacement
    consumes exactly one remaining record. *)
Lemma merge_step_total st ln :
  List.NoDup (dict_keys (remaining_orca_modes st)) ->
  mergeable ln = true ->
  exists st' ln',
    merge_step st ln = Ok st'
    /\ out st' = (out st ++ [ln'])%list
    /\ emitted_as (remaining_orca_modes st) ln ln'
    /\ List.NoDup (dict_keys (remaining_orca_modes st'))
    /\ incl (remaining_orca_modes st') (remaining_orca_modes st)
    /\ (replacements_made st' + length (remaining_orca_modes st')
        = replacements_made st + length (remaining_orca_modes st))%nat.
Proof.
  intros Hnd Hm. unfold mergeable in Hm. rewrite merge_step_header.
  destruct (parse_header ln) as [[[vm f]|]|e] eqn:Hh; simpl;
    [| | discriminate].
  - destruct (find_match (remaining_orca_modes st) f) as [k|] eqn:Hf.
    + apply find_match_some in Hf as (r1 & v & r2 & Hr & H1 & Hv).
      rewrite Hr in *. pose proof (NoDup_keys_middle _ _ _ _ Hnd) as [Hk Hnd'].
      rewrite dict_get_middle, dict_del_middle by assumption.
      eexists _, _. split; [reflexivity |]. simpl.
      split; [reflexivity |]. split; [| split; [exact Hnd' | split]].
      * right. exists vm, f, k, v. repeat split; auto.
        apply in_or_app. right. now left.
      * intros x Hx. apply in_app_or in Hx as [Hx | Hx];
          apply in_or_app; [now left | right; now right].
      * rewrite !length_app. simpl. lia.
    + exists (emit st ln), ln. simpl. repeat split; auto.
      * now left.
      * apply incl_refl.
  - exists (emit st ln), ln. simpl. repeat split; auto.
    + now left.
    + apply incl_refl.
Qed.

Lemma merge_loop_total lines st :
  List.NoDup (dict_keys (remaining_orca_modes st)) ->
  (forall ln, List.In ln lines -> mergeable ln = true) ->
  exists st' outs,
    for_each merge_step lines st = Ok st'
    /\ out st' = (out st ++ outs)%list
    /\ Forall2 (emitted_as (remaining_orca_modes st)) lines outs
    /\ List.NoDup (dict_keys (remaining_orca_modes st'))
    /\ incl (remaining_orca_modes st') (remaining_orca_modes st)
    /\ (replacements_made st' + length (remaining_orca_modes st')
        = replacements_made st + length (remaining_orca_modes st))%nat.
Proof.
  revert st. induction lines as [|ln lines IH]; intros st Hnd Hm; simpl.
  - exists st, []. rewrite app_nil_r.
    split; [reflexivity |]. split; [reflexivity |].
    split; [constructor |]. split; [assumption |].
    split; [apply incl_refl | reflexivity].
  - destruct (merge_step_total st ln Hnd (Hm ln (or_introl eq_refl)))
      as (st1 & ln' & E & Ho & He & Hnd1 & Hi & Hc).
    rewrite E. simpl.
    destruct (IH st1 Hnd1) as (st' & outs & E' & Ho' & He' & Hnd' & Hi' & Hc').
    { intros l Hl. apply Hm. now right. }
    exists st', (ln' :: outs). split; [exact E' |].
    split; [rewrite Ho', Ho, <- app_assoc; reflexivity |].
    split; [| split; [exact Hnd' | split]].
    + constructor; [exact He |].
      eapply Forall2_impl; [exact He' |].
      intros a b. now apply emitted_as_incl.
    + eapply incl_tran; eauto.
    + lia.
Qed.

Lemma find_match_none d f :
  find_match d f = None <-> (forall kv, List.In kv d -> near f kv = false).
Proof.
  unfold near. induction d as [|[k v] d IH]; simpl.
  - split; [intros _ kv [] | reflexivity].
  - destruct (within_tolerance (freq v) f) eqn:E.
    + split; [discriminate |]. intros H.
      specialize (H (k, v) (or_introl eq_refl)). simpl in H. congruence.
    + rewrite IH. split.
      * intros H kv [<- | Hin]; [exact E | now apply H].
      * intros H kv Hin. apply H. now right.
Qed.







(** C9, as the code has it.  Take an input in which no line matches the
    mode-header pattern with a numeral that [int] or [float] rejects: a
    mode number of more digits than [int] converts, a frequency that is
    not a number (see [unmergeable_iff]).  The
    merger returns, and its output has one line per input line, in the
    same order: every line that does not match the mode-header pattern
    is emitted as it is at the same position, and a line that differs
    from the line read at its position stands for a header whose
    frequency is within tolerance of a record of the mapping, with that
    record's intensity. *)
Theorem merger_line_for_line (lines : list string) (orca : orca_dict) :
  List.NoDup (dict_keys orca) ->
  (forall ln, List.In ln lines -> mergeable ln = true) ->
  exists st,
    replace_vmard_ir lines orca = Ok st
    /\ length (out st) = length lines
    /\ Forall2 (emitted_as orca) lines (out st)
    /\ (forall i ln, nth_error lines i = Some ln ->
                     parse_header ln = Ok None ->
                     nth_error (out st) i = Some ln).
Proof.
  intros Hnd Hm. unfold replace_vmard_ir.
  destruct (merge_loop_total lines
              {| out := []; replacements_made := 0;
                 remaining_orca_modes := orca |} Hnd Hm)
    as (st & outs & E & Ho & He & _).
  simpl in Ho, He. subst outs. exists st.
  split; [exact E |]. split; [| split; [exact He |]].
  - symmetry. eapply Forall2_length; eauto.
  - clear E. induction He as [|ln ln' ls ls' H He IH]; intros i l Hi Hh.
    + destruct i; discriminate.
    + destruct i as [|i]; simpl in *.
      * injection Hi as ->.
        destruct H as [-> | (vm & f & k & v & H & _)]; [reflexivity | congruence].
      * eapply IH; eauto.
Qed.

Lemma merger_line_for_line_witness :
  exists st,
    replace_vmard_ir
      ["title"; "Mode 7: 100.01 cm-1 (IR: 0.0)"; "Mode 8: 300.0 cm-1 (IR: 0.0)"]
      [(1, {| freq := S754_finite false 7036874417766400 (-46);
              ir := S754_finite false 5629499534213120 (-50) |})] = Ok st
    /\ length (out st) = 3%nat
    /\ nth_error (out st) 0 = Some "title".
Proof.
  destruct (merger_line_for_line
      ["title"; "Mode 7: 100.01 cm-1 (IR: 0.0)"; "Mode 8: 300.0 cm-1 (IR: 0.0)"]
      [(1, {| freq := S754_finite false 7036874417766400 (-46);
              ir := S754_finite false 5629499534213120 (-50) |})])
    as (st & E & Hl & _ & Hn).
  - repeat constructor. intros [].
  - intros ln [<- | [<- | [<- | []]]]; reflexivity.
  - exists st. split; [exact E |]. split; [exact Hl |].
    apply Hn; reflexivity.
Defined.

(** C9, as the specification states it, fails: a line that matches the
    mode-header pattern with the frequency field [1.2.3] makes [float]
    raise, and the merger returns no output at all. *)
Lemma merger_raises_counterexample :
  let orca := [(1, {| freq := S754_finite false 7036874417766400 (-46);
                      ir := S754_finite false 5629499534213120 (-50) |})] in
  re_match pat_mode "Mode 1: 1.2.3 cm-1 (IR: 0.0)" = Some ["1"; "1.2.3"; "0.0"]
  /\ replace_vmard_ir ["title"; "Mode 1: 1.2.3 cm-1 (IR: 0.0)"] orca
     = Raise (InvalidFloat "1.2.3")
  /\ ~ (exists st,
          replace_vmard_ir ["title"; "Mode 1: 1.2.3 cm-1 (IR: 0.0)"] orca
          = Ok st).
Proof.
  split; [reflexivity | split; [reflexivity |]].
  intros [st H]. discriminate H.
Qed.

(* ----------------------------------------------------------------- *)
(** ** The counters of the aggregator *)

Lemma count_key_upper c : count_key c = upper (ctype c).
Proof.
  unfold count_key. destruct (String.eqb_spec (upper (ctype c)) "TORSION");
    congruence.
Qed.

Lemma cnt_init_zero key : cnt_get cnt_init key = 0.
Proof.
  unfold cnt_get, cnt_init. rewrite !lookup_insert.
  repeat case_decide; reflexivity.
Qed.

Lemma cnt_get_step cnt c key :
  cnt_get (count_step cnt c) key =
  cnt_get cnt key + (if String.eqb (upper (ctype c)) key then 1 else 0).
Proof.
  unfold cnt_get, count_step. rewrite count_key_upper, lookup_insert.
  case_decide as E.
  - subst key. rewrite String.eqb_refl. reflexivity.
  - apply String.eqb_neq in E. rewrite E. lia.
Qed.

Lemma cnt_get_fold contribs cnt key :
  cnt_get (fold_left count_step contribs cnt) key =
  cnt_get cnt key + count_of key contribs.
Proof.
  unfold count_of. revert cnt.
  induction contribs as [|c l IH]; intros cnt; simpl; [lia |].
  rewrite IH, cnt_get_step.
  destruct (String.eqb (upper (ctype c)) key); simpl length; lia.
Qed.

(** C2, as the code has it.  Every type token is put in upper case
    before it is counted.
    - The count read for a key, the four canonical ones among them, is
      the number of contributions whose token in upper case is that key:
      every case variant of TORSION is counted in the TORSION bucket,
      and every case variant of BOND, ANGLE and OUT in theirs.
    - A contribution increments the bucket of its token in upper case,
      from zero when the bucket is new, and no other bucket: when that
      token in upper case is none of the four canonical keys, the four
      canonical buckets are left as they are. *)
Theorem counts_by_upper_case_type :
  (forall contribs key,
     cnt_get (count_types contribs) key = count_of key contribs)
  /\ (forall topn m,
        row_BOND (make_row topn m) = count_of "BOND" (Contrib m)
        /\ row_ANGLE (make_row topn m) = count_of "ANGLE" (Contrib m)
        /\ row_OUT (make_row topn m) = count_of "OUT" (Contrib m)
        /\ row_TORSION (make_row topn m) = count_of "TORSION" (Contrib m))
  /\ (forall cnt c,
        count_step cnt c !! upper (ctype c)
        = Some (default 0 (cnt !! upper (ctype c)) + 1))
  /\ (forall cnt c key,
        key <> upper (ctype c) -> count_step cnt c !! key = cnt !! key)
  /\ (forall cnt c key,
        ~ canonical (upper (ctype c)) -> canonical key ->
        count_step cnt c !! key = cnt !! key).
Proof.
  assert (forall contribs key,
            cnt_get (count_types contribs) key = count_of key contribs) as A.
  { intros contribs key. unfold count_types.
    rewrite cnt_get_fold, cnt_init_zero. lia. }
  assert (forall cnt c key,
            key <> upper (ctype c) -> count_step cnt c !! key = cnt !! key) as B.
  { intros cnt c key H. unfold count_step. rewrite count_key_upper.
    apply lookup_insert_ne. congruence. }
  split; [exact A | split; [| split; [| split; [exact B |]]]].
  - intros topn m. unfold make_row. simpl. rewrite !A. auto.
  - intros cnt c. unfold count_step. rewrite count_key_upper.
    apply lookup_insert_eq.
  - intros cnt c key Hn Hk. apply B. intros ->. contradiction.
Qed.

Lemma counts_by_upper_case_type_witness :
  let c := {| ctype := "Wag"; atoms := ["C1"; "H2"];
              weight := S754_zero false |} in
  count_step cnt_init c !! "BOND" = Some 0
  /\ count_step cnt_init c !! "TORSION" = cnt_init !! "TORSION"
  /\ count_step cnt_init c !! "WAG" = Some 1.
Proof.
  intros c.
  destruct counts_by_upper_case_type as (_ & _ & A & B & C).
  split; [| split].
  - rewrite (B cnt_init c "BOND"); [reflexivity | discriminate].
  - apply (C cnt_init c "TORSION").
    + intros [H | [H | [H | H]]]; discriminate H.
    + right. right. right. reflexivity.
  - exact (A cnt_init c).
Defined.

(** C2, as the specification states it, fails: the token [bond] is not
    exactly one of BOND, ANGLE, OUT, TORSION, and yet it increments the
    canonical BOND bucket. *)
Lemma lower_case_bond_counterexample :
  let c := {| ctype := "bond"; atoms := ["C1"; "H2"];
              weight := S754_zero false |} in
  let m := {| Mode := 1; Freq := S754_zero false; IR := S754_zero false;
              Contrib := [c] |} in
  ctype c <> "BOND" /\ ctype c <> "ANGLE" /\ ctype c <> "OUT"
  /\ ctype c <> "TORSION"
  /\ cnt_init !! "BOND" = Some 0
  /\ count_step cnt_init c !! "BOND" = Some 1
  /\ row_BOND (make_row 2 m) = 1.
Proof.
  repeat split; try discriminate; vm_compute; reflexivity.
Qed.

(* ----------------------------------------------------------------- *)
(** ** The order of floating-point numbers *)

Ltac cases_on_compare :=
  repeat match goal with
    | H : context [Z.compare ?x ?y] |- _ => destruct (Z.compare_spec x y)
    | |- context [Z.compare ?x ?y] => destruct (Z.compare_spec x y)
    | H : context [Pos.compare ?x ?y] |- _ => destruct (Pos.compare_spec x y)
    | |- context [Pos.compare ?x ?y] => destruct (Pos.compare_spec x y)
    end.

Ltac by_cases_on_floats :=
  unfold feqb, fltb, SFeqb, SFltb, SFcompare;
  repeat match goal with
    | x : float |- _ => destruct x as [[]|[]| |[] ? ?]
    end;
  simpl; intros; try reflexivity; try discriminate;
  change (Pos.compare_cont Eq) with Pos.compare in *;
  cases_on_compare; simpl in *; subst;
  try reflexivity; try discriminate; try lia.

(** Two numbers equal to a third one are not smaller than each other. *)
Lemma feqb_not_lt (a b w : float) :
  feqb a w = true -> feqb b w = true -> fltb b a = false.
Proof. by_cases_on_floats. Qed.

(** On numbers that are not NaN, not being smaller is transitive. *)
Lemma fge_trans (a b c : float) :
  is_nan a = false -> is_nan b = false -> is_nan c = false ->
  fltb a b = false -> fltb b c = false -> fltb a c = false.
Proof. by_cases_on_floats. Qed.

Lemma flt_asym (a b : float) : fltb a b = true -> fltb b a = false.
Proof. by_cases_on_floats. Qed.

(* ----------------------------------------------------------------- *)
(** ** The stable sort *)

Section Sorting.
Context {A : Type}.
Variable lt : A -> A -> bool.

Lemma insert_by_perm x l : Permutation (insert_by lt x l) (x :: l).
Proof.
  induction l as [|y l IH]; simpl; [reflexivity |].
  destruct (lt y x); [| reflexivity].
  rewrite IH. apply perm_swap.
Qed.

Lemma sort_by_perm l : Permutation (sort_by lt l) l.
Proof.
  induction l as [|x l IH]; simpl; [reflexivity |].
  rewrite insert_by_perm. now constructor.
Qed.

(** Stability: the elements of a class [P] whose members are never
    smaller than one another keep their order. *)
Section Stable.
Variable P : A -> bool.
Hypothesis P_class : forall x y, P x = true -> P y = true -> lt y x = false.

Lemma insert_by_stable x l :
  List.filter P (insert_by lt x l) = List.filter P (x :: l).
Proof using P_class.
  induction l as [|y l IH]; simpl; [reflexivity |].
  destruct (lt y x) eqn:E; [| reflexivity].
  simpl. rewrite IH. simpl.
  destruct (P x) eqn:Px, (P y) eqn:Py; try reflexivity.
  rewrite (P_class x y Px Py) in E. discriminate.
Qed.

Lemma sort_by_stable l : List.filter P (sort_by lt l) = List.filter P l.
Proof using P_class.
  induction l as [|x l IH]; simpl; [reflexivity |].
  rewrite insert_by_stable. simpl. now rewrite IH.
Qed.
End Stable.

(** Order: on a domain [Q] where not being smaller is transitive, the
    result is sorted. *)
Section Sorted.
Variable Q : A -> Prop.
Hypothesis lt_asym : forall x y, lt x y = true -> lt y x = false.
Hypothesis ge_trans : forall x y z, Q x -> Q y -> Q z ->
  lt x y = false -> lt y z = false -> lt x z = false.

Lemma insert_by_sorted x l :
  Q x -> Forall Q l ->
  StronglySorted (fun a b => lt b a = false) l ->
  StronglySorted (fun a b => lt b a = false) (insert_by lt x l).
Proof using lt_asym ge_trans.
  intros Qx Ql Hs. induction Hs as [|y l Hs IH Hy]; simpl.
  - repeat constructor.
  - inversion Ql as [|? ? Qy Ql']; subst.
    destruct (lt y x) eqn:E.
    + constructor; [now apply IH |].
      apply List.Forall_forall. intros z Hz.
      apply (Permutation_in _ (insert_by_perm x l)) in Hz as [<- | Hz].
      * now apply lt_asym.
      * rewrite List.Forall_forall in Hy. now apply Hy.
    + constructor; [now constructor |].
      constructor; [exact E |].
      rewrite List.Forall_forall in *. intros z Hz.
      apply (ge_trans z y x); auto.
Qed.

Lemma sort_by_sorted l :
  Forall Q l -> StronglySorted (fun a b => lt b a = false) (sort_by lt l).
Proof using lt_asym ge_trans.
  induction l as [|x l IH]; simpl; intros Ql; [constructor |].
  inversion Ql; subst. apply insert_by_sorted; auto.
  eapply Permutation_Forall; [| eassumption].
  symmetry. apply sort_by_perm.
Qed.
End Sorted.
End Sorting.

Lemma StronglySorted_snoc {A} (R : A -> A -> Prop) l x :
  StronglySorted R l -> Forall (fun y => R y x) l ->
  StronglySorted R (l ++ [x])%list.
Proof.
  induction 1 as [|y l Hs IH Hy]; simpl; intros Hx.
  - repeat constructor.
  - inversion Hx; subst. constructor; [now apply IH |].
    apply List.Forall_app. split; [exact Hy | now repeat constructor].
Qed.

Lemma StronglySorted_rev {A} (R : A -> A -> Prop) l :
  StronglySorted R l -> StronglySorted (fun a b => R b a) (rev l).
Proof.
  induction 1 as [|x l Hs IH Hx]; simpl; [constructor |].
  apply StronglySorted_snoc; [exact IH |].
  apply List.Forall_forall. intros y Hy. apply in_rev in Hy.
  rewrite List.Forall_forall in Hx. now apply Hx.
Qed.

Lemma filter_firstn_prefix {A} (P : A -> bool) n (l : list A) :
  exists rest,
    List.filter P l = (List.filter P (firstn n l) ++ rest)%list.
Proof.
  exists (List.filter P (skipn n l)).
  now rewrite <- List.filter_app, firstn_skipn.
Qed.

(** C8.  For a mode whose weights are numbers (none is NaN), the
    contributions sorted by [sorted(..., reverse=True)] are the
    contributions of the mode, no earlier one lighter than a later one,
    and those of one weight come in their order of encounter.  So do
    those of one weight among the top [topn]: they are the first of that
    weight in the order of encounter.  The rendered string joins the
    renderings of the top [topn] in that order. *)
Theorem top_contributions_stable (topn : nat) (m : mode_record) :
  (forall c, List.In c (Contrib m) -> is_nan (weight c) = false) ->
  let sorted := sorted_by_weight_desc (Contrib m) in
  Permutation sorted (Contrib m)
  /\ StronglySorted not_lighter sorted
  /\ (forall w, List.filter (same_weight w) sorted
                = List.filter (same_weight w) (Contrib m))
  /\ (forall w, exists rest,
        List.filter (same_weight w) (Contrib m)
        = (List.filter (same_weight w) (top_contributions topn m)
           ++ rest)%list)
  /\ top_contributions topn m = firstn topn sorted
  /\ topstr topn m
     = join "; " (map render_contribution (firstn topn sorted)).
Proof.
  intros Hnan sorted.
  assert (forall w, List.filter (same_weight w) sorted
                    = List.filter (same_weight w) (Contrib m)) as Hst.
  { intros w. unfold sorted, sorted_by_weight_desc.
    rewrite List.filter_rev, (sort_by_stable weight_lt (same_weight w)).
    - now rewrite <- List.filter_rev, rev_involutive.
    - intros x y Hx Hy. unfold weight_lt, same_weight in *.
      eapply feqb_not_lt; eauto. }
  split; [| split; [| split; [exact Hst | split; [| split; reflexivity]]]].
  - unfold sorted, sorted_by_weight_desc.
    rewrite <- Permutation_rev, sort_by_perm. symmetry. apply Permutation_rev.
  - unfold sorted, sorted_by_weight_desc.
    apply (StronglySorted_rev (fun a b => weight_lt b a = false)).
    apply (sort_by_sorted weight_lt
             (fun c => is_nan (weight c) = false)).
    + intros x y. apply flt_asym.
    + intros x y z Hx Hy Hz. unfold weight_lt.
      now apply fge_trans.
    + apply List.Forall_forall. intros c Hc. apply Hnan. now apply in_rev.
  - intros w. rewrite <- Hst. apply filter_firstn_prefix.
Qed.

Lemma top_contributions_stable_witness :
  let half := S754_finite false 4503599627370496 (-53) in
  let quarter := S754_finite false 4503599627370496 (-54) in
  let c1 := {| ctype := "BOND"; atoms := ["C1"; "H2"]; weight := quarter |} in
  let c2 := {| ctype := "ANGLE"; atoms := ["H2"; "C1"; "H3"]; weight := half |} in
  let c3 := {| ctype := "OUT"; atoms := ["C1"]; weight := quarter |} in
  let c4 := {| ctype := "TORSION"; atoms := ["C4"]; weight := half |} in
  let m := {| Mode := 7; Freq := half; IR := half;
              Contrib := [c1; c2; c3; c4] |} in
  List.filter (same_weight half) (sorted_by_weight_desc (Contrib m)) = [c2; c4]
  /\ List.filter (same_weight quarter) (sorted_by_weight_desc (Contrib m))
     = [c1; c3]
  /\ topstr 3 m = "ANGLE(H2 C1 H3):0.50; TORSION(C4):0.50; BOND(C1 H2):0.25".
Proof.
  intros half quarter c1 c2 c3 c4 m.
  assert (forall c, List.In c (Contrib m) -> is_nan (weight c) = false) as H.
  { intros c [<- | [<- | [<- | [<- | []]]]]; reflexivity. }
  destruct (top_contributions_stable 3 m H) as (_ & _ & Hst & _ & _ & Hs).
  split; [| split].
  - rewrite Hst. reflexivity.
  - rewrite Hst. reflexivity.
  - rewrite Hs. reflexivity.
Defined.

(* ----------------------------------------------------------------- *)
(** ** Exported files *)














(* ----------------------------------------------------------------- *)
(** ** Decimal numerals *)

Lemma digits_of_uint d : all_in is_digit (NilEmpty.string_of_uint d) = true.
Proof. induction d; simpl; auto. Qed.

Lemma py_str_nonneg z :
  0 <= z -> py_str z = NilEmpty.string_of_uint (N.to_uint (Z.to_N z)).
Proof.
  intros H. unfold py_str. destruct z as [|p|p]; [reflexivity | | lia].
  simpl. unfold NilZero.string_of_uint.
  pose proof (DecimalPos.Unsigned.to_uint_nonnil p) as Hn.
  destruct (Pos.to_uint p); congruence.
Qed.

Lemma to_uint_not_nil n : N.to_uint n <> Nil.
Proof.
  destruct n; simpl; [discriminate |].
  apply DecimalPos.Unsigned.to_uint_nonnil.
Qed.

Lemma string_of_uint_not_empty d : d <> Nil -> NilEmpty.string_of_uint d <> "".
Proof. destruct d; simpl; congruence. Qed.

Lemma py_str_digits z : 0 <= z -> all_in is_digit (py_str z) = true.
Proof. intros H. rewrite py_str_nonneg by assumption. apply digits_of_uint. Qed.

Lemma py_str_not_empty z : 0 <= z -> py_str z <> "".
Proof.
  intros H. rewrite py_str_nonneg by assumption.
  apply string_of_uint_not_empty, to_uint_not_nil.
Qed.

(** [int(str(z)) == z], within the limit on the digits. *)
Lemma py_int_py_str z :
  0 <= z -> (String.length (py_str z) <= max_str_digits)%nat ->
  py_int (py_str z) = Some z.
Proof.
  intros H Hl. pose proof (py_str_not_empty z H) as Hne.
  unfold py_int. apply Nat.leb_le in Hl. rewrite Hl.
  rewrite py_str_nonneg in * by assumption.
  destruct (NilEmpty.string_of_uint _) eqn:E; [congruence |].
  rewrite <- E, NilEmpty.usu. simpl.
  rewrite DecimalN.Unsigned.of_to. f_equal. lia.
Qed.

Lemma py_int_nonneg s z : py_int s = Some z -> 0 <= z.
Proof.
  unfold py_int. destruct s; [discriminate |].
  destruct (_ <=? _)%nat; [| discriminate].
  destruct (NilEmpty.uint_of_string _); simpl; [| discriminate].
  intros [= <-]. lia.
Qed.

Lemma uint_of_string_digits s :
  all_in is_digit s = true -> exists d, NilEmpty.uint_of_string s = Some d.
Proof.
  induction s as [|c s IH]; simpl; [eauto |].
  intros H. apply andb_true_iff in H as [Hc Hs].
  destruct (IH Hs) as (d & ->). revert Hc.
  destruct c as [[] [] [] [] [] [] [] []]; vm_compute; intros Hc;
    try discriminate Hc; eauto.
Qed.

(** [int] rejects a string of [\d+] exactly when it has more digits
    than the limit. *)
Lemma py_int_none_iff s :
  all_in is_digit s = true -> s <> "" ->
  (py_int s = None <-> (max_str_digits < String.length s)%nat).
Proof.
  intros H Hne. unfold py_int. destruct s as [|c s]; [congruence |].
  destruct (uint_of_string_digits _ H) as (d & ->).
  destruct (_ <=? _)%nat eqn:E.
  - apply Nat.leb_le in E. split; [discriminate | lia].
  - apply Nat.leb_gt in E. split; [intros _; exact E | reflexivity].
Qed.

Lemma length_string_of_uint d :
  String.length (NilEmpty.string_of_uint d) = Decimal.nb_digits d.
Proof. induction d; simpl; auto. Qed.

(** [str] of a number that [int] has read has no more digits than the
    numeral read: [int(str(int(s))) == int(s)]. *)
Lemma py_int_round_trip s z : py_int s = Some z -> py_int (py_str z) = Some z.
Proof.
  intros H. pose proof (py_int_nonneg s z H) as Hz.
  apply py_int_py_str; [assumption |].
  unfold py_int in H. destruct s as [|c s]; [discriminate |].
  destruct (_ <=? _)%nat eqn:El; [| discriminate].
  apply Nat.leb_le in El.
  destruct (NilEmpty.uint_of_string (String c s)) as [d|] eqn:Ed;
    [| discriminate].
  simpl in H. injection H as <-.
  rewrite py_str_nonneg by lia. rewrite N2Z.id.
  rewrite DecimalN.Unsigned.to_of, length_string_of_uint.
  apply NilEmpty.sus in Ed.
  assert (d <> Nil) as Hd by (intros ->; discriminate).
  pose proof (DecimalFacts.nb_digits_unorm d Hd) as Hn.
  rewrite <- Ed, length_string_of_uint in El. lia.
Qed.

Lemma digits_from_acc d acc :
  Z.pos (Pos.of_uint_acc d acc)
  = digits_from (Z.pos acc) (NilEmpty.string_of_uint d).
Proof.
  revert acc. induction d; intros acc; simpl; try rewrite IHd;
    try reflexivity; f_equal;
    match goal with
    | |- context [Z.of_nat (nat_of_ascii ?c)] =>
        let v := eval vm_compute in (Z.of_nat (nat_of_ascii c)) in
        change (Z.of_nat (nat_of_ascii c)) with v
    end; lia.
Qed.

Lemma digits_val_of_uint d :
  digits_val (NilEmpty.string_of_uint d) = Z.of_N (N.of_uint d).
Proof.
  unfold digits_val, N.of_uint.
  induction d; simpl; try exact IHd; try reflexivity;
    rewrite digits_from_acc; reflexivity.
Qed.

(** The value of [str(z)] read as digits is [z]. *)
Lemma digits_val_py_str z : 0 <= z -> digits_val (py_str z) = z.
Proof.
  intros H. rewrite py_str_nonneg, digits_val_of_uint by assumption.
  rewrite DecimalN.Unsigned.of_to. lia.
Qed.

Lemma digits_from_app a b acc :
  digits_from acc (a ++ b) = digits_from (digits_from acc a) b.
Proof. revert acc. induction a as [|c a IH]; intros acc; simpl; auto. Qed.

Lemma digits_from_shift s acc :
  digits_from acc s = acc * 10 ^ Z.of_nat (String.length s) + digits_val s.
Proof.
  unfold digits_val. revert acc.
  induction s as [|c s IH]; intros acc.
  - simpl. lia.
  - cbn [digits_from String.length]. rewrite IH, (IH (10 * 0 + _)).
    rewrite Nat2Z.inj_succ, Z.pow_succ_r by lia. ring.
Qed.

Lemma digits_val_app a b :
  digits_val (a ++ b)
  = digits_val a * 10 ^ Z.of_nat (String.length b) + digits_val b.
Proof.
  unfold digits_val at 1. rewrite digits_from_app.
  fold (digits_val a). apply digits_from_shift.
Qed.

(** The two digits of [pad2]. *)
Lemma pad2_spec n :
  0 <= n < 100 ->
  all_in is_digit (pad2 n) = true /\ String.length (pad2 n) = 2%nat
  /\ digits_val (pad2 n) = n.
Proof.
  intros H. assert (exists k, n = Z.of_nat k /\ (k < 100)%nat) as (k & -> & Hk).
  { exists (Z.to_nat n). lia. }
  clear H. do 100 (destruct k as [|k]; [vm_compute; auto |]). lia.
Qed.

Lemma lstrip_id s : head_in is_space s = false -> lstrip s = s.
Proof. destruct s as [|c s]; simpl; [reflexivity |]. now intros ->. Qed.

Lemma rstrip_id s : all_in is_nonspace s = true -> rstrip s = s.
Proof.
  induction s as [|c s IH]; simpl; [reflexivity |].
  intros [Hc Hs]%andb_true_iff. rewrite (IH Hs).
  unfold is_nonspace in Hc. apply negb_true_iff in Hc. rewrite Hc.
  now destruct s.
Qed.

Lemma strip_id s : all_in is_nonspace s = true -> strip s = s.
Proof.
  intros H. unfold strip. rewrite lstrip_id; [now apply rstrip_id |].
  destruct s as [|c s]; simpl in *; [reflexivity |].
  apply andb_true_iff in H as [H _]. unfold is_nonspace in H.
  now apply negb_true_iff in H.
Qed.

Lemma digit_facts c :
  is_digit c = true ->
  is_nonspace c = true /\ Ascii.eqb c "+" = false /\ Ascii.eqb c "-" = false
  /\ Ascii.eqb c "_" = false /\ Ascii.eqb c "." = false
  /\ Ascii.eqb (lower_char c) "i" = false
  /\ Ascii.eqb (lower_char c) "n" = false.
Proof.
  destruct c as [[] [] [] [] [] [] [] []]; vm_compute; intros H;
    try discriminate H; repeat split.
Qed.

Lemma digitpart_tail_run d r :
  all_in is_digit d = true -> head_in is_digit r = false ->
  head_in (fun c => Ascii.eqb c "_") r = false ->
  digitpart_tail (d ++ r) = (d, r).
Proof.
  intros Hd Hr Hu. induction d as [|c d IH]; simpl.
  - destruct r as [|c r]; simpl in *; [reflexivity |]. now rewrite Hr, Hu.
  - simpl in Hd. apply andb_true_iff in Hd as [Hc Hd].
    rewrite Hc, (IH Hd). reflexivity.
Qed.

Lemma digitpart_run d r :
  all_in is_digit d = true -> d <> "" -> head_in is_digit r = false ->
  head_in (fun c => Ascii.eqb c "_") r = false ->
  digitpart (d ++ r) = Some (d, r).
Proof.
  intros Hd Hne Hr Hu. destruct d as [|c d]; [congruence |].
  simpl in *. apply andb_true_iff in Hd as [Hc Hd].
  rewrite Hc, (digitpart_tail_run d r Hd Hr Hu). reflexivity.
Qed.

Lemma all_in_digit_nonspace s :
  all_in is_digit s = true -> all_in is_nonspace s = true.
Proof. apply all_in_weaken. intros c H. now apply digit_facts in H. Qed.

Lemma split_sign_digit c t :
  is_digit c = true -> split_sign (String c t) = (false, String c t).
Proof.
  intros H. destruct (digit_facts c H) as (_ & Hp & Hm & _).
  unfold split_sign. now rewrite Hp, Hm.
Qed.

(** [float] on digits, a dot and digits, without a sign. *)
Lemma py_float_abs_numeral (neg : bool) (ip fp : string) :
  all_in is_digit ip = true -> ip <> "" ->
  all_in is_digit fp = true -> fp <> "" ->
  py_float_abs neg (ip ++ "." ++ fp)
  = Some (round_decimal neg (digits_val (ip ++ fp))
            (0 - Z.of_nat (String.length fp))).
Proof.
  intros Hip Hne Hfp Hnf. unfold py_float_abs.
  assert (scan_number (ip ++ "." ++ fp) = Some (ip, fp, "")) as ->.
  { unfold scan_number. rewrite digitpart_run by auto. simpl.
    rewrite <- (str_app_nil_r fp) at 1.
    rewrite digitpart_run by auto. reflexivity. }
  destruct ip as [|c ip']; [congruence |].
  simpl in Hip. apply andb_true_iff in Hip as [Hc Hip].
  destruct (digit_facts c Hc) as (_ & _ & _ & _ & _ & Hi & Hn).
  change (lower (String c ip' ++ "." ++ fp))
    with (String (lower_char c) (lower (ip' ++ "." ++ fp))).
  unfold String.eqb; fold String.eqb. rewrite Hi, Hn. reflexivity.
Qed.

(** [float] on digits, a dot and digits, with or without a minus sign. *)
Lemma py_float_numeral (neg : bool) (ip fp : string) :
  all_in is_digit ip = true -> ip <> "" ->
  all_in is_digit fp = true -> fp <> "" ->
  py_float ((if neg then "-" else "") ++ ip ++ "." ++ fp)
  = Some (round_decimal neg (digits_val (ip ++ fp))
            (0 - Z.of_nat (String.length fp))).
Proof.
  intros Hip Hne Hfp Hnf. unfold py_float.
  assert (all_in is_nonspace (ip ++ "." ++ fp) = true) as Hns.
  { rewrite !all_in_app, (all_in_digit_nonspace ip Hip),
      (all_in_digit_nonspace fp Hfp). reflexivity. }
  rewrite strip_id by (destruct neg; simpl; auto).
  destruct neg.
  - change (split_sign ("-" ++ ip ++ "." ++ fp))
      with (true, ip ++ "." ++ fp).
    now apply py_float_abs_numeral.
  - change ("" ++ ip ++ "." ++ fp) with (ip ++ "." ++ fp).
    destruct ip as [|c ip']; [congruence |].
    change (String c ip' ++ "." ++ fp) with (String c (ip' ++ "." ++ fp)).
    rewrite split_sign_digit
      by (simpl in Hip; now apply andb_true_iff in Hip as [Hc _]).
    change (String c (ip' ++ "." ++ fp)) with (String c ip' ++ "." ++ fp).
    now apply py_float_abs_numeral.
Qed.

(* ----------------------------------------------------------------- *)
(** ** What [{:.2f}] writes *)

Lemma round_half_even_nonneg num den :
  0 <= num -> 0 < den -> 0 <= round_half_even num den.
Proof.
  intros Hn Hd. unfold round_half_even.
  pose proof (Z.div_pos num den Hn Hd).
  destruct (2 * (num mod den) ?= den); [destruct (Z.even _) | |]; lia.
Qed.

Lemma hundredths_nonneg m e : 0 <= hundredths m e.
Proof.
  unfold hundredths. destruct e as [|p|p].
  - lia.
  - pose proof (Z.pow_pos_nonneg 2 (Z.pos p)). lia.
  - apply round_half_even_nonneg; [lia |].
    apply Z.pow_pos_nonneg; lia.
Qed.

(** The digits written for [n] hundredths. *)
Lemma hundredths_numeral n :
  0 <= n ->
  let ip := py_str (n / 100) in
  let fp := pad2 (n mod 100) in
  all_in is_digit ip = true /\ ip <> ""
  /\ all_in is_digit fp = true /\ fp <> ""
  /\ String.length fp = 2%nat /\ digits_val (ip ++ fp) = n.
Proof.
  intros Hn ip fp.
  assert (0 <= n / 100) as Hq by (apply Z.div_pos; lia).
  assert (0 <= n mod 100 < 100) as Hr by (apply Z.mod_pos_bound; lia).
  destruct (pad2_spec (n mod 100) Hr) as (Hd & Hl & Hv).
  repeat split.
  - now apply py_str_digits.
  - now apply py_str_not_empty.
  - exact Hd.
  - unfold fp. intros E. rewrite E in Hl. discriminate.
  - exact Hl.
  - unfold ip, fp. rewrite digits_val_app, Hl, Hv, digits_val_py_str by assumption.
    change (10 ^ Z.of_nat 2) with 100.
    pose proof (Z.div_mod n 100). lia.
Qed.

(** A finite float is written as an optional minus sign, digits, a dot
    and two digits; [float] reads back the double nearest to that
    number of hundredths. *)
Lemma py_float_fmt2_finite s m e :
  py_float (fmt2 (S754_finite s m e))
  = Some (round_decimal s (hundredths m e) (-2)).
Proof.
  unfold fmt2.
  destruct (hundredths_numeral (hundredths m e) (hundredths_nonneg m e))
    as (H1 & H2 & H3 & H4 & H5 & H6).
  cbv zeta. rewrite py_float_numeral by assumption.
  rewrite H5, H6. reflexivity.
Qed.

(** [float] reads every string that [{:.2f}] writes. *)
Lemma py_float_fmt2 x : exists y, py_float (fmt2 x) = Some y.
Proof.
  destruct x as [[]|[]| |s m e]; try (eexists; reflexivity).
  eexists. apply py_float_fmt2_finite.
Qed.

Lemma py_float_fmt2_printable x :
  printable x = true -> py_float (fmt2 x) = Some (two_decimals x).
Proof.
  destruct x as [[]|[]| |[] m e]; try discriminate; intros _.
  - reflexivity.
  - apply py_float_fmt2_finite.
Qed.

(** A printable float is written with digits and a dot only. *)
Lemma fmt2_printable x :
  printable x = true ->
  all_in is_digit_or_dot (fmt2 x) = true /\ fmt2 x <> "".
Proof.
  destruct x as [[]|[]| |[] m e]; try discriminate; intros _.
  - split; [reflexivity | discriminate].
  - unfold fmt2.
    destruct (hundredths_numeral (hundredths m e) (hundredths_nonneg m e))
      as (H1 & H2 & H3 & H4 & H5 & H6).
    cbv zeta. change ("" ++ ?t) with t. split.
    + rewrite !all_in_app.
      rewrite (all_in_weaken _ _ _ digit_is_digit_or_dot H1).
      rewrite (all_in_weaken _ _ _ digit_is_digit_or_dot H3).
      reflexivity.
    + destruct (py_str _); [congruence | discriminate].
Qed.

(* ----------------------------------------------------------------- *)
(** ** The frequency filter *)

Lemma astype_float_rows df :
  (forall r, List.In r df -> displayed r) ->
  exists col,
    astype_float (map row_Freq df) = Some col
    /\ forall g : float -> bool,
         select df (map g col)
         = List.filter (fun r => match py_float (row_Freq r) with
                                 | Some x => g x
                                 | None => false
                                 end) df.
Proof.
  induction df as [|r df IH]; intros H.
  - exists []. split; reflexivity.
  - destruct IH as (col & E & Hs); [intros r' Hr; apply H; now right |].
    destruct (H r (or_introl eq_refl)) as [x Hx].
    destruct (py_float_fmt2 x) as [y Hy].
    exists (y :: col). simpl. rewrite Hx, Hy, E. split; [reflexivity |].
    intros g. rewrite Hs. reflexivity.
Qed.

Lemma split_on_absent c s :
  contains (String c "") s = false -> split_on c s = [s].
Proof.
  induction s as [|a s IH]; simpl; [reflexivity |].
  destruct (Ascii.eqb_spec c a) as [-> |].
  - discriminate.
  - simpl. intros H. rewrite IH by assumption.
    destruct (Ascii.eqb_spec a c); [congruence | reflexivity].
Qed.

Lemma split_on_once c a b :
  contains (String c "") a = false -> contains (String c "") b = false ->
  split_on c (a ++ String c b) = [a; b].
Proof.
  intros Ha Hb. induction a as [|x a IH]; simpl.
  - rewrite Ascii.eqb_refl. now rewrite split_on_absent.
  - simpl in Ha. destruct (Ascii.eqb_spec c x) as [-> |]; [discriminate |].
    simpl in Ha. rewrite IH by assumption.
    destruct (Ascii.eqb_spec x c); [congruence | reflexivity].
Qed.

Lemma contains_app_char c a b : contains (String c "") (a ++ String c b) = true.
Proof.
  induction a as [|x a IH]; simpl.
  - now rewrite Ascii.eqb_refl.
  - rewrite IH. apply orb_true_r.
Qed.

Lemma length_zero_iff s : (String.length s =? 0)%nat = true <-> s = "".
Proof. destruct s; simpl; split; congruence. Qed.



(* ----------------------------------------------------------------- *)
(** ** The header written by the merger, read by the parser *)

Lemma head_in_numeral cls (s t : string) :
  all_in is_digit_or_dot s = true -> s <> "" ->
  (forall c, is_digit_or_dot c = true -> cls c = false) ->
  head_in cls (s ++ t) = false.
Proof.
  intros Hs Hne D. destruct s as [|c s]; [congruence |].
  simpl in *. apply andb_true_iff in Hs as [Hc _]. auto.
Qed.

(** The mode-header pattern matches a header line as the merger writes
    it, whatever follows it, and its groups are the three fields. *)
Lemma pat_mode_new_line (D F I suffix : string) :
  all_in is_digit D = true -> D <> "" ->
  all_in is_digit_or_dot F = true -> F <> "" ->
  all_in is_digit_or_dot I = true -> I <> "" ->
  re_match pat_mode
    (("Mode " ++ D ++ ":  " ++ F ++ " cm-1 (IR: " ++ I ++ ")") ++ suffix)
  = Some [D; F; I].
Proof.
  intros HD HDn HF HFn HI HIn. unfold pat_mode.
  rewrite !str_app_assoc. cbn [app].
  (* \s* takes nothing *)
  apply (re_match_rep is_space Star false _ "" _ [D; F; I]);
    try reflexivity; try discriminate; try (simpl; lia).
  match goal with
  | |- re_match _ ?s = _ =>
      change s with ("Mode" ++ " " ++ D ++ ":  " ++ F ++ " cm-1 (IR: "
                     ++ I ++ ")" ++ suffix)
  end.
  rewrite (re_match_lit "Mode").
  (* \s+ takes the blank, (\d+) the mode number *)
  apply (re_match_rep is_space Plus false _ " " _ [D; F; I]);
    try reflexivity; try discriminate; try (simpl; lia).
  { destruct D as [|c D]; [congruence |]. simpl in *.
    apply andb_true_iff in HD as [Hc _]. now apply digit_not_space. }
  apply (re_match_rep is_digit Plus true _ D _ [F; I]);
    try reflexivity; try discriminate; try (simpl; lia); auto.
  { destruct D; simpl; [congruence | lia]. }
  change (":  " ++ ?t) with (String ":" ("  " ++ t)).
  rewrite re_match_chr.
  (* \s* takes the two blanks, ([\d.]+) the frequency *)
  apply (re_match_rep is_space Star false _ "  " _ [F; I]);
    try reflexivity; try discriminate; try (simpl; lia).
  { apply head_in_numeral; auto using digit_or_dot_not_space. }
  apply (re_match_rep is_digit_or_dot Plus true _ F _ [I]);
    try reflexivity; try discriminate; try (simpl; lia); auto.
  { destruct F; simpl; [congruence | lia]. }
  (* \s* takes the blank before cm-1 and the blank before (IR: *)
  change (" cm-1 (IR: " ++ ?t)
    with (" " ++ "cm-1" ++ " " ++ "(IR:" ++ " " ++ t).
  apply (re_match_rep is_space Star false _ " " _ [I]);
    try reflexivity; try discriminate; try (simpl; lia).
  match goal with
  | |- re_match _ ?s = _ =>
      change s with ("cm-1" ++ " " ++ "(IR:" ++ " " ++ I ++ ")" ++ suffix)
  end.
  rewrite (re_match_lit "cm-1").
  apply (re_match_rep is_space Star false _ " " _ [I]);
    try reflexivity; try discriminate; try (simpl; lia).
  match goal with
  | |- re_match _ ?s = _ =>
      change s with ("(IR:" ++ " " ++ I ++ ")" ++ suffix)
  end.
  rewrite (re_match_lit "(IR:").
  apply (re_match_rep is_space Star false _ " " _ [I]);
    try reflexivity; try discriminate; try (simpl; lia).
  { apply head_in_numeral; auto using digit_or_dot_not_space. }
  apply (re_match_rep is_digit_or_dot Plus true _ I _ []);
    try reflexivity; try discriminate; try (simpl; lia); auto.
  destruct I; simpl; [congruence | lia].
Qed.

Ltac invert_match :=
  repeat match goal with
    | H : re_match (Rep _ _ _ :: _) _ = Some _ |- _ =>
        let a := fresh "a" in
        let b := fresh "b" in
        let r := fresh "r" in
        let Hs := fresh "Hs" in
        let Ha := fresh "Ha" in
        let Hl := fresh "Hl" in
        let Hr := fresh "Hr" in
        apply re_match_rep_inv in H as (a & b & r & Hs & Ha & Hl & H & Hr);
        simpl in Hr, Hl
    | H : re_match (Chr _ :: _) _ = Some _ |- _ =>
        let s := fresh "s" in
        let Hs := fresh "Hs" in
        apply re_match_chr_inv in H as (s & Hs & H)
    | H : re_match [] _ = Some _ |- _ => simpl in H; injection H as H
    end.

(** The groups of a line that the mode-header pattern matches. *)
Lemma pat_mode_groups ln m :
  re_match pat_mode ln = Some m ->
  exists g1 g2 g3,
    m = [g1; g2; g3]
    /\ all_in is_digit g1 = true /\ g1 <> ""
    /\ all_in is_digit_or_dot g2 = true /\ g2 <> ""
    /\ all_in is_digit_or_dot g3 = true /\ g3 <> "".
Proof.
  unfold pat_mode. cbn [app lit]. intros H. invert_match. subst.
  eexists _, _, _. split; [reflexivity |].
  repeat split; auto;
    match goal with
    | Hl : (1 <= String.length ?a)%nat |- ?a <> "" =>
        intros E; rewrite E in Hl; simpl in Hl; lia
    end.
Qed.

(** The lines on which the loop of the merger raises: the headers
    whose mode number has more digits than [int] converts or whose
    frequency [float] rejects. *)
Lemma unmergeable_iff ln :
  mergeable ln = false <->
  exists m, re_match pat_mode ln = Some m
            /\ ((max_str_digits < String.length (group m 1))%nat
                \/ py_float (group m 2) = None).
Proof.
  unfold mergeable, parse_header.
  destruct (re_match pat_mode ln) as [m|] eqn:E.
  - destruct (pat_mode_groups ln m E) as (g1 & g2 & g3 & -> & H1 & N1 & _).
    pose proof (py_int_none_iff g1 H1 N1) as Hi.
    unfold to_int, to_float, group. simpl nth.
    destruct (py_int g1) as [z|]; simpl.
    + destruct (py_float g2) as [x|] eqn:Ex; simpl.
      * split; [discriminate |]. intros (m' & [= <-] & [Hl | Hf]).
        -- apply Hi in Hl. discriminate.
        -- simpl in Hf. congruence.
      * split; [| reflexivity]. intros _. eexists. split; [reflexivity |].
        now right.
    + split; [| reflexivity]. intros _. eexists. split; [reflexivity |].
      left. now apply Hi.
  - split; [discriminate |]. intros (m' & Hm & _). discriminate.
Qed.

(* ----------------------------------------------------------------- *)
(** ** Signs and finiteness of the floats read *)

Lemma binary_round_aux_sign prec emax sx m e l :
  match binary_round_aux prec emax sx m e l with
  | S754_zero s | S754_infinity s | S754_finite s _ _ => s = sx
  | S754_nan => True
  end.
Proof.
  unfold binary_round_aux.
  destruct (shr_fexp prec emax m e l) as [mrs' e'].
  destruct (shr_fexp prec emax _ e' loc_Exact) as [mrs'' e''].
  destruct (shr_m mrs''); [reflexivity | | exact I].
  destruct (Z.leb e'' _); reflexivity.
Qed.

Lemma round_decimal_unsigned m p : unsigned (round_decimal false m p) = true.
Proof.
  unfold round_decimal. destruct m as [|m'|m']; try reflexivity.
  unfold SFdiv. destruct (SFdiv_core_binary _ _ _ _ _ _) as [[mz ez] lz].
  pose proof (binary_round_aux_sign 53 1024 (xorb false false) mz ez lz) as H.
  destruct (binary_round_aux _ _ _ _ _ _); simpl in *; subst; reflexivity.
Qed.

Lemma all_in_lstrip cls s : all_in cls s = true -> all_in cls (lstrip s) = true.
Proof.
  induction s as [|c s IH]; simpl; [reflexivity |].
  intros H. destruct (is_space c); [| exact H].
  apply andb_true_iff in H as [_ H]. auto.
Qed.

Lemma all_in_rstrip cls s : all_in cls s = true -> all_in cls (rstrip s) = true.
Proof.
  induction s as [|c s IH]; simpl; [reflexivity |].
  intros [Hc Hs]%andb_true_iff. specialize (IH Hs).
  destruct (rstrip s) as [|d r].
  - destruct (is_space c); simpl; [reflexivity | now rewrite Hc].
  - simpl in *. now rewrite Hc.
Qed.

Lemma all_in_strip cls s : all_in cls s = true -> all_in cls (strip s) = true.
Proof. intros H. unfold strip. now apply all_in_rstrip, all_in_lstrip. Qed.

Lemma digit_or_dot_facts c :
  is_digit_or_dot c = true ->
  Ascii.eqb c "+" = false /\ Ascii.eqb c "-" = false
  /\ Ascii.eqb (lower_char c) "i" = false
  /\ Ascii.eqb (lower_char c) "n" = false.
Proof.
  destruct c as [[] [] [] [] [] [] [] []]; vm_compute; intros H;
    try discriminate H; repeat split.
Qed.

(** [float] on a string of [[\d.]+] gives a float without a minus sign. *)
Lemma py_float_unsigned s f :
  all_in is_digit_or_dot s = true -> py_float s = Some f -> unsigned f = true.
Proof.
  intros Hs. apply all_in_strip in Hs. unfold py_float.
  destruct (strip s) as [|c t].
  - discriminate.
  - simpl in Hs. apply andb_true_iff in Hs as [Hc _].
    destruct (digit_or_dot_facts c Hc) as (Hp & Hm & Hi & Hn).
    unfold split_sign. rewrite Hp, Hm. unfold py_float_abs.
    change (lower (String c t)) with (String (lower_char c) (lower t)).
    unfold String.eqb; fold String.eqb. rewrite Hi, Hn. simpl orb. cbv iota.
    destruct (scan_number _) as [[[ip fp] r]|]; [| discriminate].
    destruct (scan_exponent r); [| discriminate].
    intros [= <-]. apply round_decimal_unsigned.
Qed.

(** Only a finite frequency is within tolerance of a record. *)
Lemma within_tolerance_finite v f :
  within_tolerance v f = true -> is_finite f = true.
Proof.
  unfold within_tolerance, fltb, fabs, fsub.
  destruct f as [s|[]| |s m e]; try reflexivity;
    destruct v as [[]|[]| |[] mv ev]; vm_compute; congruence.
Qed.

Lemma printable_iff x : printable x = unsigned x && is_finite x.
Proof. destruct x as [[]|[]| |[] m e]; reflexivity. Qed.

(** The frequency that the merger reads on a header and matches with a
    record is printable. *)
Lemma matched_frequency_printable ln vm f v :
  parse_header ln = Ok (Some (vm, f)) ->
  within_tolerance (freq v) f = true ->
  0 <= vm /\ printable f = true.
Proof.
  unfold parse_header. destruct (re_match pat_mode ln) as [m|] eqn:E;
    [| discriminate].
  destruct (pat_mode_groups ln m E)
    as (g1 & g2 & g3 & -> & H1 & _ & H2 & _).
  unfold to_int, to_float, group. simpl.
  destruct (py_int g1) as [z|] eqn:Ez; simpl; [| discriminate].
  destruct (py_float g2) as [x|] eqn:Ex; simpl; [| discriminate].
  intros [= <- <-] Hw. split; [eapply py_int_nonneg; eauto |].
  rewrite printable_iff, (py_float_unsigned g2 x H2 Ex).
  now apply within_tolerance_finite in Hw.
Qed.

(* ================================================================= *)
(** * Further properties of the code *)

(** ** The tolerance test *)

Lemma fabs_round_aux prec emax s m e l :
  SFabs (binary_round_aux prec emax s m e l)
  = SFabs (binary_round_aux prec emax false m e l).
Proof.
  unfold binary_round_aux.
  destruct (shr_fexp prec emax m e l) as [mrs' e'].
  destruct (shr_fexp prec emax _ e' loc_Exact) as [mrs'' e''].
  destruct (shr_m mrs''); [reflexivity | | reflexivity].
  destruct (Z.leb e'' _); reflexivity.
Qed.

Lemma fabs_normalize_opp prec emax z e :
  SFabs (binary_normalize prec emax (- z) e false)
  = SFabs (binary_normalize prec emax z e false).
Proof.
  destruct z as [|p|p]; simpl; [reflexivity | |];
    unfold binary_round; destruct (shl_align _ _ _) as [mz ez];
    now rewrite (fabs_round_aux _ _ true).
Qed.

Lemma fabs_fsub_comm a b : fabs (fsub a b) = fabs (fsub b a).
Proof.
  unfold fabs, fsub.
  destruct a as [[]|[]| |sa ma ea], b as [[]|[]| |sb mb eb];
    try reflexivity.
  unfold SFsub. rewrite (Z.min_comm eb ea).
  rewrite <- fabs_normalize_opp. f_equal. f_equal. lia.
Qed.

(** X1.  The tolerance test [abs(a - b) < 0.05] does not depend on the
    order of its two frequencies. *)
Theorem within_tolerance_sym (a b : float) :
  within_tolerance a b = within_tolerance b a.
Proof. unfold within_tolerance. now rewrite fabs_fsub_comm. Qed.

Lemma fsub_diag s m e : fsub (S754_finite s m e) (S754_finite s m e) = S754_zero false.
Proof.
  unfold fsub, SFsub. rewrite Z.sub_diag. reflexivity.
Qed.

(** X2.  A frequency is within tolerance of itself exactly when it is
    finite: an infinite or NaN frequency is within tolerance of nothing,
    whichever side it stands on. *)
Theorem within_tolerance_finite_only (a b : float) :
  within_tolerance a a = is_finite a
  /\ (within_tolerance a b = true ->
      is_finite a = true /\ is_finite b = true).
Proof.
  split.
  - destruct a as [[]|[]| |s m e]; try reflexivity.
    unfold within_tolerance. rewrite fsub_diag. reflexivity.
  - intros H. split; [| now apply within_tolerance_finite in H].
    unfold within_tolerance in H. rewrite fabs_fsub_comm in H.
    now apply (within_tolerance_finite b a).
Qed.

Lemma within_tolerance_finite_only_witness :
  within_tolerance (S754_finite false 7036874417766400 (-46))
    (S754_finite false 7037155892743111 (-46)) = true
  /\ is_finite (S754_finite false 7036874417766400 (-46)) = true
  /\ is_finite (S754_finite false 7037155892743111 (-46)) = true.
Proof.
  split; [reflexivity |].
  apply (proj2 (within_tolerance_finite_only
                  (S754_finite false 7036874417766400 (-46))
                  (S754_finite false 7037155892743111 (-46)))).
  reflexivity.
Defined.

(* ----------------------------------------------------------------- *)
(** ** Floats read from unsigned numerals are numbers *)

Lemma shr_1_nonneg mrs : 0 <= shr_m mrs -> 0 <= shr_m (shr_1 mrs).
Proof.
  destruct mrs as [m r s]. simpl.
  destruct m as [|[p|p|]|[p|p|]]; simpl; lia.
Qed.

Lemma iter_shr_1_nonneg p mrs :
  0 <= shr_m mrs -> 0 <= shr_m (SpecFloat.iter_pos shr_1 p mrs).
Proof.
  revert mrs. induction p as [p IH|p IH|]; intros mrs H; simpl;
    auto using shr_1_nonneg.
Qed.

Lemma shr_fexp_nonneg prec emax m e l :
  0 <= m -> 0 <= shr_m (fst (shr_fexp prec emax m e l)).
Proof.
  intros H. unfold shr_fexp, shr.
  assert (0 <= shr_m (shr_record_of_loc m l)) as H0.
  { destruct l as [|[]]; simpl; exact H. }
  destruct (fexp prec emax (Zdigits2 m + e) - e); simpl;
    auto using iter_shr_1_nonneg.
Qed.

Lemma round_nearest_even_nonneg m l : 0 <= m -> 0 <= round_nearest_even m l.
Proof.
  intros H. destruct l as [|[]]; simpl; try lia.
  destruct (Z.even m); lia.
Qed.

Lemma binary_round_aux_not_nan prec emax s m e l :
  0 <= m -> is_nan (binary_round_aux prec emax s m e l) = false.
Proof.
  intros H. unfold binary_round_aux.
  pose proof (shr_fexp_nonneg prec emax m e l H) as H1.
  destruct (shr_fexp prec emax m e l) as [mrs' e']. simpl in H1.
  pose proof (shr_fexp_nonneg prec emax
                (round_nearest_even (shr_m mrs') (loc_of_shr_record mrs'))
                e' loc_Exact (round_nearest_even_nonneg _ _ H1)) as H2.
  destruct (shr_fexp prec emax _ e' loc_Exact) as [mrs'' e'']. simpl in H2.
  destruct (shr_m mrs''); [reflexivity | | lia].
  destruct (Z.leb e'' _); reflexivity.
Qed.

Lemma SFdiv_core_nonneg prec emax m1 e1 m2 e2 :
  0 <= fst (fst (SFdiv_core_binary prec emax (Z.pos m1) e1 (Z.pos m2) e2)).
Proof.
  unfold SFdiv_core_binary.
  set (s := e1 - e2 - _).
  set (m' := match s with Z0 => Z.pos m1 | Z.pos _ => Z.shiftl (Z.pos m1) s
                     | Z.neg _ => 0 end).
  assert (0 <= m') as Hm.
  { unfold m'. destruct s; try lia. apply Z.shiftl_nonneg. lia. }
  pose proof (Z.div_pos m' (Z.pos m2) Hm ltac:(lia)) as Hq.
  unfold Z.div in Hq. destruct (Z.div_eucl m' (Z.pos m2)) as [q r].
  exact Hq.
Qed.

Lemma fdiv_finite_plain sa ma ea mb eb :
  is_nan (SFdiv 53 1024 (S754_finite sa ma ea) (S754_finite false mb eb))
  = false
  /\ unsigned (SFdiv 53 1024 (S754_finite false ma ea)
                 (S754_finite false mb eb)) = true.
Proof.
  unfold SFdiv.
  pose proof (SFdiv_core_nonneg 53 1024 ma ea mb eb) as H.
  destruct (SFdiv_core_binary 53 1024 (Z.pos ma) ea (Z.pos mb) eb)
    as [[mz ez] lz]. simpl in H. split.
  - now apply binary_round_aux_not_nan.
  - pose proof (binary_round_aux_sign 53 1024 (xorb false false) mz ez lz) as Hs.
    destruct (binary_round_aux _ _ _ _ _ _); simpl in *; subst; reflexivity.
Qed.

Lemma round_decimal_plain m p : plain_number (round_decimal false m p) = true.
Proof.
  unfold plain_number. rewrite round_decimal_unsigned. simpl.
  unfold round_decimal. destruct m as [|m'|m']; try reflexivity.
  now rewrite (proj1 (fdiv_finite_plain false _ 0 _ 0)).
Qed.

(** [float] on a string of [[\d.]+] gives a number without a minus
    sign: zero, a positive finite number or plus infinity. *)
Lemma py_float_plain s f :
  all_in is_digit_or_dot s = true -> py_float s = Some f ->
  plain_number f = true.
Proof.
  intros Hs. apply all_in_strip in Hs. unfold py_float.
  destruct (strip s) as [|c t].
  - discriminate.
  - simpl in Hs. apply andb_true_iff in Hs as [Hc _].
    destruct (digit_or_dot_facts c Hc) as (Hp & Hm & Hi & Hn).
    unfold split_sign. rewrite Hp, Hm. unfold py_float_abs.
    change (lower (String c t)) with (String (lower_char c) (lower t)).
    unfold String.eqb; fold String.eqb. rewrite Hi, Hn. simpl orb. cbv iota.
    destruct (scan_number _) as [[[ip fp] r]|]; [| discriminate].
    destruct (scan_exponent r); [| discriminate].
    intros [= <-]. apply round_decimal_plain.
Qed.


(* ----------------------------------------------------------------- *)
(** ** The extractor: what it returns and what it reads *)

(** The groups of a line that the record pattern matches. *)
Lemma pat_groups ln m :
  re_match pat ln = Some m ->
  exists g1 g2 g3,
    m = [g1; g2; g3]
    /\ all_in is_digit g1 = true /\ g1 <> ""
    /\ all_in is_digit_or_dot g2 = true /\ g2 <> ""
    /\ all_in is_digit_or_dot g3 = true /\ g3 <> "".
Proof.
  unfold pat. intros H. invert_match. subst.
  eexists _, _, _. split; [reflexivity |].
  repeat split; auto;
    match goal with
    | Hl : (1 <= String.length ?a)%nat |- ?a <> "" =>
        intros E; rewrite E in Hl; simpl in Hl; lia
    end.
Qed.

(** The lines on which the loop of the extractor raises: the record
    lines whose mode index has more digits than [int] converts or whose
    frequency or intensity [float] rejects. *)
Lemma unreadable_iff ln :
  readable ln = false <->
  exists m, re_match pat ln = Some m
            /\ ((max_str_digits < String.length (group m 1))%nat
                \/ py_float (group m 2) = None
                \/ py_float (group m 3) = None).
Proof.
  unfold readable, record_of.
  destruct (re_match pat ln) as [m|] eqn:E.
  - destruct (pat_groups ln m E) as (g1 & g2 & g3 & -> & H1 & N1 & _).
    pose proof (py_int_none_iff g1 H1 N1) as Hi.
    unfold to_int, to_float, group. simpl nth.
    destruct (py_int g1) as [z|]; simpl.
    + destruct (py_float g2) as [x|] eqn:Ex; simpl.
      * destruct (py_float g3) as [y|] eqn:Ey; simpl.
        -- split; [discriminate |].
           intros (m' & [= <-] & [Hl | [Hf | Hf]]);
             try (simpl in Hf; congruence).
           apply Hi in Hl. discriminate.
        -- split; [| reflexivity]. intros _. eexists.
           split; [reflexivity |]. right. now right.
      * split; [| reflexivity]. intros _. eexists. split; [reflexivity |].
        right. now left.
    + split; [| reflexivity]. intros _. eexists. split; [reflexivity |].
      left. now apply Hi.
  - split; [discriminate |]. intros (m' & Hm & _). discriminate.
Qed.

Lemma record_of_plain ln r : record_of ln = Ok (Some r) -> plain_record r.
Proof.
  unfold record_of. destruct (re_match pat ln) as [m|] eqn:E; [| discriminate].
  destruct (pat_groups ln m E) as (g1 & g2 & g3 & -> & H1 & _ & H2 & _ & H3 & _).
  unfold to_int, to_float, group. simpl.
  destruct (py_int g1) as [z|] eqn:Ez; simpl; [| discriminate].
  destruct (py_float g2) as [x|] eqn:Ex; simpl; [| discriminate].
  destruct (py_float g3) as [y|] eqn:Ey; simpl; [| discriminate].
  intros [= <-]. unfold plain_record. simpl. split; [| split].
  - eapply py_int_nonneg; eauto.
  - exact (py_float_plain g2 x H2 Ex).
  - exact (py_float_plain g3 y H3 Ey).
Qed.

Lemma dict_set_In k v d kv :
  List.In kv (dict_set k v d) -> kv = (k, v) \/ List.In kv d.
Proof.
  induction d as [|[k0 v0] d IH]; simpl.
  - intros [<- | []]. now left.
  - destruct (Z.eqb k0 k); simpl.
    + intros [<- | H]; auto.
    + intros [<- | H]; auto. destruct (IH H); auto.
Qed.

Lemma extract_plain window orca orca' :
  (forall kv, List.In kv orca -> plain_record kv) ->
  for_each orca_step window orca = Ok orca' ->
  forall kv, List.In kv orca' -> plain_record kv.
Proof.
  revert orca. induction window as [|ln w IH]; intros orca H; simpl.
  - now intros [= <-].
  - rewrite orca_step_record.
    destruct (record_of ln) as [[[idx v]|]|e] eqn:E; simpl;
      [| now apply IH | discriminate].
    apply IH. intros kv Hin. apply dict_set_In in Hin as [-> | Hin]; auto.
    now apply (record_of_plain ln).
Qed.

(** X3.  Whatever the lines, a mapping that the extractor returns holds
    only records with a non-negative index whose frequency and intensity
    are numbers without a minus sign: never NaN, never negative. *)
Theorem extractor_records_plain (lines : list string) (orca : orca_dict) :
  parse_orca_ir lines = Ok orca ->
  forall kv, List.In kv orca -> plain_record kv.
Proof.
  unfold parse_orca_ir. destruct (section_start lines) as [start|];
    [| discriminate].
  destruct (for_each orca_step _ []) as [o|e] eqn:E; simpl; [| discriminate].
  destruct o as [|p o]; [discriminate |]. intros [= <-].
  eapply extract_plain; [| exact E]. intros kv [].
Qed.

Lemma extractor_records_plain_witness :
  exists orca,
    parse_orca_ir
      ["IR SPECTRUM"; "  6:   100.00   0.001234    5.00  0.000120";
       "Maximum memory used throughout the entire PROP-calculation: 12 MB"]
    = Ok orca
    /\ forall kv, List.In kv orca -> plain_record kv.
Proof.
  eexists. split; [vm_compute; reflexivity |].
  apply (extractor_records_plain
           ["IR SPECTRUM"; "  6:   100.00   0.001234    5.00  0.000120";
            "Maximum memory used throughout the entire PROP-calculation: 12 MB"]).
  vm_compute. reflexivity.
Defined.

Lemma first_from_some P n i j :
  first_from P n i = Some j <->
  (i <= j < i + n)%nat /\ P j = true
  /\ (forall k, (i <= k < j)%nat -> P k = false).
Proof.
  revert i. induction n as [|n IH]; intros i; simpl.
  - split; [discriminate | intros [? _]; lia].
  - destruct (P i) eqn:E.
    + split.
      * intros [= <-]. repeat split; [lia | lia | assumption | intros; lia].
      * intros (Hj & Hp & Hk). f_equal.
        destruct (Nat.eq_dec i j) as [|Hne]; [assumption |].
        rewrite Hk in E; [discriminate | lia].
    + rewrite IH. split.
      * intros (Hj & Hp & Hk). repeat split; [lia | lia | assumption |].
        intros k Hlt. destruct (Nat.eq_dec k i) as [-> |]; [assumption |].
        apply Hk. lia.
      * intros (Hj & Hp & Hk).
        assert (j <> i) by (intros ->; congruence).
        repeat split; [lia | lia | assumption | intros; apply Hk; lia].
Qed.

Lemma first_from_shift P Q n i :
  (forall k, P (S k) = Q k) ->
  first_from P n (S i) = option_map S (first_from Q n i).
Proof.
  intros H. revert i. induction n as [|n IH]; intros i; simpl; [reflexivity |].
  rewrite H. destruct (Q i); [reflexivity | apply IH].
Qed.

Lemma first_from_find P n i j :
  (i <= j < i + n)%nat -> P j = true ->
  exists j', first_from P n i = Some j' /\ (i <= j' <= j)%nat.
Proof.
  intros Hj Hp. destruct (first_from P n i) as [j'|] eqn:E.
  - exists j'. split; [reflexivity |].
    apply first_from_some in E as (Hj' & _ & Hk).
    destruct (Nat.le_gt_cases j' j) as [|Hlt]; [lia |].
    rewrite Hk in Hp; [discriminate | lia].
  - rewrite first_from_none in E. rewrite E in Hp; [discriminate | lia].
Qed.

Lemma line_at_app_l X Y k :
  (k < length X)%nat -> line_at (X ++ Y)%list k = line_at X k.
Proof. intros H. unfold line_at. now rewrite app_nth1. Qed.

Lemma slice_app_l {A} a b (X Y : list A) :
  (b <= length X)%nat -> slice a b (X ++ Y)%list = slice a b X.
Proof.
  intros H. unfold slice.
  destruct (Nat.le_gt_cases a (length X)) as [Ha|Ha].
  - rewrite skipn_app. replace (a - length X)%nat with 0%nat by lia.
    simpl. rewrite firstn_app.
    rewrite length_skipn.
    replace (b - a - (length X - a))%nat with 0%nat by lia.
    simpl. now rewrite app_nil_r.
  - replace (b - a)%nat with 0%nat by lia. reflexivity.
Qed.

(** The result depends on the lines up to a footer line only. *)
Lemma parse_orca_ir_cut X ftr Y :
  (exists ln, List.In ln X /\ is_label_line ln = true) ->
  is_footer_line ftr = true ->
  parse_orca_ir ((X ++ [ftr]) ++ Y)%list = parse_orca_ir (X ++ [ftr])%list.
Proof.
  intros (lab & Hin & Hlab) Hf.
  apply (In_nth _ _ EmptyString) in Hin as (i & Hi & Hnth).
  set (Z0 := (X ++ [ftr])%list).
  assert (length Z0 = S (length X)) as HlZ
    by (unfold Z0; rewrite length_app; simpl; lia).
  destruct (first_from_find (fun i => is_label_line (line_at Z0 i))
              (length Z0) 0 i) as (s & Hs & Hsi).
  { lia. }
  { unfold Z0. rewrite line_at_app_l by lia. unfold line_at.
    now rewrite Hnth. }
  assert (section_start Z0 = Some s) as Hs1 by exact Hs.
  assert (section_start (Z0 ++ Y)%list = Some s) as Hs2.
  { unfold section_start. apply first_from_some in Hs as (H1 & H2 & H3).
    apply first_from_some. repeat split.
    - lia.
    - rewrite length_app. lia.
    - rewrite line_at_app_l by lia. exact H2.
    - intros k Hk. rewrite line_at_app_l by lia. now apply H3. }
  assert (line_at Z0 (length X) = ftr) as Hft.
  { unfold line_at, Z0. rewrite app_nth2 by lia.
    now rewrite Nat.sub_diag. }
  destruct (first_from_find (fun j => contains footer_phrase (line_at Z0 j))
              (length Z0 - s) s (length X)) as (j & Hj & Hjl).
  { lia. }
  { now rewrite Hft. }
  assert (section_end Z0 s = j) as He1 by (unfold section_end; now rewrite Hj).
  assert (section_end (Z0 ++ Y)%list s = j) as He2.
  { unfold section_end.
    replace (first_from _ (length (Z0 ++ Y)%list - s) s) with (Some j);
      [reflexivity |].
    symmetry. apply first_from_some in Hj as (H1 & H2 & H3).
    apply first_from_some. repeat split.
    - lia.
    - rewrite length_app. lia.
    - rewrite line_at_app_l by lia. exact H2.
    - intros k Hk. rewrite line_at_app_l by lia. now apply H3. }
  unfold parse_orca_ir. rewrite Hs1, Hs2, He1, He2.
  rewrite slice_app_l by lia. reflexivity.
Qed.

(** X4.  The extractor reads nothing below the first line that holds the
    footer phrase: when the label stands above such a line, the lines
    that follow it do not change the result, mapping or error. *)
Theorem extractor_stops_at_footer (pre : list string) (ftr : string)
    (post : list string) :
  (exists ln, List.In ln pre /\ is_label_line ln = true) ->
  is_footer_line ftr = true ->
  parse_orca_ir (pre ++ ftr :: post)%list = parse_orca_ir (pre ++ [ftr])%list.
Proof.
  intros Hl Hf. rewrite <- (parse_orca_ir_cut pre ftr post Hl Hf).
  now rewrite <- app_assoc.
Qed.

Lemma extractor_stops_at_footer_witness :
  parse_orca_ir
    (["IR SPECTRUM"; "  6:   100.00   0.001234    5.00"]
     ++ "Maximum memory used throughout the entire PROP-calculation: 12 MB"
     :: ["  7:   200.00   0.001234    9.00"])%list
  = parse_orca_ir
      (["IR SPECTRUM"; "  6:   100.00   0.001234    5.00"]
       ++ ["Maximum memory used throughout the entire PROP-calculation: 12 MB"])%list.
Proof.
  apply (extractor_stops_at_footer
           ["IR SPECTRUM"; "  6:   100.00   0.001234    5.00"]
           "Maximum memory used throughout the entire PROP-calculation: 12 MB"
           ["  7:   200.00   0.001234    9.00"]).
  - exists "IR SPECTRUM". split; [now left | reflexivity].
  - reflexivity.
Defined.

Lemma is_fallback_end_cons ln lines k :
  is_fallback_end (ln :: lines) (S k) = is_fallback_end lines k.
Proof. reflexivity. Qed.

Lemma section_end_cons ln lines s :
  section_end (ln :: lines) (S s) = S (section_end lines s).
Proof.
  unfold section_end.
  change (length (ln :: lines) - S s)%nat with (length lines - s)%nat.
  rewrite (first_from_shift _
             (fun j => contains footer_phrase (line_at lines j)))
    by reflexivity.
  destruct (first_from _ (length lines - s) s); [reflexivity |].
  change (length (ln :: lines) - (S s + 1))%nat
    with (length lines - (s + 1))%nat.
  change (S s + 1)%nat with (S (s + 1)).
  rewrite (first_from_shift _ (is_fallback_end lines))
    by (intros k; apply is_fallback_end_cons).
  destruct (first_from _ _ (s + 1)); reflexivity.
Qed.

Lemma parse_orca_ir_cons ln lines :
  is_label_line ln = false ->
  parse_orca_ir (ln :: lines) = parse_orca_ir lines.
Proof.
  intros H. unfold parse_orca_ir, section_start.
  change (first_from _ (length (ln :: lines)) 0)
    with (if is_label_line ln
          then Some 0%nat
          else first_from (fun i => is_label_line (line_at (ln :: lines) i))
                 (length lines) 1).
  rewrite H.
  rewrite (first_from_shift _ (fun i => is_label_line (line_at lines i)))
    by reflexivity.
  destruct (first_from _ (length lines) 0) as [s|]; [| reflexivity].
  simpl option_map. cbv iota. now rewrite section_end_cons.
Qed.

(** X5.  The lines above the label do not count: lines of which none is
    a label line can be put before the input, or taken away from its
    head, without a change of the result. *)
Theorem extractor_ignores_preamble (pre lines : list string) :
  (forall ln, List.In ln pre -> is_label_line ln = false) ->
  parse_orca_ir (pre ++ lines)%list = parse_orca_ir lines.
Proof.
  induction pre as [|ln pre IH]; intros H; [reflexivity |].
  simpl. rewrite parse_orca_ir_cons by (apply H; now left).
  apply IH. intros l Hl. apply H. now right.
Qed.

Lemma extractor_ignores_preamble_witness :
  parse_orca_ir
    (["  6:   300.00   0.001234    7.00"; "ORCA"]
     ++ ["IR SPECTRUM"; "  6:   100.00   0.001234    5.00"])%list
  = parse_orca_ir ["IR SPECTRUM"; "  6:   100.00   0.001234    5.00"].
Proof.
  apply (extractor_ignores_preamble
           ["  6:   300.00   0.001234    7.00"; "ORCA"]
           ["IR SPECTRUM"; "  6:   100.00   0.001234    5.00"]).
  intros ln [<- | [<- | []]]; reflexivity.
Defined.

Lemma lstrip_spaces a s : all_in is_space a = true -> lstrip (a ++ s) = lstrip s.
Proof.
  induction a as [|c a IH]; simpl; [reflexivity |].
  intros H. apply andb_true_iff in H as [Hc Ha]. rewrite Hc. now apply IH.
Qed.

Lemma rstrip_head c s :
  is_space c = false -> exists r, rstrip (String c s) = String c r.
Proof.
  intros H. simpl. destruct (rstrip s); rewrite ?H; eauto.
Qed.

(** A line that starts, after blanks, with a character that is no digit
    is no record line. *)
Lemma pat_needs_digit ln c r :
  strip ln = String c r -> is_digit c = false -> re_match pat ln = None.
Proof.
  intros Hs Hc. destruct (re_match pat ln) as [m|] eqn:E; [| reflexivity].
  exfalso. unfold pat in E.
  apply re_match_rep_inv in E as (a & b & r1 & -> & Ha & _ & E & _).
  apply re_match_rep_inv in E as (d & b' & r2 & -> & Hd & Hl & _ & _).
  destruct d as [|x d]; [simpl in Hl; lia |].
  simpl in Hd. apply andb_true_iff in Hd as [Hx _].
  unfold strip in Hs. rewrite lstrip_spaces in Hs by assumption.
  change (String x d ++ b') with (String x (d ++ b')) in Hs.
  rewrite lstrip_id in Hs by (simpl; now apply digit_not_space).
  destruct (rstrip_head x (d ++ b') (digit_not_space x Hx)) as (r' & Hr).
  rewrite Hr in Hs. injection Hs as -> _. congruence.
Qed.

Lemma label_not_record ln : is_label_line ln = true -> re_match pat ln = None.
Proof.
  unfold is_label_line, section_label. intros H.
  destruct (strip ln) as [|c r] eqn:E; [discriminate |].
  apply (pat_needs_digit ln c r E).
  cbn [startswith] in H. apply andb_true_iff in H as [H _].
  apply Ascii.eqb_eq in H. now subst c.
Qed.

(** X6.  Without the footer phrase the section ends at the first rule
    line under the label.  When a rule of dashes or stars stands
    directly under the label, as it frames a heading, the window is the
    label line alone and the extractor raises [NoModesFound], whatever
    follows. *)
Theorem rule_under_label_ends_section (pre : list string)
    (label rule : string) (post : list string) :
  (forall ln, List.In ln pre -> is_label_line ln = false) ->
  is_label_line label = true ->
  is_rule_line rule = true ->
  (forall ln, List.In ln (label :: rule :: post) -> is_footer_line ln = false) ->
  parse_orca_ir (pre ++ label :: rule :: post)%list = Raise NoModesFound.
Proof.
  intros Hpre Hlab Hrule Hfoot.
  assert (parse_orca_ir (pre ++ label :: rule :: post)%list
          = parse_orca_ir (label :: rule :: post)) as ->.
  { induction pre as [|ln pre IH]; [reflexivity |].
    simpl. rewrite parse_orca_ir_cons by (apply Hpre; now left).
    apply IH. intros l Hl. apply Hpre. now right. }
  set (lines := label :: rule :: post).
  assert (section_start lines = Some 0%nat) as Hs.
  { unfold section_start, lines. simpl. unfold line_at. simpl.
    now rewrite Hlab. }
  assert (section_end lines 0 = 1%nat) as He.
  { unfold section_end.
    replace (first_from _ (length lines - 0) 0) with (@None nat).
    - unfold lines. simpl.
      replace (is_fallback_end (label :: rule :: post) 1) with true;
        [reflexivity |].
      unfold is_fallback_end, line_at. simpl nth.
      unfold is_rule_line in Hrule.
      destruct (startswith "---" (strip rule)),
               (startswith "**********" (strip rule));
        try discriminate; now rewrite ?orb_true_r.
    - symmetry. apply first_from_none. intros k Hk.
      apply Hfoot. apply nth_In. unfold lines in Hk. lia. }
  unfold parse_orca_ir. rewrite Hs, He. unfold lines, slice. simpl.
  unfold orca_step. now rewrite label_not_record.
Qed.

Lemma rule_under_label_ends_section_witness :
  parse_orca_ir
    (["-----------"]
     ++ "IR SPECTRUM" :: "-----------"
     :: [""; "  6:   100.00   0.001234    5.00"])%list
  = Raise NoModesFound.
Proof.
  apply (rule_under_label_ends_section ["-----------"] "IR SPECTRUM"
           "-----------" [""; "  6:   100.00   0.001234    5.00"]).
  - intros ln [<- | []]. reflexivity.
  - reflexivity.
  - reflexivity.
  - intros ln [<- | [<- | [<- | [<- | []]]]]; reflexivity.
Defined.


(* ----------------------------------------------------------------- *)
(** ** The merger: no match, failures, warnings *)

(** The key that the scan finds is a key of the mapping. *)
Lemma find_match_get d f k :
  find_match d f = Some k -> exists v, dict_get k d = Some v.
Proof.
  induction d as [|[k0 v0] d IH]; simpl; [discriminate |].
  destruct (within_tolerance (freq v0) f).
  - intros [= ->]. rewrite Z.eqb_refl. eauto.
  - intros H. destruct (Z.eqb k0 k); eauto.
Qed.

(** X7.  When no line of the report is a header with a numeral that
    [int] or [float] rejects (see [unmergeable_iff]) and no header line
    is within tolerance of a record, an empty mapping included, the
    merger emits every line as it read it, replaces nothing, leaves the
    mapping whole and warns that nothing was updated. *)
Theorem merger_without_match (lines : list string) (orca : orca_dict) :
  (forall ln, List.In ln lines -> mergeable ln = true) ->
  (forall ln kv, List.In ln lines -> List.In kv orca ->
                 header_near (snd kv) ln = false) ->
  exists st,
    replace_vmard_ir lines orca = Ok st
    /\ out st = lines
    /\ replacements_made st = 0%nat
    /\ remaining_orca_modes st = orca
    /\ merge_warnings st = [NothingUpdated].
Proof.
  intros Hm Hn. eexists. split.
  - unfold replace_vmard_ir. apply merge_loop_pass; [exact Hm |].
    simpl. intros ln vm f Hin Hp. apply find_match_none.
    intros kv Hkv. specialize (Hn ln kv Hin Hkv).
    unfold header_near in Hn. rewrite Hp in Hn. exact Hn.
  - simpl. repeat split.
Qed.

Lemma merger_without_match_witness :
  exists st,
    replace_vmard_ir
      ["Mode 1:  100.00 cm-1 (IR: 0.00)"; "+0.50 (50.0%) BOND C1 H2"]
      [(6, {| freq := S754_finite false 5277655813324800 (-45);
              ir := S754_finite false 5629499534213120 (-50) |})]
    = Ok st
    /\ out st = ["Mode 1:  100.00 cm-1 (IR: 0.00)"; "+0.50 (50.0%) BOND C1 H2"]
    /\ replacements_made st = 0%nat
    /\ remaining_orca_modes st
       = [(6, {| freq := S754_finite false 5277655813324800 (-45);
                 ir := S754_finite false 5629499534213120 (-50) |})]
    /\ merge_warnings st = [NothingUpdated].
Proof.
  apply (merger_without_match
           ["Mode 1:  100.00 cm-1 (IR: 0.00)"; "+0.50 (50.0%) BOND C1 H2"]
           [(6, {| freq := S754_finite false 5277655813324800 (-45);
                   ir := S754_finite false 5629499534213120 (-50) |})]).
  - intros ln [<- | [<- | []]]; reflexivity.
  - intros ln kv [<- | [<- | []]] [<- | []]; vm_compute; reflexivity.
Defined.

Lemma merge_step_raises st ln e :
  merge_step st ln = Raise e ->
  exists m, re_match pat_mode ln = Some m
            /\ (e = InvalidInt (group m 1)
                \/ (py_float (group m 2) = None
                    /\ e = InvalidFloat (group m 2))).
Proof.
  unfold merge_step. destruct (re_match pat_mode ln) as [m|] eqn:E;
    [| discriminate].
  intros H. exists m. split; [reflexivity |]. revert H.
  unfold to_int, to_float.
  destruct (py_int (group m 1)) as [z|]; simpl;
    [| intros [= <-]; now left].
  destruct (py_float (group m 2)) as [x|] eqn:Ex; simpl.
  - destruct (find_match (remaining_orca_modes st) x) as [k|] eqn:Ef;
      [| discriminate].
    destruct (find_match_get _ _ _ Ef) as (v & ->). discriminate.
  - intros [= <-]. now right.
Qed.

(** X8.  The loop of the merger fails in one way only: with the
    [ValueError] of a numeral of a header line, the mode number or the
    frequency, that [int] or [float] rejects.  The intensity field of
    the report is not converted, and the removal of a matched record
    never raises a [KeyError], whatever the mapping. *)
Theorem merger_fails_on_numerals_only
    (lines : list string) (orca : orca_dict) (e : error) :
  replace_vmard_ir lines orca = Raise e ->
  exists ln m,
    List.In ln lines
    /\ re_match pat_mode ln = Some m
    /\ (e = InvalidInt (group m 1)
        \/ (py_float (group m 2) = None /\ e = InvalidFloat (group m 2))).
Proof.
  unfold replace_vmard_ir. generalize {| out := []; replacements_made := 0;
                                         remaining_orca_modes := orca |}.
  induction lines as [|ln l IH]; intros st; simpl; [discriminate |].
  destruct (merge_step st ln) as [st'|e'] eqn:E; simpl.
  - intros H. destruct (IH st' H) as (ln' & m & Hin & Hm).
    exists ln', m. split; [now right | exact Hm].
  - intros [= <-]. apply merge_step_raises in E as (m & Hm).
    exists ln, m. split; [now left | exact Hm].
Qed.

Lemma merger_fails_on_numerals_only_witness :
  exists ln m,
    List.In ln ["Vibrations"; "Mode 1:  1.2.3 cm-1 (IR: 0.00)"]
    /\ re_match pat_mode ln = Some m
    /\ (InvalidFloat "1.2.3" = InvalidInt (group m 1)
        \/ (py_float (group m 2) = None
            /\ InvalidFloat "1.2.3" = InvalidFloat (group m 2))).
Proof.
  apply (merger_fails_on_numerals_only
           ["Vibrations"; "Mode 1:  1.2.3 cm-1 (IR: 0.00)"] []
           (InvalidFloat "1.2.3")).
  vm_compute. reflexivity.
Defined.

Lemma dict_del_sublist k d : dict_del k d `sublist_of` d.
Proof.
  induction d as [|[k0 v0] d IH]; simpl; [constructor |].
  destruct (Z.eqb k0 k).
  - now apply sublist_cons.
  - now apply sublist_skip.
Qed.

Lemma dict_del_length k d v :
  dict_get k d = Some v -> S (length (dict_del k d)) = length d.
Proof.
  induction d as [|[k0 v0] d IH]; simpl; [discriminate |].
  destruct (Z.eqb k0 k); [reflexivity |].
  intros H. simpl. now rewrite IH.
Qed.

Lemma sublist_same_length {A} (l1 l2 : list A) :
  l1 `sublist_of` l2 -> length l1 = length l2 -> l1 = l2.
Proof.
  induction 1 as [|x l1 l2 Hs IH|x l1 l2 Hs IH]; simpl; intros Hl.
  - reflexivity.
  - f_equal. apply IH. lia.
  - apply sublist_length in Hs. lia.
Qed.

Lemma merge_step_counts st ln st' :
  merge_step st ln = Ok st' ->
  remaining_orca_modes st' `sublist_of` remaining_orca_modes st
  /\ (replacements_made st' + length (remaining_orca_modes st')
      = replacements_made st + length (remaining_orca_modes st))%nat.
Proof.
  rewrite merge_step_header.
  destruct (parse_header ln) as [[[vm f]|]|e]; simpl; [| | discriminate].
  - destruct (find_match (remaining_orca_modes st) f) as [k|].
    + destruct (dict_get k (remaining_orca_modes st)) as [v|] eqn:Eg;
        [| discriminate].
      intros [= <-]. simpl. split; [apply dict_del_sublist |].
      apply dict_del_length in Eg. lia.
    + intros [= <-]. simpl. split; [reflexivity | lia].
  - intros [= <-]. simpl. split; [reflexivity | lia].
Qed.

Lemma merge_loop_counts lines st st' :
  for_each merge_step lines st = Ok st' ->
  remaining_orca_modes st' `sublist_of` remaining_orca_modes st
  /\ (replacements_made st' + length (remaining_orca_modes st')
      = replacements_made st + length (remaining_orca_modes st))%nat.
Proof.
  revert st. induction lines as [|ln l IH]; intros st; simpl.
  - intros [= <-]. split; [reflexivity | lia].
  - destruct (merge_step st ln) as [st1|e] eqn:E; simpl; [| discriminate].
    intros H. apply IH in H as [Hs Hc].
    apply merge_step_counts in E as [Hs1 Hc1]. split.
    + now transitivity (remaining_orca_modes st1).
    + lia.
Qed.

(** X9.  What the warnings of the merger tell, on every run that ends.
    "Nothing updated" is printed exactly when the mapping is left as it
    was given.  No warning is printed exactly when the mapping was not
    empty and every record was consumed.  The other warning counts the
    records left: fewer than were given, the given ones less the
    replacements, listed in the order of the mapping. *)
Theorem merger_warnings_tell
    (lines : list string) (orca : orca_dict) (st : merge_state) :
  replace_vmard_ir lines orca = Ok st ->
  (merge_warnings st = [NothingUpdated] <-> remaining_orca_modes st = orca)
  /\ (merge_warnings st = [] <->
      orca <> [] /\ remaining_orca_modes st = [])
  /\ (forall n fs,
        merge_warnings st = [Unmatched n fs] ->
        (0 < n < length orca)%nat
        /\ n = (length orca - replacements_made st)%nat
        /\ fs = map (fun kv => freq (snd kv)) (remaining_orca_modes st)
        /\ remaining_orca_modes st `sublist_of` orca).
Proof.
  intros H. apply merge_loop_counts in H as [Hs Hc]. simpl in Hs, Hc.
  unfold merge_warnings.
  destruct (replacements_made st) as [|r] eqn:Er; simpl.
  - split; [| split].
    + split; [intros _ | reflexivity].
      apply sublist_same_length; [assumption | lia].
    + split; [discriminate |]. intros [Hne Hnil].
      rewrite Hnil in Hc. simpl in Hc. destruct orca; [congruence |].
      simpl in Hc. lia.
    + discriminate.
  - destruct (remaining_orca_modes st) as [|kv rem] eqn:Erem.
    + split; [| split].
      * split; [discriminate |]. intros <-. simpl in Hc. lia.
      * split; [intros _ | reflexivity]. split; [| reflexivity].
        intros ->. simpl in Hc. lia.
      * discriminate.
    + split; [| split].
      * split; [discriminate |]. intros <-. simpl in Hc. lia.
      * split; [discriminate | intros [_ ?]; discriminate].
      * intros n fs [= <- <-]. simpl in *. repeat split; try lia.
        exact Hs.
Qed.

Lemma merger_warnings_tell_witness :
  exists st,
    replace_vmard_ir
      ["Mode 1:  100.00 cm-1 (IR: 0.00)"]
      [(6, {| freq := S754_finite false 7036874417766400 (-46);
              ir := S754_finite false 5629499534213120 (-50) |})]
    = Ok st
    /\ (merge_warnings st = [] <->
        [(6, {| freq := S754_finite false 7036874417766400 (-46);
                ir := S754_finite false 5629499534213120 (-50) |})] <> []
        /\ remaining_orca_modes st = []).
Proof.
  eexists. split; [vm_compute; reflexivity |].
  refine (proj1 (proj2 (merger_warnings_tell
            ["Mode 1:  100.00 cm-1 (IR: 0.00)"]
            [(6, {| freq := S754_finite false 7036874417766400 (-46);
                    ir := S754_finite false 5629499534213120 (-50) |})]
            _ _))).
  vm_compute. reflexivity.
Defined.


(* ----------------------------------------------------------------- *)
(** ** The report parser *)

Lemma append_contrib_last modes m c :
  append_contrib (modes ++ [m])%list c = (modes ++ [with_more m [c]])%list.
Proof.
  induction modes as [|m0 ms IH]; [reflexivity |].
  change ((m0 :: ms) ++ [m])%list with (m0 :: (ms ++ [m]))%list.
  change ((m0 :: ms) ++ [with_more m [c]])%list
    with (m0 :: (ms ++ [with_more m [c]]))%list.
  rewrite <- IH. simpl. destruct (ms ++ [m])%list eqn:E; [| reflexivity].
  destruct ms; discriminate.
Qed.

Lemma append_contrib_keys modes c :
  map mode_key (append_contrib modes c) = map mode_key modes.
Proof.
  induction modes as [|m [|m1 ms] IH]; try reflexivity.
  change (append_contrib (m :: m1 :: ms) c)
    with (m :: append_contrib (m1 :: ms) c).
  rewrite List.map_cons, IH. reflexivity.
Qed.

Lemma parse_step_header_line modes ln :
  is_header_line ln = true ->
  parse_step modes ln =
  match re_match pat_mode ln with
  | Some m =>
      let* idx := to_int (group m 1) in
      let* f := to_float (group m 2) in
      let* i := to_float (group m 3) in
      Ok (modes ++ [{| Mode := idx; Freq := f; IR := i; Contrib := [] |}])%list
  | None => Ok modes
  end.
Proof.
  unfold is_header_line, parse_step.
  destruct (re_match pat_mode ln); [reflexivity | discriminate].
Qed.

Lemma parse_step_other_line modes ln :
  is_header_line ln = false ->
  parse_step modes ln =
  if is_signed_line ln && negb (is_nil modes)
  then match re_match pat_contrib ln with
       | Some m2 =>
           let* pct := to_float (group m2 2) in
           Ok (append_contrib modes
                 {| ctype := group m2 3;
                    atoms := split_ws (group m2 4);
                    weight := fdiv pct hundred |})
       | None => Ok modes
       end
  else Ok modes.
Proof.
  unfold is_header_line, parse_step.
  destruct (re_match pat_mode ln); [discriminate | reflexivity].
Qed.

Lemma header_fields_other ln : is_header_line ln = false -> header_fields ln = None.
Proof.
  unfold is_header_line, header_fields.
  destruct (re_match pat_mode ln); [discriminate | reflexivity].
Qed.

(** One step of the loop adds the mode of a header line and keeps the
    modes before it. *)
Lemma parse_step_keys modes ln modes' :
  parse_step modes ln = Ok modes' ->
  map mode_key modes'
  = (map mode_key modes
     ++ match header_fields ln with Some h => [h] | None => [] end)%list
  /\ length modes'
     = (length modes + if is_header_line ln then 1 else 0)%nat.
Proof.
  destruct (is_header_line ln) eqn:Eh.
  - rewrite parse_step_header_line by assumption.
    unfold header_fields, to_int, to_float. unfold is_header_line in Eh.
    destruct (re_match pat_mode ln) as [m|]; [| discriminate].
    destruct (py_int (group m 1)); simpl; [| discriminate].
    destruct (py_float (group m 2)); simpl; [| discriminate].
    destruct (py_float (group m 3)); simpl; [| discriminate].
    intros [= <-]. rewrite map_app, length_app. split; [reflexivity |].
    simpl. lia.
  - rewrite parse_step_other_line, header_fields_other by assumption.
    rewrite app_nil_r, Nat.add_0_r.
    assert (forall c, map mode_key (append_contrib modes c)
                      = map mode_key modes
                      /\ length (append_contrib modes c) = length modes)
      as Ha.
    { intros c. pose proof (append_contrib_keys modes c) as Hk.
      split; [exact Hk |].
      rewrite <- (length_map mode_key), Hk. apply length_map. }
    destruct (is_signed_line ln && negb (is_nil modes)).
    + destruct (re_match pat_contrib ln) as [m2|].
      * unfold to_float. destruct (py_float (group m2 2)); simpl;
          [| discriminate].
        intros [= <-]. apply Ha.
      * intros [= <-]. split; reflexivity.
    + intros [= <-]. split; reflexivity.
Qed.

Lemma parse_loop_keys lines modes modes' :
  for_each parse_step lines modes = Ok modes' ->
  map mode_key modes' = (map mode_key modes ++ headers_of lines)%list
  /\ length modes'
     = (length modes + length (List.filter is_header_line lines))%nat.
Proof.
  revert modes. induction lines as [|ln l IH]; intros modes; simpl.
  - intros [= <-]. rewrite app_nil_r. split; [reflexivity | lia].
  - destruct (parse_step modes ln) as [m1|e] eqn:E; simpl; [| discriminate].
    intros H. apply IH in H as [Hk Hl].
    apply parse_step_keys in E as [Hk1 Hl1].
    rewrite Hk, Hk1, Hl, Hl1, <- app_assoc. split.
    + destruct (header_fields ln); reflexivity.
    + destruct (is_header_line ln); simpl; lia.
Qed.

Lemma parse_step_raises modes ln e :
  parse_step modes ln = Raise e ->
  (exists s, e = InvalidFloat s) \/ (exists s, e = InvalidInt s).
Proof.
  unfold parse_step, to_int, to_float.
  destruct (re_match pat_mode ln) as [m|].
  - destruct (py_int (group m 1)); simpl; [| intros [= <-]; eauto].
    destruct (py_float (group m 2)); simpl; [| intros [= <-]; eauto].
    destruct (py_float (group m 3)); simpl; [| intros [= <-]; eauto].
    discriminate.
  - destruct (_ && _); [| discriminate].
    destruct (re_match pat_contrib ln) as [m2|]; [| discriminate].
    destruct (py_float (group m2 2)); simpl; [| intros [= <-]; eauto].
    discriminate.
Qed.

Lemma parse_loop_raises lines modes e :
  for_each parse_step lines modes = Raise e ->
  (exists s, e = InvalidFloat s) \/ (exists s, e = InvalidInt s).
Proof.
  revert modes. induction lines as [|ln l IH]; intros modes; simpl;
    [discriminate |].
  destruct (parse_step modes ln) as [m1|e1] eqn:E; simpl.
  - apply IH.
  - intros [= <-]. now apply parse_step_raises in E.
Qed.

(** Lines of which none is a header leave an empty list of modes
    empty. *)
Lemma parse_loop_no_header lines :
  (forall ln, List.In ln lines -> is_header_line ln = false) ->
  for_each parse_step lines [] = Ok [].
Proof.
  induction lines as [|ln l IH]; intros H; [reflexivity |].
  simpl. rewrite parse_step_other_line by (apply H; now left).
  simpl is_nil. rewrite andb_false_r. simpl.
  apply IH. intros l0 Hl. apply H. now right.
Qed.

Lemma filter_nil_iff {A} (P : A -> bool) l :
  List.filter P l = [] <-> (forall x, List.In x l -> P x = false).
Proof.
  induction l as [|a l IH]; simpl.
  - split; [intros _ x [] | reflexivity].
  - destruct (P a) eqn:E.
    + split; [discriminate |]. intros H.
      rewrite (H a (or_introl eq_refl)) in E. discriminate.
    + rewrite IH. split.
      * intros H x [<- | Hx]; auto.
      * intros H x Hx. apply H. now right.
Qed.

(** X10.  The parser raises [NoModesInReport] exactly when no line of
    the report matches the mode-header pattern; contribution lines alone
    give no mode. *)
Theorem parser_no_modes_iff (lines : list string) :
  parse_aligned_nma lines = Raise NoModesInReport
  <-> (forall ln, List.In ln lines -> is_header_line ln = false).
Proof.
  unfold parse_aligned_nma. split.
  - destruct (for_each parse_step lines []) as [modes|e] eqn:E; simpl.
    + apply parse_loop_keys in E as [_ Hl]. simpl in Hl.
      destruct modes; [| discriminate]. intros _.
      apply filter_nil_iff. apply length_zero_iff_nil. simpl in Hl. lia.
    + intros [= ->].
      apply parse_loop_raises in E as [[s Hs] | [s Hs]]; discriminate.
  - intros H. now rewrite parse_loop_no_header.
Qed.

Lemma parser_no_modes_iff_witness :
  parse_aligned_nma ["Vibrational analysis"; "+0.50 (50.0%) BOND C1 H2"]
  = Raise NoModesInReport.
Proof.
  apply (proj2 (parser_no_modes_iff
                  ["Vibrational analysis"; "+0.50 (50.0%) BOND C1 H2"])).
  intros ln [<- | [<- | []]]; reflexivity.
Defined.

(** X11.  When the parser returns, it returns one mode per header line,
    in the order of the lines, each with the mode number, the frequency
    and the intensity that its header carries. *)
Theorem parser_one_mode_per_header
    (lines : list string) (modes : list mode_record) :
  parse_aligned_nma lines = Ok modes ->
  map mode_key modes = headers_of lines
  /\ length modes = length (List.filter is_header_line lines).
Proof.
  unfold parse_aligned_nma.
  destruct (for_each parse_step lines []) as [ms|e] eqn:E; simpl;
    [| discriminate].
  destruct ms as [|m ms]; [discriminate |]. intros [= <-].
  apply parse_loop_keys in E as [Hk Hl]. split; assumption.
Qed.

Lemma parser_one_mode_per_header_witness :
  exists modes,
    parse_aligned_nma
      ["Mode 7:  100.00 cm-1 (IR: 5.00)"; "+0.50 (50.0%) BOND C1 H2";
       "Mode 8:  200.00 cm-1 (IR: 0.25)"]
    = Ok modes
    /\ map mode_key modes
       = headers_of
           ["Mode 7:  100.00 cm-1 (IR: 5.00)"; "+0.50 (50.0%) BOND C1 H2";
            "Mode 8:  200.00 cm-1 (IR: 0.25)"]
    /\ length modes = 2%nat.
Proof.
  eexists. split; [vm_compute; reflexivity |].
  apply (parser_one_mode_per_header
           ["Mode 7:  100.00 cm-1 (IR: 5.00)"; "+0.50 (50.0%) BOND C1 H2";
            "Mode 8:  200.00 cm-1 (IR: 0.25)"]).
  vm_compute. reflexivity.
Defined.

Lemma with_more_nil m : with_more m [] = m.
Proof. destruct m. unfold with_more. simpl. now rewrite app_nil_r. Qed.

Lemma with_more_more m cs cs' :
  with_more (with_more m cs) cs' = with_more m (cs ++ cs')%list.
Proof. unfold with_more. simpl. now rewrite app_assoc. Qed.

Lemma parse_step_body modes m ln :
  is_header_line ln = false -> bad_percent ln = false ->
  parse_step (modes ++ [m])%list ln =
  Ok (modes ++ [with_more m match contribution_of ln with
                            | Some c => [c]
                            | None => []
                            end])%list.
Proof.
  intros Hh Hb. rewrite parse_step_other_line by assumption.
  unfold contribution_of, bad_percent in *.
  assert (is_nil (modes ++ [m])%list = false) as ->
    by (destruct modes; reflexivity).
  destruct (is_signed_line ln); cbn [andb negb];
    [| now rewrite with_more_nil].
  destruct (re_match pat_contrib ln) as [m2|]; [| now rewrite with_more_nil].
  unfold to_float. cbn [andb] in Hb.
  destruct (py_float (group m2 2)); [| discriminate]. unfold bind.
  now rewrite append_contrib_last.
Qed.

Lemma parse_loop_body body modes m :
  (forall ln, List.In ln body -> is_header_line ln = false) ->
  (forall ln, List.In ln body -> bad_percent ln = false) ->
  for_each parse_step body (modes ++ [m])%list
  = Ok (modes ++ [with_more m (contributions_of body)])%list.
Proof.
  revert m. induction body as [|ln l IH]; intros m Hh Hb; simpl.
  - now rewrite with_more_nil.
  - rewrite parse_step_body by (auto using in_eq). simpl.
    rewrite IH by (intros; auto using in_cons).
    rewrite with_more_more. destruct (contribution_of ln); reflexivity.
Qed.

(** X12.  Every contribution goes to the mode of the nearest header
    above it, in the order of the lines: lines without a header that
    follow a parsed report add their contributions after those of its
    last mode and change nothing else. *)
Theorem contributions_follow_header
    (pre body : list string) (modes : list mode_record) (m : mode_record) :
  parse_aligned_nma pre = Ok (modes ++ [m])%list ->
  (forall ln, List.In ln body -> is_header_line ln = false) ->
  (forall ln, List.In ln body -> bad_percent ln = false) ->
  parse_aligned_nma (pre ++ body)%list
  = Ok (modes ++ [with_more m (contributions_of body)])%list.
Proof.
  unfold parse_aligned_nma. intros H Hh Hb.
  destruct (for_each parse_step pre []) as [ms|e] eqn:E; simpl in H;
    [| discriminate].
  destruct ms as [|m0 ms]; [discriminate |]. injection H as H.
  rewrite for_each_app, E. simpl. rewrite H, parse_loop_body by assumption.
  simpl. destruct modes; reflexivity.
Qed.

Lemma contributions_follow_header_witness :
  parse_aligned_nma
    (["Mode 7:  100.00 cm-1 (IR: 5.00)"]
     ++ ["+0.50 (50.0%) BOND C1 H2"; "  total"; "-0.25 (25.0%) ANGLE C1 C2 H3"])%list
  = Ok ([] ++ [with_more
                 {| Mode := 7;
                    Freq := S754_finite false 7036874417766400 (-46);
                    IR := S754_finite false 5629499534213120 (-50);
                    Contrib := [] |}
                 (contributions_of
                    ["+0.50 (50.0%) BOND C1 H2"; "  total";
                     "-0.25 (25.0%) ANGLE C1 C2 H3"])])%list.
Proof.
  apply (contributions_follow_header
           ["Mode 7:  100.00 cm-1 (IR: 5.00)"]
           ["+0.50 (50.0%) BOND C1 H2"; "  total";
            "-0.25 (25.0%) ANGLE C1 C2 H3"]
           []
           {| Mode := 7;
              Freq := S754_finite false 7036874417766400 (-46);
              IR := S754_finite false 5629499534213120 (-50);
              Contrib := [] |}).
  - vm_compute. reflexivity.
  - intros ln [<- | [<- | [<- | []]]]; vm_compute; reflexivity.
  - intros ln [<- | [<- | [<- | []]]]; vm_compute; reflexivity.
Defined.

(** X13.  Lines above the first header are not read for contributions:
    lines of which none is a header can be put before a report, or taken
    away from its head, without a change of the result. *)
Theorem parser_ignores_leading_lines (pre lines : list string) :
  (forall ln, List.In ln pre -> is_header_line ln = false) ->
  parse_aligned_nma (pre ++ lines)%list = parse_aligned_nma lines.
Proof.
  intros H. unfold parse_aligned_nma.
  now rewrite for_each_app, parse_loop_no_header.
Qed.

Lemma parser_ignores_leading_lines_witness :
  parse_aligned_nma
    (["+0.50 (50.0%) BOND C1 H2"; "+1.2.3 (1.2.3%) BOND C1 H2"]
     ++ ["Mode 7:  100.00 cm-1 (IR: 5.00)"])%list
  = parse_aligned_nma ["Mode 7:  100.00 cm-1 (IR: 5.00)"].
Proof.
  apply (parser_ignores_leading_lines
           ["+0.50 (50.0%) BOND C1 H2"; "+1.2.3 (1.2.3%) BOND C1 H2"]
           ["Mode 7:  100.00 cm-1 (IR: 5.00)"]).
  intros ln [<- | [<- | []]]; vm_compute; reflexivity.
Defined.

(** The groups of a line that the contribution pattern matches. *)
Lemma pat_contrib_groups ln m :
  re_match pat_contrib ln = Some m ->
  exists g1 g2 g3 g4,
    m = [g1; g2; g3; g4]
    /\ all_in is_digit_or_dot g2 = true /\ g2 <> ""
    /\ all_in is_word g3 = true /\ g3 <> "".
Proof.
  unfold pat_contrib. intros H. invert_match. subst.
  eexists _, _, _, _. split; [reflexivity |].
  repeat split; auto;
    match goal with
    | Hl : (1 <= String.length ?a)%nat |- ?a <> "" =>
        intros E; rewrite E in Hl; simpl in Hl; lia
    end.
Qed.

Lemma hundred_finite : hundred = S754_finite false 7036874417766400 (-46).
Proof. vm_compute. reflexivity. Qed.

Lemma fdiv_hundred_plain x :
  plain_number x = true -> plain_number (fdiv x hundred) = true.
Proof.
  rewrite hundred_finite. unfold plain_number, fdiv.
  destruct x as [[]|[]| |[] m e]; try discriminate; try reflexivity.
  intros _.
  destruct (fdiv_finite_plain false m e 7036874417766400 (-46)) as [Hn Hu].
  now rewrite Hu, Hn.
Qed.

Lemma append_contrib_In modes c m :
  List.In m (append_contrib modes c) ->
  List.In m modes
  \/ exists m0, List.In m0 modes /\ m = with_more m0 [c].
Proof.
  induction modes as [|m0 [|m1 ms] IH].
  - intros [].
  - intros [<- | []]. right. exists m0. split; [now left | reflexivity].
  - change (append_contrib (m0 :: m1 :: ms) c)
      with (m0 :: append_contrib (m1 :: ms) c).
    intros [<- | H]; [left; now left |].
    destruct (IH H) as [Hin | (m' & Hin & ->)].
    + left. now right.
    + right. exists m'. split; [now right | reflexivity].
Qed.

Lemma parse_step_plain modes ln modes' :
  (forall m, List.In m modes -> plain_mode m) ->
  parse_step modes ln = Ok modes' ->
  forall m, List.In m modes' -> plain_mode m.
Proof.
  intros Hp. unfold parse_step.
  destruct (re_match pat_mode ln) as [mt|] eqn:E.
  - destruct (pat_mode_groups ln mt E)
      as (g1 & g2 & g3 & -> & H1 & _ & H2 & _ & H3 & _).
    unfold to_int, to_float, group. simpl.
    destruct (py_int g1) as [z|] eqn:Ez; simpl; [| discriminate].
    destruct (py_float g2) as [x|] eqn:Ex; simpl; [| discriminate].
    destruct (py_float g3) as [y|] eqn:Ey; simpl; [| discriminate].
    intros [= <-] m Hin. apply in_app_or in Hin as [Hin | [<- | []]]; auto.
    unfold plain_mode. simpl. split; [| split; [| split]].
    + eapply py_int_nonneg; eassumption.
    + exact (py_float_plain g2 x H2 Ex).
    + exact (py_float_plain g3 y H3 Ey).
    + intros c [].
  - destruct (_ && _); [| intros [= <-]; exact Hp].
    destruct (re_match pat_contrib ln) as [m2|] eqn:E2;
      [| intros [= <-]; exact Hp].
    destruct (pat_contrib_groups ln m2 E2)
      as (g1 & g2 & g3 & g4 & -> & H2 & _).
    unfold to_float, group. simpl.
    destruct (py_float g2) as [pct|] eqn:Ep; simpl; [| discriminate].
    intros [= <-] m Hin.
    apply append_contrib_In in Hin as [Hin | (m0 & Hin & ->)]; auto.
    destruct (Hp m0 Hin) as (Hm & Hf & Hi & Hc).
    unfold plain_mode. simpl. split; [| split; [| split]]; auto.
    intros c Hc'. apply in_app_or in Hc' as [Hc' | [<- | []]]; auto.
    simpl. apply fdiv_hundred_plain. exact (py_float_plain g2 pct H2 Ep).
Qed.

(** X14.  Every mode that the parser returns has a mode number that is
    not negative, a frequency and an intensity that are numbers without
    a minus sign (never NaN), and contributions whose weights are such
    numbers too: the sort of the aggregator never meets a NaN weight. *)
Theorem parsed_modes_plain (lines : list string) (modes : list mode_record) :
  parse_aligned_nma lines = Ok modes ->
  forall m, List.In m modes ->
    plain_mode m
    /\ forall c, List.In c (Contrib m) -> is_nan (weight c) = false.
Proof.
  unfold parse_aligned_nma.
  destruct (for_each parse_step lines []) as [ms|e] eqn:E; simpl;
    [| discriminate].
  destruct ms as [|m0 ms]; [discriminate |]. intros [= <-].
  assert (forall m, List.In m (m0 :: ms) -> plain_mode m) as Hp.
  { revert E. generalize (m0 :: ms). clear m0 ms.
    assert (forall m, List.In m (@nil mode_record) -> plain_mode m) as H0
      by (intros m []).
    revert H0. generalize (@nil mode_record).
    induction lines as [|ln l IH]; intros st Hst res; simpl.
    - now intros [= <-].
    - destruct (parse_step st ln) as [st1|e1] eqn:E1; simpl; [| discriminate].
      apply IH. eapply parse_step_plain; eassumption. }
  intros m Hin. split; [now apply Hp |].
  intros c Hc. destruct (Hp m Hin) as (_ & _ & _ & Hw).
  specialize (Hw c Hc). unfold plain_number in Hw.
  apply andb_true_iff in Hw as [_ Hw]. now apply negb_true_iff in Hw.
Qed.

Lemma parsed_modes_plain_witness :
  exists modes,
    parse_aligned_nma
      ["Mode 7:  100.00 cm-1 (IR: 5.00)"; "-0.50 (50.0%) BOND C1 H2"]
    = Ok modes
    /\ forall m, List.In m modes ->
         plain_mode m
         /\ forall c, List.In c (Contrib m) -> is_nan (weight c) = false.
Proof.
  eexists. split; [vm_compute; reflexivity |].
  apply (parsed_modes_plain
           ["Mode 7:  100.00 cm-1 (IR: 5.00)"; "-0.50 (50.0%) BOND C1 H2"]).
  vm_compute. reflexivity.
Defined.


(* ----------------------------------------------------------------- *)
(** ** The round trip through the merger and the parser *)

(** C4, as the code has it.  Take a header line whose frequency the
    merger matches with a remaining record, the first within tolerance,
    whose intensity is finite and carries no minus sign.  The merger
    emits the header with the frequency and the intensity written with
    two decimals.  On that line, whatever ends it, the report parser
    appends a mode record with the merger's mode number, no
    contribution, and for frequency and intensity the doubles nearest
    to the two-decimal numbers written: the merger's values to
    two-decimal precision.  On every report that holds the emitted
    line, whatever stands before it, ends it and follows it, as does
    the merged output when the parser reads it, and on which the parser
    returns, the modes returned hold, at the place of the emitted line
    among the header lines, a mode with the merger's mode number and
    those two values. *)
Theorem merged_header_round_trip
    (st : merge_state) (ln : string) (vm : Z) (f : float)
    (r1 r2 : orca_dict) (k : Z) (v : spectrum) :
  parse_header ln = Ok (Some (vm, f)) ->
  remaining_orca_modes st = (r1 ++ (k, v) :: r2)%list ->
  List.NoDup (dict_keys (remaining_orca_modes st)) ->
  (forall kv, List.In kv r1 -> near f kv = false) ->
  within_tolerance (freq v) f = true ->
  printable (ir v) = true ->
  let emitted := new_line vm f (ir v) in
  let record := {| Mode := vm; Freq := two_decimals f;
                   IR := two_decimals (ir v); Contrib := [] |} in
  (exists st', merge_step st ln = Ok st'
               /\ out st' = (out st ++ [emitted])%list)
  /\ py_float (fmt2 f) = Some (two_decimals f)
  /\ py_float (fmt2 (ir v)) = Some (two_decimals (ir v))
  /\ (forall modes suffix,
        parse_step modes (emitted ++ suffix) = Ok (modes ++ [record])%list)
  /\ parse_aligned_nma [emitted ++ nl] = Ok [record]
  /\ (forall pre suffix post modes,
        parse_aligned_nma (pre ++ (emitted ++ suffix)%string :: post)%list
        = Ok modes ->
        exists before m after,
          modes = (before ++ m :: after)%list
          /\ length before = length (List.filter is_header_line pre)
          /\ Mode m = vm
          /\ Freq m = two_decimals f
          /\ IR m = two_decimals (ir v)).
Proof.
  intros Hh Hr Hnd H1 Hv Hp emitted record.
  destruct (matched_frequency_printable ln vm f v Hh Hv) as [Hvm Hf].
  pose proof (py_float_fmt2_printable f Hf) as Ef.
  pose proof (py_float_fmt2_printable (ir v) Hp) as Ei.
  assert (py_int (py_str vm) = Some vm) as Evm.
  { unfold parse_header, to_int in Hh.
    destruct (re_match pat_mode ln) as [m|]; [| discriminate].
    destruct (py_int (group m 1)) as [z|] eqn:Ez; simpl in Hh;
      [| discriminate].
    destruct (to_float (group m 2)); simpl in Hh; [| discriminate].
    injection Hh as -> _. now apply py_int_round_trip in Ez. }
  assert (forall modes suffix,
            parse_step modes (emitted ++ suffix)
            = Ok (modes ++ [record])%list) as Hparse.
  { intros modes suffix. unfold parse_step, emitted, new_line.
    destruct (fmt2_printable f Hf) as [Hf1 Hf2].
    destruct (fmt2_printable (ir v) Hp) as [Hi1 Hi2].
    rewrite (pat_mode_new_line (py_str vm) (fmt2 f) (fmt2 (ir v)) suffix);
      auto using py_str_digits, py_str_not_empty.
    unfold group, to_int, to_float. simpl.
    rewrite Evm, Ef, Ei. reflexivity. }
  split; [| split; [exact Ef | split; [exact Ei | split; [exact Hparse |]]]].
  - eexists. split; [eapply merge_step_match; eauto | reflexivity].
  - split.
    + unfold parse_aligned_nma. cbn [for_each]. rewrite (Hparse [] nl).
      reflexivity.
    + intros pre suffix post modes H. unfold parse_aligned_nma in H.
      destruct (for_each parse_step _ []) as [ms|e] eqn:E; simpl in H;
        [| discriminate].
      assert (ms = modes) as -> by (destruct ms; [discriminate | congruence]).
      rewrite for_each_app in E.
      destruct (for_each parse_step pre []) as [ms1|e1] eqn:E1;
        [| discriminate].
      cbn [bind for_each] in E. rewrite Hparse in E. cbn [bind] in E.
      apply parse_loop_keys in E1 as [_ Hl1]. simpl in Hl1.
      apply parse_loop_keys in E as [Hk _].
      apply map_eq_app in Hk as (l1 & after & -> & Hk1 & _).
      rewrite map_app in Hk1.
      apply map_eq_app in Hk1 as (before & l2 & -> & Hkb & Hk2).
      apply map_eq_cons in Hk2 as (m & tl & -> & Hm & Htl).
      apply map_eq_nil in Htl. subst tl.
      exists before, m, after. rewrite <- app_assoc. simpl.
      split; [reflexivity |]. split.
      * rewrite <- Hl1, <- (length_map mode_key before), Hkb.
        apply length_map.
      * unfold mode_key in Hm. simpl in Hm. injection Hm as -> -> ->.
        repeat split.
Qed.

Lemma merged_header_round_trip_witness :
  let v := {| freq := S754_finite false 7036874417766400 (-46);
              ir := S754_finite false 5629499534213120 (-50) |} in
  let st := {| out := []; replacements_made := 0;
               remaining_orca_modes := [(1, v)] |} in
  (exists st', merge_step st "Mode 7: 100.004 cm-1 (IR: 0.0)" = Ok st'
               /\ out st' = ["Mode 7:  100.00 cm-1 (IR: 5.00)"])
  /\ parse_aligned_nma ["Mode 7:  100.00 cm-1 (IR: 5.00)" ++ nl]
     = Ok [{| Mode := 7;
              Freq := S754_finite false 7036874417766400 (-46);
              IR := S754_finite false 5629499534213120 (-50);
              Contrib := [] |}]
  /\ (exists before m after,
        [{| Mode := 6;
            Freq := S754_finite false 5629499534213120 (-50);
            IR := S754_zero false; Contrib := [] |};
         {| Mode := 7;
            Freq := S754_finite false 7036874417766400 (-46);
            IR := S754_finite false 5629499534213120 (-50);
            Contrib := [] |}]
        = (before ++ m :: after)%list
        /\ length before = 1%nat
        /\ Mode m = 7
        /\ Freq m = S754_finite false 7036874417766400 (-46)
        /\ IR m = S754_finite false 5629499534213120 (-50)).
Proof.
  intros v st.
  destruct (merged_header_round_trip st "Mode 7: 100.004 cm-1 (IR: 0.0)" 7
              (S754_finite false 7037155892743111 (-46)) [] [] 1 v)
    as (A & _ & _ & _ & B & C).
  - reflexivity.
  - reflexivity.
  - repeat constructor. intros [].
  - intros kv [].
  - reflexivity.
  - reflexivity.
  - split; [exact A | split; [exact B |]].
    apply (C ["title" ++ nl; "Mode 6: 5.0 cm-1 (IR: 0.0)" ++ nl] nl []).
    vm_compute. reflexivity.
Defined.

(** C4, as the specification states it, fails.  An intensity written
    with 310 digits is read by the extractor as the float infinity; the
    merger matches the record by its frequency and emits the header with
    [inf] for the intensity; the mode-header pattern does not match that
    line, so the parser yields no mode record for it. *)
Lemma infinite_intensity_counterexample :
  let big := "1" ++ repeat_str "0" 309 in
  let report := ["IR SPECTRUM"; " 1:  100.00  cm**-1  " ++ big] in
  exists orca st,
    parse_orca_ir report = Ok orca
    /\ option_map ir (dict_get 1 orca) = Some (S754_infinity false)
    /\ replace_vmard_ir ["Mode 7: 100.00 cm-1 (IR: 0.0)"] orca = Ok st
    /\ replacements_made st = 1%nat
    /\ out st = ["Mode 7:  100.00 cm-1 (IR: inf)"]
    /\ re_match pat_mode "Mode 7:  100.00 cm-1 (IR: inf)" = None
    /\ parse_step [] ("Mode 7:  100.00 cm-1 (IR: inf)" ++ nl) = Ok []
    /\ parse_aligned_nma (out st) = Raise NoModesInReport.
Proof.
  eexists _, _. split; [vm_compute; reflexivity |].
  repeat split; vm_compute; reflexivity.
Qed.

(* ----------------------------------------------------------------- *)
(** ** The aggregator: totals and the heaviest contributions *)

Lemma count_of_cons key c cs :
  count_of key (c :: cs)
  = (if String.eqb (upper (ctype c)) key then 1 else 0) + count_of key cs.
Proof.
  unfold count_of. simpl.
  destruct (String.eqb (upper (ctype c)) key); simpl length; lia.
Qed.

Lemma count_of_nonneg key cs : 0 <= count_of key cs.
Proof. unfold count_of. lia. Qed.

(** The four canonical buckets take one contribution each at most. *)
Lemma canonical_indicator (t : string) :
  let n := (if String.eqb t "BOND" then 1 else 0)
           + (if String.eqb t "ANGLE" then 1 else 0)
           + (if String.eqb t "OUT" then 1 else 0)
           + (if String.eqb t "TORSION" then 1 else 0) in
  (canonical t /\ n = 1) \/ (~ canonical t /\ n = 0).
Proof.
  unfold canonical.
  destruct (String.eqb_spec t "BOND") as [-> | H1]; [left; auto |].
  destruct (String.eqb_spec t "ANGLE") as [-> | H2]; [left; auto |].
  destruct (String.eqb_spec t "OUT") as [-> | H3]; [left; auto |].
  destruct (String.eqb_spec t "TORSION") as [-> | H4]; [left; auto |].
  right. split; [| reflexivity]. intros [? | [? | [? | ?]]]; contradiction.
Qed.

Lemma canonical_total cs :
  let total := count_of "BOND" cs + count_of "ANGLE" cs
               + count_of "OUT" cs + count_of "TORSION" cs in
  total <= Z.of_nat (length cs)
  /\ (total = Z.of_nat (length cs)
      <-> forall c, List.In c cs -> canonical (upper (ctype c))).
Proof.
  induction cs as [|c cs [IHle IHeq]].
  - simpl. split; [reflexivity |]. split; [intros _ c [] | reflexivity].
  - cbv zeta in *. rewrite !count_of_cons.
    change (length (c :: cs)) with (S (length cs)).
    destruct (canonical_indicator (upper (ctype c))) as [[Hc Hn] | [Hc Hn]];
      cbv zeta in Hn; split; try lia.
    + split.
      * intros H c' [<- | Hin]; [exact Hc |]. apply IHeq; [lia | exact Hin].
      * intros H.
        assert (forall c', List.In c' cs -> canonical (upper (ctype c')))
          as H' by (intros; apply H; now right).
        apply IHeq in H'. lia.
    + split; [lia |]. intros H. exfalso. apply Hc, H. now left.
Qed.

(** X15.  In every row the four counts are not negative and add up to
    the number of contributions of the mode at most; they add up to it
    exactly when the type of every contribution is, in upper case, one
    of BOND, ANGLE, OUT and TORSION. *)
Theorem counts_within_contributions (topn : nat) (m : mode_record) :
  let r := make_row topn m in
  let total := row_BOND r + row_ANGLE r + row_OUT r + row_TORSION r in
  0 <= row_BOND r /\ 0 <= row_ANGLE r /\ 0 <= row_OUT r /\ 0 <= row_TORSION r
  /\ total <= Z.of_nat (length (Contrib m))
  /\ (total = Z.of_nat (length (Contrib m))
      <-> forall c, List.In c (Contrib m) -> canonical (upper (ctype c))).
Proof.
  assert (forall key, cnt_get (count_types (Contrib m)) key
                      = count_of key (Contrib m)) as A.
  { intros key. unfold count_types. rewrite cnt_get_fold, cnt_init_zero. lia. }
  cbv zeta. unfold make_row. simpl. rewrite !A.
  pose proof (canonical_total (Contrib m)) as [Hle Heq]. cbv zeta in Heq.
  repeat (split; [apply count_of_nonneg |]). split; [exact Hle | exact Heq].
Qed.

Lemma StronglySorted_app_inv {A} (R : A -> A -> Prop) l1 l2 :
  StronglySorted R (l1 ++ l2)%list ->
  forall x y, List.In x l1 -> List.In y l2 -> R x y.
Proof.
  induction l1 as [|a l1 IH]; simpl; intros H x y Hx Hy; [contradiction |].
  apply StronglySorted_inv in H as [Hs Hf]. destruct Hx as [<- | Hx].
  - rewrite List.Forall_forall in Hf. apply Hf, in_or_app. now right.
  - now apply IH.
Qed.

Lemma sorted_by_weight_desc_sorted l :
  (forall c, List.In c l -> is_nan (weight c) = false) ->
  StronglySorted not_lighter (sorted_by_weight_desc l).
Proof.
  intros Hnan. unfold sorted_by_weight_desc.
  apply (StronglySorted_rev (fun a b => weight_lt b a = false)).
  apply (sort_by_sorted weight_lt (fun c => is_nan (weight c) = false)).
  - intros x y. apply flt_asym.
  - intros x y z Hx Hy Hz. unfold weight_lt. now apply fge_trans.
  - apply List.Forall_forall. intros c Hc. apply Hnan. now apply in_rev.
Qed.

Lemma sorted_by_weight_desc_perm l : Permutation (sorted_by_weight_desc l) l.
Proof.
  unfold sorted_by_weight_desc.
  rewrite <- Permutation_rev, sort_by_perm. symmetry. apply Permutation_rev.
Qed.

(** X16.  The contributions selected for a row are the heaviest of the
    mode: when no weight is NaN, the contributions of the mode are the
    selected ones and the others, [min(topn, n)] are selected, and no
    selected contribution is lighter than one that is not selected. *)
Theorem top_contributions_heaviest (topn : nat) (m : mode_record) :
  (forall c, List.In c (Contrib m) -> is_nan (weight c) = false) ->
  exists others,
    Permutation (top_contributions topn m ++ others)%list (Contrib m)
    /\ length (top_contributions topn m)
       = Nat.min topn (length (Contrib m))
    /\ forall c c', List.In c (top_contributions topn m) ->
                    List.In c' others -> not_lighter c c'.
Proof.
  intros Hnan. unfold top_contributions.
  exists (skipn topn (sorted_by_weight_desc (Contrib m))).
  rewrite firstn_skipn. split; [apply sorted_by_weight_desc_perm |]. split.
  - rewrite length_firstn.
    now rewrite (Permutation_length (sorted_by_weight_desc_perm (Contrib m))).
  - apply StronglySorted_app_inv. rewrite firstn_skipn.
    now apply sorted_by_weight_desc_sorted.
Qed.

Lemma top_contributions_heaviest_witness :
  let half := S754_finite false 4503599627370496 (-53) in
  let quarter := S754_finite false 4503599627370496 (-54) in
  let c1 := {| ctype := "BOND"; atoms := ["C1"; "H2"]; weight := quarter |} in
  let c2 := {| ctype := "ANGLE"; atoms := ["H2"; "C1"; "H3"]; weight := half |} in
  let c3 := {| ctype := "OUT"; atoms := ["C1"]; weight := quarter |} in
  let m := {| Mode := 7; Freq := half; IR := half; Contrib := [c1; c2; c3] |} in
  exists others,
    Permutation (top_contributions 2 m ++ others)%list (Contrib m)
    /\ length (top_contributions 2 m) = Nat.min 2 (length (Contrib m))
    /\ forall c c', List.In c (top_contributions 2 m) ->
                    List.In c' others -> not_lighter c c'.
Proof.
  intros half quarter c1 c2 c3 m.
  apply (top_contributions_heaviest 2 m).
  intros c [<- | [<- | [<- | []]]]; reflexivity.
Defined.


(* ----------------------------------------------------------------- *)
(** ** The frequency filter: what every answer does *)

Lemma select_column df col (g : float -> bool) :
  astype_float (map row_Freq df) = Some col ->
  select df (map g col) = List.filter (keeps g) df.
Proof.
  revert col. induction df as [|r df IH]; intros col; simpl.
  - now intros [= <-].
  - unfold keeps at 1.
    destruct (py_float (row_Freq r)) as [x|]; [| discriminate].
    destruct (astype_float (map row_Freq df)) as [c|]; [| discriminate].
    intros [= <-]. simpl. now rewrite (IH c eq_refl).
Qed.

Lemma astype_float_filter (P : result_row -> bool) df col :
  astype_float (map row_Freq df) = Some col ->
  exists col', astype_float (map row_Freq (List.filter P df)) = Some col'.
Proof.
  revert col. induction df as [|r df IH]; intros col; simpl; [eauto |].
  destruct (py_float (row_Freq r)) as [x|] eqn:Ex; [| discriminate].
  destruct (astype_float (map row_Freq df)) as [c|]; [| discriminate].
  intros _. destruct (IH c eq_refl) as (c' & Hc').
  destruct (P r); simpl; [| eauto]. rewrite Ex, Hc'. eauto.
Qed.

(** The answer alone decides which test is applied, if any; the table
    decides whether it can be applied. *)
Lemma frequency_filter_form answer :
  exists K : option (float -> bool),
    forall df,
      frequency_filter answer df
      = match K, astype_float (map row_Freq df) with
        | Some g, Some col => select df (map g col)
        | _, _ => df
        end.
Proof.
  unfold frequency_filter. cbv zeta.
  destruct (String.length (strip answer) =? 0)%nat;
    [exists None; reflexivity |].
  destruct (contains "-" (strip answer)).
  - destruct (split_on "-" (strip answer)) as [|a [|b [|c l]]];
      try (exists None; reflexivity).
    destruct (py_float (strip a)) as [lo|]; [| exists None; reflexivity].
    destruct (py_float (strip b)) as [hi|]; [| exists None; reflexivity].
    exists (Some (fun x => fleb lo x && fleb x hi)). reflexivity.
  - destruct (astype_float _) as [freqs|]; [| exists None; reflexivity].
    exists (Some (isin freqs)). reflexivity.
Qed.

Lemma filter_sublist {A} (P : A -> bool) l : List.filter P l `sublist_of` l.
Proof.
  induction l as [|a l IH]; simpl; [constructor |].
  destruct (P a); [now apply sublist_skip | now apply sublist_cons].
Qed.

Lemma filter_twice {A} (P : A -> bool) l :
  List.filter P (List.filter P l) = List.filter P l.
Proof.
  induction l as [|a l IH]; simpl; [reflexivity |].
  destruct (P a) eqn:E; simpl; rewrite ?E, IH; reflexivity.
Qed.

Lemma frequency_filter_only_removes_aux answer df :
  frequency_filter answer df `sublist_of` df.
Proof.
  destruct (frequency_filter_form answer) as (K & ->).
  destruct K as [g|]; [| reflexivity].
  destruct (astype_float (map row_Freq df)) as [col|] eqn:E; [| reflexivity].
  rewrite (select_column df col g E). apply filter_sublist.
Qed.

(** X17.  Whatever the answer and whatever the table, the frequency
    filter adds no row, changes no row and keeps the order of the rows:
    its result is a sublist of the table.  It is idempotent: the same
    answer applied to the filtered table removes nothing more. *)
Theorem frequency_filter_idempotent
    (answer : string) (df : list result_row) :
  frequency_filter answer df `sublist_of` df
  /\ frequency_filter answer (frequency_filter answer df)
     = frequency_filter answer df.
Proof.
  split; [apply frequency_filter_only_removes_aux |].
  destruct (frequency_filter_form answer) as (K & H). rewrite !H.
  destruct K as [g|]; [| reflexivity].
  destruct (astype_float (map row_Freq df)) as [col|] eqn:E.
  - rewrite (select_column df col g E).
    destruct (astype_float_filter (keeps g) df col E) as (col' & E').
    rewrite E', (select_column _ col' g E'). apply filter_twice.
  - now rewrite E.
Qed.

Lemma reversed_range (lo hi x : float) :
  fltb hi lo = true -> fleb lo x && fleb x hi = false.
Proof.
  unfold fltb, fleb, SFltb, SFleb, SFcompare.
  destruct lo as [[]|[]| |[] ? ?], hi as [[]|[]| |[] ? ?],
           x as [[]|[]| |[] ? ?];
    simpl; intros; try reflexivity; try discriminate;
    change (Pos.compare_cont Eq) with Pos.compare in *;
    cases_on_compare; simpl in *; subst;
    try reflexivity; try discriminate; try lia.
Qed.

Lemma select_none {A} (df : list A) (col : list float) (g : float -> bool) :
  (forall x, g x = false) -> select df (map g col) = [].
Proof.
  intros H. revert col. induction df as [|r df IH]; intros [|x col]; simpl;
    try reflexivity.
  rewrite H. apply IH.
Qed.

(** X18.  A range whose first bound is greater than the second selects
    nothing: the answer [200-100] empties the table. *)
Theorem reversed_range_selects_nothing
    (answer a b : string) (lo hi : float) (df : list result_row) :
  (forall r, List.In r df -> displayed r) ->
  strip answer = a ++ "-" ++ b ->
  contains "-" a = false -> contains "-" b = false ->
  py_float (strip a) = Some lo -> py_float (strip b) = Some hi ->
  fltb hi lo = true ->
  frequency_filter answer df = [].
Proof.
  intros Hd E Ha Hb Hlo Hhi Hlt.
  destruct (astype_float_rows df Hd) as (col & Ecol & _).
  unfold frequency_filter. rewrite E.
  destruct (String.length (a ++ "-" ++ b) =? 0)%nat eqn:El.
  { apply length_zero_iff in El. destruct a; discriminate. }
  change (a ++ "-" ++ b) with (a ++ String "-" b).
  rewrite contains_app_char, split_on_once by assumption.
  rewrite Hlo, Hhi, Ecol. apply select_none.
  intros x. now apply reversed_range.
Qed.

Lemma reversed_range_selects_nothing_witness :
  frequency_filter "200 - 100"
    [{| row_Mode := 7; row_Freq := "150.00"; row_IR := "5.00";
        row_BOND := 1; row_ANGLE := 0; row_OUT := 0; row_TORSION := 0;
        row_Top := "BOND(C1 H2):0.50" |}]
  = [].
Proof.
  apply (reversed_range_selects_nothing "200 - 100" "200 " " 100"
           (S754_finite false 7036874417766400 (-45))
           (S754_finite false 7036874417766400 (-46))).
  - intros r [<- | []].
    exists (S754_finite false 5277655813324800 (-45)). reflexivity.
  - reflexivity.
  - reflexivity.
  - reflexivity.
  - vm_compute. reflexivity.
  - vm_compute. reflexivity.
  - reflexivity.
Defined.

Lemma split_on_length_pos c s : (1 <= length (split_on c s))%nat.
Proof.
  induction s as [|a s IH]; simpl; [lia |].
  destruct (Ascii.eqb a c); simpl; [lia |].
  destruct (split_on c s); simpl in *; lia.
Qed.

Lemma split_on_length_app c a r :
  length (split_on c (a ++ String c r))
  = (length (split_on c a) + length (split_on c r))%nat.
Proof.
  induction a as [|x a IH]; simpl.
  - now rewrite Ascii.eqb_refl.
  - destruct (Ascii.eqb x c); simpl; [now rewrite IH |].
    pose proof (split_on_length_pos c (a ++ String c r)) as H1.
    pose proof (split_on_length_pos c a) as H2.
    destruct (split_on c (a ++ String c r)), (split_on c a);
      simpl in *; lia.
Qed.

(** X19.  An answer with two hyphens or more is no range: a bound with a
    minus sign, as in [-5-100], or with a negative exponent, as in
    [1e-3-2], leaves the table as it is. *)
Theorem range_with_two_hyphens_is_ignored
    (answer a b c : string) (df : list result_row) :
  strip answer = a ++ "-" ++ b ++ "-" ++ c ->
  frequency_filter answer df = df.
Proof.
  intros E. unfold frequency_filter. rewrite E.
  destruct (String.length _ =? 0)%nat; [reflexivity |].
  change (a ++ "-" ++ b ++ "-" ++ c) with (a ++ String "-" (b ++ String "-" c)).
  rewrite contains_app_char.
  pose proof (split_on_length_app "-" a (b ++ String "-" c)) as Hl.
  rewrite (split_on_length_app "-" b c) in Hl.
  pose proof (split_on_length_pos "-" a).
  pose proof (split_on_length_pos "-" b).
  pose proof (split_on_length_pos "-" c).
  destruct (split_on "-" (a ++ String "-" (b ++ String "-" c)))
    as [|x [|y [|z l]]]; try reflexivity.
  simpl in Hl. lia.
Qed.

Lemma range_with_two_hyphens_is_ignored_witness :
  frequency_filter "-5-100"
    [{| row_Mode := 7; row_Freq := "150.00"; row_IR := "5.00";
        row_BOND := 1; row_ANGLE := 0; row_OUT := 0; row_TORSION := 0;
        row_Top := "BOND(C1 H2):0.50" |}]
  = [{| row_Mode := 7; row_Freq := "150.00"; row_IR := "5.00";
        row_BOND := 1; row_ANGLE := 0; row_OUT := 0; row_TORSION := 0;
        row_Top := "BOND(C1 H2):0.50" |}].
Proof.
  apply (range_with_two_hyphens_is_ignored "-5-100" "" "5" "100").
  reflexivity.
Defined.

(* ----------------------------------------------------------------- *)
(** ** The atoms filter and the dialogue *)

Lemma mask_or_map {A} (f g : A -> bool) (l : list A) :
  mask_or (map f l) (map g l) = map (fun r => f r || g r) l.
Proof. induction l as [|a l IH]; simpl; [reflexivity | now rewrite IH]. Qed.

Lemma repeat_false_map {A} (l : list A) :
  repeat false (length l) = map (fun _ => false) l.
Proof. induction l as [|a l IH]; simpl; [reflexivity | now rewrite IH]. Qed.

Lemma atoms_mask_rows groups df :
  atoms_mask groups df = map (mentions_any groups) df.
Proof.
  unfold atoms_mask. rewrite repeat_false_map.
  assert (forall seen,
            fold_left
              (fun mask grp =>
                 mask_or mask
                   (map (fun r => mentions_group grp (row_Top r)) df))
              groups (map (mentions_any seen) df)
            = map (mentions_any (seen ++ groups)%list) df) as H.
  { induction groups as [|g gs IH]; intros seen; simpl.
    - now rewrite app_nil_r.
    - rewrite mask_or_map.
      replace (map (fun r => mentions_any seen r
                             || mentions_group g (row_Top r)) df)
        with (map (mentions_any (seen ++ [g])%list) df).
      + rewrite IH, <- app_assoc. reflexivity.
      + apply map_ext. intros r. unfold mentions_any.
        rewrite existsb_app. simpl. now rewrite orb_false_r. }
  exact (H []).
Qed.

Lemma select_map_filter {A} (P : A -> bool) l :
  select l (map P l) = List.filter P l.
Proof.
  induction l as [|a l IH]; simpl; [reflexivity |].
  destruct (P a); now rewrite IH.
Qed.

Lemma existsb_map_id {A} (P : A -> bool) l :
  existsb (fun b => b) (map P l) = existsb P l.
Proof. induction l as [|a l IH]; simpl; [reflexivity | now rewrite IH]. Qed.

Lemma atoms_groups_blank s :
  (String.length (strip s) =? 0)%nat = true -> atoms_groups (strip s) = [].
Proof.
  intros H. apply length_zero_iff in H. rewrite H. reflexivity.
Qed.

Lemma atoms_filter_rows answer df :
  atoms_filter answer df
  = if existsb (mentions_any (atoms_groups (strip answer))) df
    then List.filter (mentions_any (atoms_groups (strip answer))) df
    else df.
Proof.
  unfold atoms_filter. cbv zeta.
  destruct (String.length (strip answer) =? 0)%nat eqn:E.
  - rewrite atoms_groups_blank by assumption.
    replace (existsb (mentions_any []) df) with false; [reflexivity |].
    symmetry. clear. induction df; simpl; auto.
  - now rewrite atoms_mask_rows, existsb_map_id, select_map_filter.
Qed.

(** X20.  On the table of the aggregator the atoms filter keeps, in
    their order, the rows whose top contributions mention one of the
    groups entered, in parentheses and without regard to case, when
    there is such a row, and the whole table when there is none or when
    nothing was entered: it never returns an empty table. *)
Theorem atoms_filter_keeps_mentions
    (answer : string) (modes : list mode_record) (topn : nat) :
  modes <> [] ->
  let df := calc_counts_and_top modes topn in
  let groups := atoms_groups (strip answer) in
  atoms_filter answer df
  = (if existsb (mentions_any groups) df
     then List.filter (mentions_any groups) df
     else df)
  /\ atoms_filter answer df `sublist_of` df
  /\ atoms_filter answer df <> [].
Proof.
  intros Hm. cbv zeta.
  assert (calc_counts_and_top modes topn <> []) as Hne
    by (destruct modes; [congruence | discriminate]).
  revert Hne. generalize (calc_counts_and_top modes topn). intros df Hne.
  rewrite atoms_filter_rows. split; [reflexivity |].
  destruct (existsb _ df) eqn:E.
  - split; [apply filter_sublist |]. intros Hnil.
    apply existsb_exists in E as (r & Hin & Hr).
    assert (List.In r (List.filter
                         (mentions_any (atoms_groups (strip answer))) df))
      as Hf by (apply filter_In; auto).
    rewrite Hnil in Hf. destruct Hf.
  - split; [reflexivity | exact Hne].
Qed.

Lemma atoms_filter_keeps_mentions_witness :
  let c1 := {| ctype := "BOND"; atoms := ["C1"; "H2"];
               weight := S754_finite false 4503599627370496 (-53) |} in
  let m1 := {| Mode := 7; Freq := S754_finite false 7036874417766400 (-46);
               IR := S754_finite false 5629499534213120 (-50);
               Contrib := [c1] |} in
  let m2 := {| Mode := 8; Freq := S754_finite false 7036874417766400 (-45);
               IR := S754_finite false 5629499534213120 (-50);
               Contrib := [] |} in
  atoms_filter " c1 h2 , " (calc_counts_and_top [m1; m2] 2)
  = [make_row 2 m1].
Proof.
  intros c1 m1 m2.
  rewrite (proj1 (atoms_filter_keeps_mentions " c1 h2 , " [m1; m2] 2
                    ltac:(discriminate))).
  vm_compute. reflexivity.
Defined.

Lemma prompt_filter_sublist answers df out rest :
  (forall a, atoms_filter a df `sublist_of` df) ->
  prompt_filter answers df = Some (Table out, rest) ->
  out `sublist_of` df.
Proof.
  intros Ha. induction answers as [|answer l IH]; simpl; [discriminate |].
  destruct (String.eqb (lower (strip answer)) "a").
  { destruct l as [|x l']; [discriminate |]. intros [= <- _]. apply Ha. }
  destruct (String.eqb (lower (strip answer)) "f").
  { destruct l as [|x l']; [discriminate |]. intros [= <- _].
    apply frequency_filter_only_removes_aux. }
  destruct (String.eqb (lower (strip answer)) "n").
  { intros [= <- _]. reflexivity. }
  destruct (String.eqb (lower (strip answer)) "e"); [discriminate |].
  exact IH.
Qed.

(** X21.  Whatever is answered to the dialogue on the table of the
    aggregator, a table that [prompt_filter] returns is a sublist of it:
    the filters add no row, change no row and keep the order of the
    rows. *)
Theorem prompt_filter_only_removes
    (answers : list string) (modes : list mode_record) (topn : nat)
    (out : list result_row) (rest : list string) :
  modes <> [] ->
  prompt_filter answers (calc_counts_and_top modes topn)
  = Some (Table out, rest) ->
  out `sublist_of` calc_counts_and_top modes topn.
Proof.
  intros _. apply prompt_filter_sublist. intros a.
  rewrite atoms_filter_rows. destruct (existsb _ _); [| reflexivity].
  apply filter_sublist.
Qed.

Lemma prompt_filter_only_removes_witness :
  let c1 := {| ctype := "BOND"; atoms := ["C1"; "H2"];
               weight := S754_finite false 4503599627370496 (-53) |} in
  let m1 := {| Mode := 7; Freq := S754_finite false 7036874417766400 (-46);
               IR := S754_finite false 5629499534213120 (-50);
               Contrib := [c1] |} in
  let m2 := {| Mode := 8; Freq := S754_finite false 7036874417766400 (-45);
               IR := S754_finite false 5629499534213120 (-50);
               Contrib := [] |} in
  exists out,
    prompt_filter ["x"; " F "; "150-250"; "e"] (calc_counts_and_top [m1; m2] 2)
    = Some (Table out, ["e"])
    /\ out `sublist_of` calc_counts_and_top [m1; m2] 2.
Proof.
  intros c1 m1 m2. eexists. split; [vm_compute; reflexivity |].
  apply (prompt_filter_only_removes ["x"; " F "; "150-250"; "e"] [m1; m2] 2
           _ ["e"]).
  - discriminate.
  - vm_compute. reflexivity.
Defined.


(* ----------------------------------------------------------------- *)
(** ** The export: which format a file name selects *)

Lemma contains_char_cons c a s :
  contains (String c "") (String a s)
  = Ascii.eqb c a || contains (String c "") s.
Proof. simpl. now rewrite andb_true_r. Qed.

Lemma contains_char_app c a b :
  contains (String c "") (a ++ b)
  = contains (String c "") a || contains (String c "") b.
Proof.
  induction a as [|x a IH]; [reflexivity |].
  change (String x a ++ b) with (String x (a ++ b)).
  rewrite !contains_char_cons, IH. apply orb_assoc.
Qed.

Lemma str_length_app (a b : string) :
  String.length (a ++ b) = (String.length a + String.length b)%nat.
Proof. induction a as [|x a IH]; simpl; [reflexivity | now rewrite IH]. Qed.

Lemma rfind_from_absent c s i :
  contains (String c "") s = false -> rfind_from c s i = -1.
Proof.
  revert i. induction s as [|a s IH]; intros i; [reflexivity |].
  rewrite contains_char_cons. intros H.
  apply orb_false_iff in H as [Ha Hs].
  cbn [rfind_from]. rewrite (IH _ Hs). cbv zeta.
  destruct (Ascii.eqb_spec a c) as [-> |]; [| reflexivity].
  rewrite Ascii.eqb_refl in Ha. discriminate.
Qed.

Lemma rfind_from_last c s t i :
  0 <= i -> contains (String c "") t = false ->
  rfind_from c (s ++ String c t) i = i + Z.of_nat (String.length s).
Proof.
  revert i. induction s as [|a s IH]; intros i Hi Ht.
  - change ("" ++ String c t) with (String c t). cbn [rfind_from].
    rewrite (rfind_from_absent c t _ Ht). cbv zeta.
    rewrite Ascii.eqb_refl. simpl. lia.
  - change (String a s ++ String c t) with (String a (s ++ String c t)).
    cbn [rfind_from]. rewrite IH by (lia || assumption). cbv zeta.
    destruct (0 <=? i + 1 + Z.of_nat (String.length s)) eqn:E.
    + simpl String.length. lia.
    + apply Z.leb_gt in E. lia.
Qed.

Lemma rfind_from_app_absent c s t i :
  contains (String c "") t = false ->
  rfind_from c (s ++ t) i = rfind_from c s i.
Proof.
  intros Ht. revert i. induction s as [|a s IH]; intros i.
  - now apply rfind_from_absent.
  - change (String a s ++ t) with (String a (s ++ t)).
    cbn [rfind_from]. now rewrite IH.
Qed.

Lemma rfind_from_range c s i :
  0 <= i ->
  rfind_from c s i = -1
  \/ i <= rfind_from c s i < i + Z.of_nat (String.length s).
Proof.
  revert i. induction s as [|a s IH]; intros i Hi; [now left |].
  cbn [rfind_from]. cbv zeta.
  destruct (IH (i + 1) ltac:(lia)) as [-> | Hr].
  - change (0 <=? -1) with false. cbv iota.
    destruct (Ascii.eqb a c); [right; simpl String.length; lia | now left].
  - destruct (0 <=? rfind_from c s (i + 1)) eqn:E.
    + right. simpl String.length. lia.
    + apply Z.leb_gt in E. lia.
Qed.

(** The index of the last separator, when the path is a directory
    prefix followed by a name without separator. *)
Lemma sep_index dir name :
  (dir = "" \/ exists d, dir = d ++ "/") ->
  contains "/" name = false ->
  rfind "/" (dir ++ name) = Z.of_nat (String.length dir) - 1.
Proof.
  intros [-> | [d ->]] H; unfold rfind.
  - change ("" ++ name) with name. now rewrite rfind_from_absent.
  - rewrite str_app_assoc. change ("/" ++ name) with (String "/" name).
    rewrite rfind_from_last by (lia || assumption).
    rewrite str_length_app. simpl String.length. lia.
Qed.

Lemma splitext_ext_last dir base e :
  (dir = "" \/ exists d, dir = d ++ "/") ->
  contains "/" base = false -> all_in is_dot base = false ->
  contains "." e = false -> contains "/" e = false ->
  splitext_ext (dir ++ base ++ "." ++ e) = "." ++ e.
Proof.
  intros Hdir Hb Hnd He Hes. unfold splitext_ext. cbv zeta.
  assert (contains "/" (base ++ "." ++ e) = false) as Hname.
  { change ("." ++ e) with (String "." e).
    now rewrite contains_char_app, contains_char_cons, Hb, Hes. }
  rewrite (sep_index dir (base ++ "." ++ e) Hdir Hname).
  assert (rfind "." (dir ++ base ++ "." ++ e)
          = Z.of_nat (String.length (dir ++ base))) as ->.
  { unfold rfind. rewrite <- str_app_assoc.
    change ("." ++ e) with (String "." e).
    rewrite rfind_from_last by (lia || assumption). lia. }
  rewrite str_length_app.
  replace (Z.of_nat (String.length dir) - 1
           <? Z.of_nat (String.length dir + String.length base)) with true
    by (symmetry; apply Z.ltb_lt; lia).
  replace (Z.to_nat (Z.of_nat (String.length dir) - 1 + 1))
    with (String.length dir) by lia.
  replace (Z.to_nat (Z.of_nat (String.length dir + String.length base)
                     - (Z.of_nat (String.length dir) - 1 + 1)))
    with (String.length base) by lia.
  rewrite str_drop_app, str_take_app, Hnd.
  rewrite Nat2Z.id, <- str_length_app, <- str_app_assoc.
  apply str_drop_app.
Qed.

Lemma all_dots_last s :
  all_in is_dot s = true -> s <> "" ->
  exists s', s = s' ++ "." /\ all_in is_dot s' = true.
Proof.
  induction s as [|c s IH]; [congruence |]. simpl. intros H _.
  apply andb_true_iff in H as [Hc Hs]. apply Ascii.eqb_eq in Hc. subst c.
  destruct s as [|c' s'].
  - exists "". split; reflexivity.
  - destruct (IH Hs ltac:(discriminate)) as (t & -> & Ht).
    exists (String "." t). split; [reflexivity |]. simpl. exact Ht.
Qed.

Lemma splitext_ext_none dir dots e :
  (dir = "" \/ exists d, dir = d ++ "/") ->
  all_in is_dot dots = true ->
  contains "." e = false -> contains "/" e = false ->
  splitext_ext (dir ++ dots ++ e) = "".
Proof.
  intros Hdir Hd He Hes. destruct dots as [|c0 d0] eqn:Edots.
  - change ("" ++ e) with e. unfold splitext_ext. cbv zeta.
    rewrite (sep_index dir e Hdir Hes).
    unfold rfind. rewrite rfind_from_app_absent by assumption.
    destruct (rfind_from_range "." dir 0 ltac:(lia)) as [-> | Hr].
    + replace (Z.of_nat (String.length dir) - 1 <? -1) with false;
        [reflexivity |]. symmetry. apply Z.ltb_ge. lia.
    + replace (Z.of_nat (String.length dir) - 1 <? rfind_from "." dir 0)
        with false; [reflexivity |]. symmetry. apply Z.ltb_ge. lia.
  - rewrite <- Edots in *.
    destruct (all_dots_last dots Hd ltac:(subst; discriminate))
      as (pre & -> & Hpre).
    rewrite (str_app_assoc pre "." e).
    unfold splitext_ext. cbv zeta.
    assert (contains "/" (pre ++ "." ++ e) = false) as Hname.
    { change ("." ++ e) with (String "." e).
      rewrite contains_char_app, contains_char_cons, Hes.
      replace (contains "/" pre) with false; [reflexivity |].
      symmetry. clear - Hpre. induction pre as [|c p IH]; [reflexivity |].
      simpl in Hpre. apply andb_true_iff in Hpre as [Hc Hp].
      rewrite contains_char_cons, (IH Hp).
      apply Ascii.eqb_eq in Hc. now subst c. }
    rewrite (sep_index dir (pre ++ "." ++ e) Hdir Hname).
    assert (rfind "." (dir ++ pre ++ "." ++ e)
            = Z.of_nat (String.length (dir ++ pre))) as ->.
    { unfold rfind. rewrite <- str_app_assoc.
      change ("." ++ e) with (String "." e).
      rewrite rfind_from_last by (lia || assumption). lia. }
    rewrite str_length_app.
    replace (Z.of_nat (String.length dir) - 1
             <? Z.of_nat (String.length dir + String.length pre)) with true
      by (symmetry; apply Z.ltb_lt; lia).
    replace (Z.to_nat (Z.of_nat (String.length dir) - 1 + 1))
      with (String.length dir) by lia.
    replace (Z.to_nat (Z.of_nat (String.length dir + String.length pre)
                       - (Z.of_nat (String.length dir) - 1 + 1)))
      with (String.length pre) by lia.
    now rewrite str_drop_app, str_take_app, Hpre.
Qed.

Lemma lower_app (a b : string) : lower (a ++ b) = lower a ++ lower b.
Proof.
  unfold lower. induction a as [|c a IH]; simpl; [reflexivity |].
  now rewrite IH.
Qed.

Lemma lower_char_dot c : Ascii.eqb "." (lower_char c) = Ascii.eqb "." c.
Proof. destruct c as [[] [] [] [] [] [] [] []]; vm_compute; reflexivity. Qed.

Lemma contains_dot_lower s : contains "." (lower s) = contains "." s.
Proof.
  induction s as [|c s IH]; [reflexivity |].
  change (lower (String c s)) with (String (lower_char c) (lower s)).
  now rewrite !contains_char_cons, IH, lower_char_dot.
Qed.

Lemma endswith_inv suffix s :
  endswith suffix s = true -> exists pre, s = pre ++ suffix.
Proof.
  unfold endswith. intros H. apply andb_true_iff in H as [_ H].
  apply String.eqb_eq in H.
  remember (String.length s - String.length suffix)%nat as n eqn:En.
  clear En. exists (str_take n s). subst suffix.
  symmetry. apply str_take_drop.
Qed.

Lemma endswith_app pre suffix : endswith suffix (pre ++ suffix) = true.
Proof.
  unfold endswith. rewrite str_length_app. apply andb_true_iff. split.
  - apply Nat.leb_le. lia.
  - replace (String.length pre + String.length suffix
             - String.length suffix)%nat with (String.length pre) by lia.
    rewrite str_drop_app. apply String.eqb_refl.
Qed.

(** What follows the last dot of a text is determined by the text. *)
Lemma last_dot_inj (a x b y : string) :
  a ++ String "." x = b ++ String "." y ->
  contains "." x = false -> contains "." y = false -> x = y.
Proof.
  revert b. induction a as [|c a IH]; intros [|d b] H Hx Hy.
  - now injection H.
  - injection H as _ H. rewrite H, contains_app_char in Hx. discriminate.
  - injection H as _ H. rewrite <- H, contains_app_char in Hy. discriminate.
  - injection H as _ H. now apply (IH b).
Qed.

(** An ending of the table ends the file name only when what follows
    the last dot of the name is, in lower case, what follows the last
    dot of the ending. *)
Lemma endswith_ending (q e pre_ext y : string) :
  contains "." e = false -> contains "." y = false -> lower e <> y ->
  endswith (pre_ext ++ String "." y) (lower (q ++ String "." e)) = false.
Proof.
  intros He Hy Hne.
  destruct (endswith _ _) eqn:E; [| reflexivity]. exfalso.
  apply endswith_inv in E as (pre & E).
  rewrite lower_app in E.
  change (lower (String "." e)) with (String "." (lower e)) in E.
  rewrite <- str_app_assoc in E. apply last_dot_inj in E; auto.
  now rewrite contains_dot_lower.
Qed.

Lemma not_compressed (q e : string) :
  contains "." e = false -> ~ List.In (lower e) compression_endings ->
  infer_compression (q ++ String "." e) = None.
Proof.
  intros He Hn. unfold infer_compression, extension_to_compression.
  assert (forall ext pre_ext y,
            ext = pre_ext ++ String "." y ->
            List.In y compression_endings ->
            endswith ext (lower (q ++ String "." e)) = false) as H.
  { intros ext pre_ext y -> Hy. apply endswith_ending; auto.
    - simpl in Hy.
      repeat (destruct Hy as [<- | Hy]; [reflexivity |]). destruct Hy.
    - intros E. apply Hn. now rewrite E. }
  cbn [List.find fst].
  rewrite (H ".tar" "" "tar"), (H ".tar.gz" ".tar" "gz"),
    (H ".tar.bz2" ".tar" "bz2"), (H ".tar.xz" ".tar" "xz"),
    (H ".gz" "" "gz"), (H ".bz2" "" "bz2"), (H ".zip" "" "zip"),
    (H ".xz" "" "xz"), (H ".zst" "" "zst");
    try reflexivity; simpl; tauto.
Qed.

Lemma is_compressed (q e : string) :
  List.In (lower e) compression_endings ->
  infer_compression (q ++ String "." e) <> None.
Proof.
  intros Hin. unfold infer_compression.
  destruct (List.find _ extension_to_compression) as [ec|] eqn:E;
    [discriminate |]. exfalso.
  assert (exists m, List.In (String "." (lower e), m)
                      extension_to_compression) as (m & Hm).
  { simpl in Hin.
    repeat (destruct Hin as [<- | Hin]; [eexists; simpl; tauto |]).
    destruct Hin. }
  apply (find_none _ _ E) in Hm. simpl in Hm.
  rewrite lower_app in Hm.
  change (lower (String "." e)) with (String "." (lower e)) in Hm.
  rewrite endswith_app in Hm. discriminate.
Qed.

(** No ending of the table ends a file name whose last component has no
    dot. *)
Lemma no_dot_no_ending (u e w y : string) :
  (u = "" \/ exists d, u = d ++ "/") ->
  contains "." e = false -> contains "/" y = false ->
  u ++ e = w ++ String "." y -> False.
Proof.
  revert w. induction u as [|c u IH]; intros w Hu He Hy H.
  - change ("" ++ e) with e in H. rewrite H, contains_app_char in He.
    discriminate.
  - assert (u = "" \/ exists d, u = d ++ "/") as Hu'.
    { destruct Hu as [Hu | [[|c0 d] Hu]]; [discriminate | |].
      - injection Hu as _ ->. now left.
      - injection Hu as _ ->. right. now exists d. }
    destruct w as [|c' w].
    + injection H as -> H.
      destruct Hu as [Hu | [[|c0 d] Hu]]; [discriminate | discriminate |].
      injection Hu as _ ->.
      rewrite <- H, str_app_assoc in Hy.
      change ("/" ++ e) with (String "/" e) in Hy.
      rewrite contains_app_char in Hy. discriminate.
    + injection H as _ H. now apply (IH w).
Qed.

Lemma not_compressed_no_dot (dir e : string) :
  (dir = "" \/ exists d, dir = d ++ "/") ->
  contains "." e = false ->
  infer_compression (dir ++ e) = None.
Proof.
  intros Hdir He. unfold infer_compression, extension_to_compression.
  assert (forall y, contains "/" y = false ->
                    endswith (String "." y) (lower (dir ++ e)) = false) as H.
  { intros y Hy. destruct (endswith _ _) eqn:E; [| reflexivity]. exfalso.
    apply endswith_inv in E as (pre & E). rewrite lower_app in E.
    apply (no_dot_no_ending (lower dir) (lower e) pre y); auto.
    - destruct Hdir as [-> | [d ->]]; [now left | right].
      exists (lower d). now rewrite lower_app.
    - now rewrite contains_dot_lower. }
  cbn [List.find fst].
  rewrite (H "tar"), (H "tar.gz"), (H "tar.bz2"), (H "tar.xz"), (H "gz"),
    (H "bz2"), (H "zip"), (H "xz"), (H "zst"); reflexivity.
Qed.

(** X22.  The format follows the text after the last dot of the file
    name.  For a name with a directory prefix or none, a base that is
    not made of dots only and an ending without dot, when the name can
    be opened for writing: [xlsx] typed in lower case gives the
    workbook, when a writer of workbooks is installed; [xlsx] typed in
    another case gives nothing; [mc] in any case gives the
    pipe-delimited table; an ending that pandas takes for a compression
    gives no text; every other ending gives the tab-separated text. *)
Theorem export_follows_last_extension
    (env : environment) (dir base e : string) (df : list result_row) :
  (dir = "" \/ exists d, dir = d ++ "/") ->
  contains "/" base = false -> all_in is_dot base = false ->
  contains "." e = false -> contains "/" e = false ->
  let outpath := dir ++ base ++ "." ++ e in
  extension outpath = "." ++ lower e
  /\ (e = "xlsx" -> excel_writer env = true ->
      can_open env outpath = true ->
      export_results env outpath df = Workbook (to_excel df))
  /\ (lower e = "xlsx" -> e <> "xlsx" ->
      export_results env outpath df = NotWritten)
  /\ (lower e = "mc" -> can_open env outpath = true ->
      export_results env outpath df = Text (mc_text df))
  /\ (lower e <> "xlsx" -> lower e <> "mc" ->
      ~ List.In (lower e) compression_endings ->
      can_open env outpath = true ->
      export_results env outpath df = Text (to_csv df))
  /\ (List.In (lower e) compression_endings ->
      forall t, export_results env outpath df <> Text t).
Proof.
  intros Hdir Hb Hnd He Hes outpath.
  pose proof (splitext_ext_last dir base e Hdir Hb Hnd He Hes) as Hext.
  fold outpath in Hext.
  assert (outpath = (dir ++ base) ++ String "." e) as Hp
    by (unfold outpath; now rewrite <- str_app_assoc).
  unfold extension, export_results, write_excel, write_mc, write_csv.
  cbv zeta. rewrite Hext.
  change (lower ("." ++ e)) with (String "." (lower e)).
  change (String.eqb (String "." (lower e)) ".xlsx")
    with (String.eqb (lower e) "xlsx").
  change (String.eqb (String "." (lower e)) ".mc")
    with (String.eqb (lower e) "mc").
  change (String.eqb ("." ++ e) ".xlsx") with (String.eqb e "xlsx").
  split; [reflexivity |]. split; [| split; [| split; [| split]]].
  - intros -> Hw Ho. now rewrite Hw, Ho.
  - intros -> Hne. apply String.eqb_neq in Hne. now rewrite Hne.
  - intros -> Ho. now rewrite Ho.
  - intros H1 H2 Hc Ho. apply String.eqb_neq in H1, H2. rewrite H1, H2, Ho.
    now rewrite Hp, not_compressed.
  - intros Hin t.
    assert (String.eqb (lower e) "xlsx" = false
            /\ String.eqb (lower e) "mc" = false) as [-> ->].
    { simpl in Hin.
      repeat (destruct Hin as [<- | Hin]; [split; reflexivity |]).
      destruct Hin. }
    pose proof (is_compressed (dir ++ base) e Hin) as Hc.
    rewrite <- Hp in Hc.
    destruct (infer_compression outpath) as [m|]; [| congruence].
    destruct (_ && _); [discriminate |].
    destruct (can_open env outpath); discriminate.
Qed.

Lemma export_follows_last_extension_witness :
  let env := {| excel_writer := true; zstandard := false;
                can_open := fun p => negb (endswith "/" p) |} in
  export_results env ("/content/" ++ "modes.v2" ++ "." ++ "xlsx") []
  = Workbook (to_excel [])
  /\ export_results env ("/content/" ++ "modes.v2" ++ "." ++ "XLSX") []
     = NotWritten
  /\ export_results env ("" ++ "modes" ++ "." ++ "Mc") [] = Text (mc_text [])
  /\ export_results env ("" ++ "modes" ++ "." ++ "txt") [] = Text (to_csv [])
  /\ (forall t, export_results env ("" ++ "modes" ++ "." ++ "GZ") []
                <> Text t).
Proof.
  intros env.
  assert (forall dir : string,
            dir = "/content/" \/ dir = "" ->
            dir = "" \/ exists d, dir = d ++ "/") as Hdir.
  { intros dir [-> | ->]; [right; now exists "/content" | now left]. }
  split; [| split; [| split; [| split]]].
  - apply (proj1 (proj2 (export_follows_last_extension env "/content/"
                           "modes.v2" "xlsx" []
                           (Hdir _ (or_introl eq_refl))
                           eq_refl eq_refl eq_refl eq_refl)));
      reflexivity.
  - apply (proj1 (proj2 (proj2 (export_follows_last_extension env "/content/"
                                  "modes.v2" "XLSX" []
                                  (Hdir _ (or_introl eq_refl))
                                  eq_refl eq_refl eq_refl eq_refl))));
      [reflexivity | discriminate].
  - apply (proj1 (proj2 (proj2 (proj2
             (export_follows_last_extension env "" "modes" "Mc" []
                (Hdir _ (or_intror eq_refl))
                eq_refl eq_refl eq_refl eq_refl))))).
    + reflexivity.
    + reflexivity.
  - apply (proj1 (proj2 (proj2 (proj2 (proj2
             (export_follows_last_extension env "" "modes" "txt" []
                (Hdir _ (or_intror eq_refl))
                eq_refl eq_refl eq_refl eq_refl)))))).
    + discriminate.
    + discriminate.
    + simpl. intros H.
      repeat (destruct H as [H | H]; [discriminate |]). exact H.
    + reflexivity.
  - apply (proj2 (proj2 (proj2 (proj2 (proj2
             (export_follows_last_extension env "" "modes" "GZ" []
                (Hdir _ (or_intror eq_refl))
                eq_refl eq_refl eq_refl eq_refl)))))).
    simpl. tauto.
Defined.

(** X23.  A file name without a dot in its last component, when it can
    be opened for writing, is written as tab-separated text.  So is a
    name that starts with its only dots, as [.mc] and [.xlsx], which are
    hidden files without extension and give no table and no workbook,
    unless what follows the dots is an ending that pandas takes for a
    compression, as in [.gz]. *)
Theorem dot_file_is_written_as_text
    (env : environment) (dir dots e : string) (df : list result_row) :
  (dir = "" \/ exists d, dir = d ++ "/") ->
  all_in is_dot dots = true ->
  contains "." e = false -> contains "/" e = false ->
  (dots = "" \/ ~ List.In (lower e) compression_endings) ->
  can_open env (dir ++ dots ++ e) = true ->
  export_results env (dir ++ dots ++ e) df = Text (to_csv df).
Proof.
  intros Hdir Hd He Hes Hc Ho. unfold export_results, write_csv. cbv zeta.
  rewrite Ho.
  rewrite (splitext_ext_none dir dots e Hdir Hd He Hes).
  change (String.eqb (lower "") ".xlsx") with false.
  change (String.eqb (lower "") ".mc") with false. cbv iota.
  assert (infer_compression (dir ++ dots ++ e) = None) as ->;
    [| reflexivity].
  destruct dots as [|c0 d0] eqn:Edots.
  - change ("" ++ e) with e. now apply not_compressed_no_dot.
  - destruct Hc as [Hc | Hc]; [discriminate |]. rewrite <- Edots in *.
    destruct (all_dots_last dots Hd ltac:(subst; discriminate))
      as (pre & -> & Hpre).
    rewrite (str_app_assoc pre "." e), <- str_app_assoc.
    change ("." ++ e) with (String "." e). now apply not_compressed.
Qed.

Lemma dot_file_is_written_as_text_witness :
  let env := {| excel_writer := true; zstandard := true;
                can_open := fun p => negb (endswith "/" p) |} in
  export_results env ("" ++ "." ++ "mc") [] = Text (to_csv [])
  /\ export_results env ("out/" ++ "" ++ "gz") [] = Text (to_csv []).
Proof.
  intros env. split.
  - apply (dot_file_is_written_as_text env "" "." "mc" []);
      [now left | reflexivity | reflexivity | reflexivity | | reflexivity].
    right. simpl. intros H.
    repeat (destruct H as [H | H]; [discriminate |]). exact H.
  - apply (dot_file_is_written_as_text env "out/" "" "gz" []);
      [right; exists "out"; reflexivity | reflexivity | reflexivity
      | reflexivity | now left | reflexivity].
Defined.

(* ----------------------------------------------------------------- *)
(** ** The path of the report *)

Lemma startswith_app p s t :
  (String.length p <= String.length s)%nat ->
  startswith p (s ++ t) = startswith p s.
Proof.
  revert s. induction p as [|a p IH]; intros s H; [now destruct s |].
  destruct s as [|b s]; [simpl in H; lia |].
  simpl. rewrite IH; [reflexivity | simpl in H; lia].
Qed.

Ltac decide_chars :=
  cbn [startswith String.append];
  repeat match goal with
    | |- context [Ascii.eqb ?a ?b] =>
        is_var b; destruct (Ascii.eqb_spec a b); [subst b |];
        cbn [andb]; try reflexivity
    end;
  try (vm_compute; reflexivity).

(** No occurrence of [.hess] starts in a stem and ends in the [.hess]
    that follows it. *)
Lemma hess_test s :
  s <> "" -> startswith ".hess" (s ++ ".hess") = startswith ".hess" s.
Proof.
  intros Hne.
  destruct s as [|c1 [|c2 [|c3 [|c4 [|c5 s']]]]]; [congruence | | | | |].
  - decide_chars.
  - decide_chars.
  - decide_chars.
  - decide_chars.
  - apply startswith_app. simpl. lia.
Qed.

Lemma replace_from_hess k s :
  (k <= String.length s)%nat ->
  replace_from ".hess" ".nma" k (s ++ ".hess")
  = replace_from ".hess" ".nma" k s ++ ".nma".
Proof.
  revert k. induction s as [|c s IH]; intros k Hk.
  - simpl in Hk. replace k with 0%nat by lia. vm_compute. reflexivity.
  - change (String c s ++ ".hess") with (String c (s ++ ".hess")).
    cbn [replace_from]. destruct k as [|k].
    + change (String c (s ++ ".hess")) with (String c s ++ ".hess").
      rewrite hess_test by discriminate.
      destruct (startswith ".hess" (String c s)) eqn:E.
      * assert (4 <= String.length s)%nat as Hl.
        { destruct s as [|c2 [|c3 [|c4 [|c5 s']]]];
            try (simpl; lia); exfalso; revert E; decide_chars;
            discriminate. }
        change (String.length ".hess" - 1)%nat with 4%nat.
        rewrite IH by assumption. now rewrite str_app_assoc.
      * rewrite IH by lia. reflexivity.
    + apply IH. simpl in Hk. lia.
Qed.

Lemma replace_from_absent old new s :
  contains old s = false -> replace_from old new 0 s = s.
Proof.
  induction s as [|c s IH]; [reflexivity |].
  intros H. cbn [contains] in H. apply orb_false_iff in H as [Hs Hc].
  cbn [replace_from]. now rewrite Hs, IH.
Qed.

Lemma str_app_last_inj (a b : string) c d :
  a ++ String c "" = b ++ String d "" -> c = d.
Proof.
  revert b. induction a as [|x a IH]; intros [|y b]; simpl; intros H.
  - congruence.
  - injection H as _ H. destruct b; discriminate.
  - injection H as _ H. destruct a; discriminate.
  - injection H as _ H. eauto.
Qed.

(** X24.  For a Hessian path that ends in [.hess], the path of the
    report ends in [.nma] and is never the Hessian path itself; it is
    the stem followed by [.nma] when [.hess] does not occur in the stem,
    and the replacement made in the stem otherwise. *)
Theorem nma_path_of_hess_path (stem : string) :
  nma_path (stem ++ ".hess") = nma_path stem ++ ".nma"
  /\ (contains ".hess" stem = false ->
      nma_path (stem ++ ".hess") = stem ++ ".nma")
  /\ nma_path (stem ++ ".hess") <> stem ++ ".hess".
Proof.
  assert (nma_path (stem ++ ".hess") = nma_path stem ++ ".nma") as E
    by (apply replace_from_hess; lia).
  split; [exact E | split].
  - intros H. rewrite E. unfold nma_path, py_replace.
    now rewrite replace_from_absent.
  - rewrite E. intros H.
    change (nma_path stem ++ ".nma")
      with (nma_path stem ++ ".nm" ++ String "a" "") in H.
    change (stem ++ ".hess") with (stem ++ ".hes" ++ String "s" "") in H.
    rewrite <- !str_app_assoc in H.
    apply str_app_last_inj in H. discriminate.
Qed.

Lemma nma_path_of_hess_path_witness :
  nma_path ("/content/water" ++ ".hess") = "/content/water" ++ ".nma".
Proof.
  apply (proj1 (proj2 (nma_path_of_hess_path "/content/water"))).
  reflexivity.
Defined.
